(** * A shallow embedding of the blog server's post lifecycle and access control

    The development follows the layout of the server sources:
    - [Js]            : the JavaScript string and number primitives the code calls;
    - [Validation]    : [utils/validation.js] and the express-validator checks used by the routes;
    - [PostModel]     : [models/Post.js] (schema, setters, virtuals, the [pre('save')] hook)
                        together with the part of Mongoose's document life cycle the hook observes;
    - [ErrorHandler]  : [middleware/errorHandler.js];
    - [Auth]          : [middleware/auth.js];
    - [PostController], [PostRoutes] : [controllers/postController.js] and [routes/posts.js];
    - [Lifecycle]     : the posts collection as the controller's requests change it;
    - [Sample]        : a few users, posts and requests to run the definitions on;
    - [History], [PostStatics], [ValidationUtil], [AuthController], [UserRoutes] :
                        what stored posts keep true, the static [findPublished], the
                        rest of [utils/validation.js], the login of
                        [controllers/authController.js] and [routes/users.js];
    - [Cases]         : more sample data.

    Strings are sequences of Latin-1 characters ([ascii]), object ids are
    kept as their 24 hexadecimal digits, dates are milliseconds since the
    epoch, and every operation that reads the clock receives the current
    time as an argument.  Numbers are doubles: the integers among them are
    kept exact, and what is computed with them is rounded as a double is.
    Requests are handled one at a time.  Responses
    carry the stored documents: the sub-documents that [populate] puts in
    place of the author and category ids, and the ids Mongoose gives to
    embedded likes and comments, are left out. *)

From Stdlib Require Import List String Ascii Bool Arith NArith ZArith Lia Permutation.
Import ListNotations.

Local Open Scope string_scope.

(* ================================================================== *)
(** ** JavaScript primitives *)
(* ================================================================== *)

Module Js.

Definition code (c : ascii) : nat := nat_of_ascii c.

Definition between (lo hi : nat) (c : ascii) : bool :=
  (lo <=? code c)%nat && (code c <=? hi)%nat.

Definition isDigit (c : ascii) : bool := between 48 57 c.
Definition isLowerAz (c : ascii) : bool := between 97 122 c.
Definition isUpperAz (c : ascii) : bool := between 65 90 c.

(** [[0-9a-fA-F]] *)
Definition isHexDigit (c : ascii) : bool :=
  isDigit c || between 97 102 c || between 65 70 c.

(** [[a-z0-9]] *)
Definition isSlugChar (c : ascii) : bool := isLowerAz c || isDigit c.

(** White space as [String.prototype.trim] sees it, within Latin-1:
    TAB, LF, VT, FF, CR, SPACE and NBSP. *)
Definition isWhiteSpace (c : ascii) : bool :=
  between 9 13 c || (code c =? 32)%nat || (code c =? 160)%nat.

(** [String.prototype.toLowerCase] on one Latin-1 character: [A-Z] and the
    accented capitals U+00C0..U+00DE (U+00D7 is the multiplication sign). *)
Definition lowerChar (c : ascii) : ascii :=
  if isUpperAz c || (between 192 222 c && negb (code c =? 215)%nat)
  then ascii_of_nat (code c + 32)
  else c.

Definition chars (s : string) : list ascii := list_ascii_of_string s.
Definition str (l : list ascii) : string := string_of_list_ascii l.

Definition toLowerCase (s : string) : string := str (map lowerChar (chars s)).

Fixpoint dropWhile {A} (f : A -> bool) (l : list A) : list A :=
  match l with
  | [] => []
  | x :: r => if f x then dropWhile f r else l
  end.

Definition trimStartL (l : list ascii) : list ascii := dropWhile isWhiteSpace l.
Definition trimEndL (l : list ascii) : list ascii := rev (dropWhile isWhiteSpace (rev l)).

(** [String.prototype.trim] *)
Definition trim (s : string) : string := str (trimEndL (trimStartL (chars s))).

(** JavaScript truthiness of a value that is a string or [undefined]. *)
Definition truthy (v : option string) : bool :=
  match v with
  | Some s => negb (s =? "")
  | None => false
  end.

(** [s.includes(sub)] *)
Definition includes (s sub : string) : bool :=
  match String.index 0 sub s with
  | Some _ => true
  | None => false
  end.

Definition digitVal (c : ascii) : Z := Z.of_nat (code c - 48).

Definition hexVal (c : ascii) : N :=
  if isDigit c then N.of_nat (code c - 48)
  else if between 97 102 c then N.of_nat (code c - 87)
  else N.of_nat (code c - 55).

(** The two lower-case hexadecimal digits of a byte, and the text that
    spells the bytes of a text of characters below 128 (its UTF-8
    encoding) in hexadecimal. *)
Definition hexDigit (n : nat) : ascii :=
  if (n <? 10)%nat then ascii_of_nat (48 + n) else ascii_of_nat (87 + n).

Definition toHex (s : string) : string :=
  str (flat_map (fun c => [hexDigit (code c / 16); hexDigit (code c mod 16)]) (chars s)).

(** The value of the longest prefix of decimal digits, [None] when the
    text does not start with a digit. *)
Fixpoint digitsPrefix (acc : option Z) (l : list ascii) : option Z * list ascii :=
  match l with
  | c :: r =>
      if isDigit c
      then digitsPrefix (Some (10 * match acc with Some a => a | None => 0 end + digitVal c)%Z) r
      else (acc, l)
  | [] => (acc, [])
  end.

Fixpoint hexPrefix (acc : option Z) (l : list ascii) : option Z :=
  match l with
  | c :: r =>
      if isHexDigit c
      then hexPrefix (Some (16 * match acc with Some a => a | None => 0 end + Z.of_N (hexVal c))%Z) r
      else acc
  | [] => acc
  end.

(** An optional sign in front of a numeral. *)
Definition splitSign (l : list ascii) : Z * list ascii :=
  match l with
  | "-"%char :: r => (-1, r)%Z
  | "+"%char :: r => (1, r)%Z
  | _ => (1%Z, l)
  end.

(** *** Numbers

    A Number is a double.  The integers among the Numbers are kept as
    [Z]; [roundDouble z] is the Number that an operation with the exact
    integer result [z] returns: [z] itself when 53 bits hold it, and the
    nearest integer with 53 significant bits otherwise, the one with the
    even significand on a tie. *)
Definition roundDouble (z : Z) : Z :=
  let a := Z.abs z in
  let e := (Z.log2 a - 52)%Z in
  if (e <=? 0)%Z then z
  else
    let q := (a / 2 ^ e)%Z in
    let r := (a mod 2 ^ e)%Z in
    let half := (2 ^ (e - 1))%Z in
    let q' := if (r <? half)%Z then q
              else if (half <? r)%Z then (q + 1)%Z
              else if Z.even q then q else (q + 1)%Z in
    (Z.sgn z * (q' * 2 ^ e))%Z.

(** 2^53: up to here every integer is a Number. *)
Definition maxExact : Z := 9007199254740992.

(** An exact integer that rounds to a finite Number: its magnitude is
    below 2^1024 - 2^970, half way between the largest double and 2^1024. *)
Definition roundsToFinite (z : Z) : bool := (Z.abs z <? 2 ^ 1024 - 2 ^ 970)%Z.

(** The Number for an exact integer; [None] is an infinity. *)
Definition toNumber (z : Z) : option Z :=
  if roundsToFinite z then Some (roundDouble z) else None.

(** The Number that a stored count is read as (the database holds
    integers that no double does), and [v + 1] on a Number that holds a
    count. *)
Definition number (v : N) : N := Z.to_N (roundDouble (Z.of_N v)).

Definition plusOne (v : N) : N := Z.to_N (roundDouble (Z.of_N v + 1)).

(** [parseInt(s)] without a radix: leading white space, an optional sign,
    then a [0x]/[0X] hexadecimal or a decimal prefix, rounded to a Number.
    [None] is [NaN] or an infinity. *)
Definition parseInt (s : string) : option Z :=
  let (sign, r) := splitSign (trimStartL (chars s)) in
  let digits :=
    match r with
    | "0"%char :: x :: h =>
        if ((x =? "x") || (x =? "X"))%char
        then hexPrefix None h
        else fst (digitsPrefix None r)
    | _ => fst (digitsPrefix None r)
    end in
  match digits with
  | Some n => toNumber (sign * n)
  | None => None
  end.

(** [Math.ceil(a / b)] for integers [0 <= a < 2^53] and [1 <= b], where
    the rounding of the quotient to a Number does not reach the next
    integer. *)
Definition ceilDiv (a b : Z) : Z := (- ((- a) / b))%Z.

(** [arr.findIndex(f)]: the first index whose element satisfies [f], or -1. *)
Fixpoint findIndex {A} (f : A -> bool) (l : list A) : Z :=
  match l with
  | [] => (-1)%Z
  | x :: r =>
      if f x then 0%Z
      else let i := findIndex f r in if (i <? 0)%Z then (-1)%Z else (i + 1)%Z
  end.

(** [arr.splice(i, 1)] for an index [0 <= i]. *)
Definition splice1 {A} (i : Z) (l : list A) : list A :=
  firstn (Z.to_nat i) l ++ skipn (S (Z.to_nat i)) l.

End Js.

(* ================================================================== *)
(** ** utils/validation.js and the express-validator checks *)
(* ================================================================== *)

Module Validation.

(** [isValidObjectId]: [/^[0-9a-fA-F]{24}$/.test(id)] *)
Definition isValidObjectId (id : string) : bool :=
  (String.length id =? 24)%nat && forallb Js.isHexDigit (Js.chars id).

(** validator.js [isMongoId]: 24 hexadecimal digits. *)
Definition isMongoId (v : string) : bool := isValidObjectId v.

Definition isIn (allowed : list string) (v : string) : bool :=
  existsb (String.eqb v) allowed.

(** validator.js [isInt({min, max})]: the text matches [/^[-+]?[0-9]+$/]
    and its value lies within the bounds that are given. *)
Definition isInt (min max : option Z) (v : string) : bool :=
  let (sign, r) := Js.splitSign (Js.chars v) in
  match Js.digitsPrefix None r with
  | (Some n, []) =>
      match min with Some lo => (lo <=? sign * n)%Z | None => true end
      && match max with Some hi => (sign * n <=? hi)%Z | None => true end
  | _ => false
  end.

End Validation.

(* ================================================================== *)
(** ** Shared data: object ids, dates, errors, users, categories *)
(* ================================================================== *)

(** An [ObjectId] is kept in the form its [toString()] has: 24 lower-case
    hexadecimal digits. *)
Definition ObjectId := string.

(** Milliseconds since the epoch. *)
Definition Date := N.

(** Mongoose's cast of a text to an [ObjectId]: a text of 12 characters
    is taken as the 12 bytes of the id when its UTF-8 encoding has 12
    bytes, that is when every character is below 128; otherwise the text
    has to be 24 hexadecimal digits.  [None] is a [CastError]. *)
Definition castObjectId (s : string) : option ObjectId :=
  if (String.length s =? 12)%nat
  then if forallb (fun c => (Js.code c <? 128)%nat) (Js.chars s)
       then Some (Js.toHex s)
       else None
  else if Validation.isValidObjectId s then Some (Js.toLowerCase s) else None.

(** A thrown JavaScript error, with the properties the handlers read. *)
Record JsError := mkError {
  err_name : string;
  err_message : string;
  err_status : option nat;
  err_code : option N;
  err_keyValue : list string;
  err_errors : list string
}.

Definition plainError (name message : string) : JsError :=
  mkError name message None None [] [].

Definition CastError : JsError := plainError "CastError" "Cast to ObjectId failed".

Definition ValidationError (messages : list string) : JsError :=
  mkError "ValidationError" "Validation failed" None None [] messages.

(** The driver's E11000 error for a unique index on [field]. *)
Definition DuplicateKey (field : string) : JsError :=
  mkError "MongoServerError" "E11000 duplicate key error" None (Some 11000%N) [field] [].

(** Sequencing of steps that may throw: the first error ends the block. *)
Definition andThen {A B} (m : JsError + A) (k : A -> JsError + B) : JsError + B :=
  match m with
  | inl error => inl error
  | inr a => k a
  end.

(** Modelled from the spec: [models/User.js] is not part of the sources at
    hand; a user is an identity with unique username and email, a role
    ([user] or [admin]) and an active flag.  The password hash is never
    selected by the code modelled here. *)
Record User := mkUser {
  user_id : ObjectId;
  username : string;
  email : string;
  role : string;
  isActive : bool
}.

(** [models/Category.js] *)
Record Category := mkCategory {
  category_id : ObjectId;
  category_name : string;
  category_description : option string;
  category_slug : option string;
  category_color : string;
  category_isActive : bool
}.

(** A response of the JSON API: the status code, the [message] and, on
    success, the [data] member. *)
Inductive Response (A : Type) : Type :=
| Json (status : nat) (message : string) (data : A)
| Failure (status : nat) (message : string) (errors : list string).

Arguments Json {A} status message data.
Arguments Failure {A} status message errors.

(* ================================================================== *)
(** ** models/Post.js *)
(* ================================================================== *)

Module PostModel.

Record Like := mkLike {
  like_user : ObjectId;
  like_createdAt : Date
}.

Record Comment := mkComment {
  comment_user : ObjectId;
  comment_content : string;
  comment_createdAt : Date
}.

(** The persisted document.  [status] is stored as text and checked
    against the schema's [enum] when the document is saved; [views] is
    the count as it is stored. *)
Record Post := mkPost {
  _id : ObjectId;
  title : string;
  content : string;
  author : ObjectId;
  category : option ObjectId;
  tags : list string;
  slug : option string;
  excerpt : option string;
  featuredImage : string;
  status : string;
  publishedAt : option Date;
  views : N;
  likes : list Like;
  comments : list Comment;
  createdAt : Date;
  updatedAt : Date
}.

Definition statusEnum : list string := ["draft"; "published"; "archived"].

(** *** Field updates *)

Definition with_title (v : string) (p : Post) : Post :=
  mkPost (_id p) v (content p) (author p) (category p) (tags p) (slug p) (excerpt p)
         (featuredImage p) (status p) (publishedAt p) (views p) (likes p) (comments p)
         (createdAt p) (updatedAt p).
Definition with_content (v : string) (p : Post) : Post :=
  mkPost (_id p) (title p) v (author p) (category p) (tags p) (slug p) (excerpt p)
         (featuredImage p) (status p) (publishedAt p) (views p) (likes p) (comments p)
         (createdAt p) (updatedAt p).
Definition with_category (v : option ObjectId) (p : Post) : Post :=
  mkPost (_id p) (title p) (content p) (author p) v (tags p) (slug p) (excerpt p)
         (featuredImage p) (status p) (publishedAt p) (views p) (likes p) (comments p)
         (createdAt p) (updatedAt p).
Definition with_tags (v : list string) (p : Post) : Post :=
  mkPost (_id p) (title p) (content p) (author p) (category p) v (slug p) (excerpt p)
         (featuredImage p) (status p) (publishedAt p) (views p) (likes p) (comments p)
         (createdAt p) (updatedAt p).
Definition with_slug (v : option string) (p : Post) : Post :=
  mkPost (_id p) (title p) (content p) (author p) (category p) (tags p) v (excerpt p)
         (featuredImage p) (status p) (publishedAt p) (views p) (likes p) (comments p)
         (createdAt p) (updatedAt p).
Definition with_excerpt (v : option string) (p : Post) : Post :=
  mkPost (_id p) (title p) (content p) (author p) (category p) (tags p) (slug p) v
         (featuredImage p) (status p) (publishedAt p) (views p) (likes p) (comments p)
         (createdAt p) (updatedAt p).
Definition with_featuredImage (v : string) (p : Post) : Post :=
  mkPost (_id p) (title p) (content p) (author p) (category p) (tags p) (slug p) (excerpt p)
         v (status p) (publishedAt p) (views p) (likes p) (comments p)
         (createdAt p) (updatedAt p).
Definition with_status (v : string) (p : Post) : Post :=
  mkPost (_id p) (title p) (content p) (author p) (category p) (tags p) (slug p) (excerpt p)
         (featuredImage p) v (publishedAt p) (views p) (likes p) (comments p)
         (createdAt p) (updatedAt p).
Definition with_publishedAt (v : option Date) (p : Post) : Post :=
  mkPost (_id p) (title p) (content p) (author p) (category p) (tags p) (slug p) (excerpt p)
         (featuredImage p) (status p) v (views p) (likes p) (comments p)
         (createdAt p) (updatedAt p).
Definition with_views (v : N) (p : Post) : Post :=
  mkPost (_id p) (title p) (content p) (author p) (category p) (tags p) (slug p) (excerpt p)
         (featuredImage p) (status p) (publishedAt p) v (likes p) (comments p)
         (createdAt p) (updatedAt p).
Definition with_likes (v : list Like) (p : Post) : Post :=
  mkPost (_id p) (title p) (content p) (author p) (category p) (tags p) (slug p) (excerpt p)
         (featuredImage p) (status p) (publishedAt p) (views p) v (comments p)
         (createdAt p) (updatedAt p).
Definition with_comments (v : list Comment) (p : Post) : Post :=
  mkPost (_id p) (title p) (content p) (author p) (category p) (tags p) (slug p) (excerpt p)
         (featuredImage p) (status p) (publishedAt p) (views p) (likes p) v
         (createdAt p) (updatedAt p).
Definition with_createdAt (v : Date) (p : Post) : Post :=
  mkPost (_id p) (title p) (content p) (author p) (category p) (tags p) (slug p) (excerpt p)
         (featuredImage p) (status p) (publishedAt p) (views p) (likes p) (comments p)
         v (updatedAt p).
Definition with_updatedAt (v : Date) (p : Post) : Post :=
  mkPost (_id p) (title p) (content p) (author p) (category p) (tags p) (slug p) (excerpt p)
         (featuredImage p) (status p) (publishedAt p) (views p) (likes p) (comments p)
         (createdAt p) v.

(** *** Virtuals and instance methods *)

(** [postSchema.virtual('likeCount')]: [this.likes.length] *)
Definition likeCount (p : Post) : nat := List.length (likes p).

(** [postSchema.virtual('commentCount')]: [this.comments.length] *)
Definition commentCount (p : Post) : nat := List.length (comments p).

(** [isLikedByUser]: [this.likes.some(like => like.user.toString() === userId.toString())] *)
Definition isLikedByUser (p : Post) (userId : ObjectId) : bool :=
  existsb (fun like => like_user like =? userId) (likes p).

(** *** Slug derivation *)

(** [.replace(/[^a-z0-9]+/g, '-')]: every maximal run of characters
    outside [a-z0-9] becomes one hyphen.  [inRun] tells that the previous
    character already belonged to such a run. *)
Fixpoint hyphenate (inRun : bool) (l : list ascii) : list ascii :=
  match l with
  | [] => []
  | c :: r =>
      if Js.isSlugChar c then c :: hyphenate false r
      else if inRun then hyphenate true r
      else "-"%char :: hyphenate true r
  end.

Definition dropLeadingHyphen (l : list ascii) : list ascii :=
  match l with
  | "-"%char :: r => r
  | _ => l
  end.

(** [.replace(/(^-|-$)/g, '')]: one hyphen at the start and one at the
    end are removed. *)
Definition stripHyphens (l : list ascii) : list ascii :=
  rev (dropLeadingHyphen (rev (dropLeadingHyphen l))).

(** [this.title.toLowerCase().replace(/[^a-z0-9]+/g, '-').replace(/(^-|-$)/g, '')] *)
Definition slugify (t : string) : string :=
  Js.str (stripHyphens (hyphenate false (Js.chars (Js.toLowerCase t)))).

(** The alphabet of a slug: [a-z], [0-9] and the hyphen. *)
Definition slugOrHyphen (c : ascii) : bool := Js.isSlugChar c || (c =? "-")%char.

(** The setters the schema declares for [slug] ([lowercase], [trim]);
    Mongoose applies them to assigned values and to filter values. *)
Definition slugSetter (s : string) : string := Js.trim (Js.toLowerCase s).

(** The setters of one tag ([trim], [lowercase]). *)
Definition tagSetter (s : string) : string := Js.toLowerCase (Js.trim s).

(** *** Documents in memory

    A Mongoose document remembers whether it is new and which paths were
    modified since it was loaded; [isModified] in the hook reads that. *)

Inductive Path : Set :=
| P_title | P_content | P_category | P_tags | P_slug | P_excerpt
| P_featuredImage | P_status | P_publishedAt | P_views | P_likes | P_comments.

Definition Path_eqb (a b : Path) : bool :=
  match a, b with
  | P_title, P_title | P_content, P_content | P_category, P_category
  | P_tags, P_tags | P_slug, P_slug | P_excerpt, P_excerpt
  | P_featuredImage, P_featuredImage | P_status, P_status
  | P_publishedAt, P_publishedAt | P_views, P_views | P_likes, P_likes
  | P_comments, P_comments => true
  | _, _ => false
  end.

Record Document := mkDoc {
  fields : Post;
  isNew : bool;
  modifiedPaths : list Path
}.

Definition isModified (path : Path) (d : Document) : bool :=
  existsb (Path_eqb path) (modifiedPaths d).

(** A document as a query returns it. *)
Definition hydrate (p : Post) : Document := mkDoc p false [].

(** Assignment to a path: on a new document every assigned path counts
    as modified, on a loaded one only a value that differs from the
    current one does. *)
Definition assign (path : Path) (differs : bool) (f : Post -> Post) (d : Document) : Document :=
  if isNew d || differs
  then mkDoc (f (fields d)) (isNew d) (path :: modifiedPaths d)
  else d.

Definition optEqb (a b : option string) : bool :=
  match a, b with
  | Some x, Some y => x =? y
  | None, None => true
  | _, _ => false
  end.

Fixpoint listEqb (a b : list string) : bool :=
  match a, b with
  | [], [] => true
  | x :: a', y :: b' => (x =? y) && listEqb a' b'
  | _, _ => false
  end.

Definition set_title (v : string) (d : Document) : Document :=
  let v' := Js.trim v in
  assign P_title (negb (v' =? title (fields d))) (with_title v') d.

Definition set_content (v : string) (d : Document) : Document :=
  assign P_content (negb (v =? content (fields d))) (with_content v) d.

Definition set_category (v : option ObjectId) (d : Document) : Document :=
  assign P_category (negb (optEqb v (category (fields d)))) (with_category v) d.

Definition set_tags (v : list string) (d : Document) : Document :=
  let v' := map tagSetter v in
  assign P_tags (negb (listEqb v' (tags (fields d)))) (with_tags v') d.

Definition set_slug (v : string) (d : Document) : Document :=
  let v' := Some (slugSetter v) in
  assign P_slug (negb (optEqb v' (slug (fields d)))) (with_slug v') d.

Definition set_excerpt (v : string) (d : Document) : Document :=
  assign P_excerpt (negb (optEqb (Some v) (excerpt (fields d)))) (with_excerpt (Some v)) d.

Definition set_featuredImage (v : string) (d : Document) : Document :=
  assign P_featuredImage (negb (v =? featuredImage (fields d))) (with_featuredImage v) d.

Definition set_status (v : string) (d : Document) : Document :=
  assign P_status (negb (v =? status (fields d))) (with_status v) d.

Definition set_publishedAt (v : Date) (d : Document) : Document :=
  assign P_publishedAt
         (match publishedAt (fields d) with Some w => negb (N.eqb v w) | None => true end)
         (with_publishedAt (Some v)) d.

(** The document holds the Number its [views] were read as. *)
Definition set_views (v : N) (d : Document) : Document :=
  assign P_views (negb (N.eqb v (Js.number (views (fields d))))) (with_views v) d.

(** [splice] and [push] on an embedded array always mark it modified. *)
Definition set_likes (v : list Like) (d : Document) : Document :=
  assign P_likes true (with_likes v) d.

Definition set_comments (v : list Comment) (d : Document) : Document :=
  assign P_comments true (with_comments v) d.

(** *** Schema validation, run by [save] before the hooks

    Each path contributes the message of its first failing validator.
    Every path is checked, those a loaded document did not modify too. *)

Definition titleError (t : string) : list string :=
  if t =? "" then ["Title is required"]
  else if (String.length t <? 5)%nat then ["Title must be at least 5 characters long"]
  else if (100 <? String.length t)%nat then ["Title must be less than 100 characters"]
  else [].

Definition contentError (c : string) : list string :=
  if c =? "" then ["Content is required"]
  else if (String.length c <? 10)%nat then ["Content must be at least 10 characters long"]
  else if (5000 <? String.length c)%nat then ["Content must be less than 5000 characters"]
  else [].

Definition excerptError (e : option string) : list string :=
  match e with
  | Some s => if (200 <? String.length s)%nat
              then ["Excerpt must be less than 200 characters"] else []
  | None => []
  end.

Definition statusError (s : string) : list string :=
  if Validation.isIn statusEnum s then []
  else ["`" ++ s ++ "` is not a valid enum value for path `status`."].

Definition commentError (c : Comment) : list string :=
  if comment_content c =? "" then ["Path `content` is required."]
  else if (500 <? String.length (comment_content c))%nat
       then ["Comment must be less than 500 characters"]
       else [].

Definition validateSync (d : Document) : list string :=
  let p := fields d in
  (titleError (title p)
   ++ contentError (content p)
   ++ excerptError (excerpt p)
   ++ statusError (status p)
   ++ flat_map commentError (comments p))%list.

(** [timestamps: true] *)
Definition timestamps (now : Date) (d : Document) : Document :=
  if isNew d
  then mkDoc (with_updatedAt now (with_createdAt now (fields d))) true (modifiedPaths d)
  else match modifiedPaths d with
       | [] => d
       | _ => mkDoc (with_updatedAt now (fields d)) false (modifiedPaths d)
       end.

(** [!this.slug]: the slug is absent or empty. *)
Definition noSlug (p : Post) : bool := negb (Js.truthy (slug p)).

(** [postSchema.pre('save', ...)] *)
Definition preSave (now : Date) (d : Document) : Document :=
  let d1 :=
    if isModified P_title d && noSlug (fields d)
    then set_slug (slugify (title (fields d))) d
    else d in
  if isModified P_status d1 && (status (fields d1) =? "published")
     && match publishedAt (fields d1) with Some _ => false | None => true end
  then set_publishedAt now d1
  else d1.

(** The unique index on [slug]: another document holds the same value
    (a missing slug is indexed as null). *)
Definition slugTaken (p : Post) (coll : list Post) : bool :=
  existsb (fun q => negb (_id q =? _id p) && optEqb (slug q) (slug p)) coll.

Definition replaceById (p : Post) (coll : list Post) : list Post :=
  map (fun q => if _id q =? _id p then p else q) coll.

(** [doc.save()]: validation, time stamps, the [pre('save')] hook, then
    the write (an insert for a new document, an update of the modified
    paths of the stored one otherwise).  The result is the document as
    the caller holds it afterwards and the collection, or the error
    thrown, in which case nothing was written. *)
Definition save (now : Date) (d : Document) (coll : list Post)
  : JsError + (Post * list Post) :=
  match validateSync d with
  | e :: es => inl (ValidationError (e :: es))
  | [] =>
      let d' := preSave now (timestamps now d) in
      let p := fields d' in
      if isNew d' then
        if existsb (fun q => _id q =? _id p) coll then inl (DuplicateKey "_id")
        else if slugTaken p coll then inl (DuplicateKey "slug")
        else inr (p, (coll ++ [p])%list)
      else
        match modifiedPaths d' with
        | [] => inr (p, coll)
        | _ :: _ =>
            if isModified P_slug d' && slugTaken p coll then inl (DuplicateKey "slug")
            else inr (p, replaceById p coll)
        end
  end.

(** [Post.findById(id)] for an id that was checked by [isValidObjectId]. *)
Definition findById (id : ObjectId) (coll : list Post) : option Post :=
  find (fun q => _id q =? id) coll.

End PostModel.

(* ================================================================== *)
(** ** middleware/errorHandler.js *)
(* ================================================================== *)

Module ErrorHandler.

(** [error.code === n] *)
Definition codeIs (n : N) (error : JsError) : bool :=
  match err_code error with
  | Some c => N.eqb c n
  | None => false
  end.

(** [errorHandler], the response it sends for an error a handler threw
    (the stack trace of the development configuration is left out). *)
Definition errorHandler {A} (error : JsError) : Response A :=
  let statusCode :=
    match err_status error with
    | Some (S n) => S n
    | _ => 500
    end in
  let message :=
    if err_message error =? "" then "Internal Server Error" else err_message error in
  if err_name error =? "ValidationError"
  then Failure 400 "Validation Error" (err_errors error)
  else
    let '(statusCode, message) :=
      if err_name error =? "CastError" then (400, "Invalid ID format")
      else (statusCode, message) in
    let '(statusCode, message) :=
      if codeIs 11000 error
      then (400, match err_keyValue error with
                 | field :: _ => field
                 | [] => "undefined"
                 end ++ " already exists")
      else (statusCode, message) in
    let '(statusCode, message) :=
      if err_name error =? "JsonWebTokenError" then (401, "Invalid token")
      else (statusCode, message) in
    let '(statusCode, message) :=
      if err_name error =? "TokenExpiredError" then (401, "Token expired")
      else (statusCode, message) in
    let '(statusCode, message) :=
      if err_name error =? "MongoNetworkError" then (503, "Database connection error")
      else (statusCode, message) in
    let statusCode :=
      if Js.includes (err_message error) "Too many requests" then 429 else statusCode in
    Failure statusCode message [].

End ErrorHandler.

(* ================================================================== *)
(** ** middleware/auth.js *)
(* ================================================================== *)

Module Auth.

(** The decoded payload of a session token. *)
Record Claims := mkClaims {
  claim_id : string;
  claim_username : string;
  claim_email : string;
  claim_role : string
}.

(** Modelled from the spec: [utils/auth.js] is not part of the sources at
    hand.  [extractTokenFromHeader] parses a ["Bearer <token>"] value and
    returns null, not an error, for a missing or malformed header; the
    token is everything after the seven characters of the prefix. *)
Definition extractTokenFromHeader (authHeader : option string) : option string :=
  match authHeader with
  | Some h =>
      if String.prefix "Bearer " h
      then Some (String.substring 7 (String.length h - 7) h)
      else None
  | None => None
  end.

(** What a middleware does with a request: hand it on, with the identity
    it attached if any, or answer it. *)
Inductive Outcome : Type :=
| Next (reqUser : option User)
| Respond (status : nat) (message : string).

Section Middleware.

(** [verifyToken] of [utils/auth.js]: the claims of a token whose
    signature and expiry are good, or the error it throws. *)
Variable verifyToken : string -> JsError + Claims.

(** The users collection. *)
Variable users : list User.

(** [User.findById(id).select('-password')] *)
Definition findUserById (id : string) : JsError + option User :=
  match castObjectId id with
  | Some oid => inr (find (fun u => user_id u =? oid) users)
  | None => inl CastError
  end.

Definition tokenText (token : option string) : string :=
  match token with
  | Some t => t
  | None => ""
  end.

(** The [try] block of [authenticate]. *)
Definition authenticateTry (authorization : option string) : JsError + Outcome :=
  let token := extractTokenFromHeader authorization in
  if negb (Js.truthy token)
  then inr (Respond 401 "Access token is required")
  else
    andThen (verifyToken (tokenText token)) (fun decoded =>
    andThen (findUserById (claim_id decoded)) (fun user =>
    match user with
    | None => inr (Respond 401 "User not found")
    | Some u =>
        if negb (isActive u)
        then inr (Respond 401 "User account is deactivated")
        else inr (Next (Some u))
    end)).

(** The [catch] block of [authenticate]. *)
Definition authenticateCatch (error : JsError) : Outcome :=
  if (err_message error =? "Invalid token") || (err_name error =? "JsonWebTokenError")
  then Respond 401 "Invalid access token"
  else if err_name error =? "TokenExpiredError"
  then Respond 401 "Access token has expired"
  else Respond 500 "Internal server error during authentication".

(** [authenticate] *)
Definition authenticate (authorization : option string) : Outcome :=
  match authenticateTry authorization with
  | inr outcome => outcome
  | inl error => authenticateCatch error
  end.

(** The [try] block of [optionalAuth]: the identity to attach, if any,
    before [next()] is called. *)
Definition optionalAuthTry (authorization : option string) : JsError + option User :=
  let token := extractTokenFromHeader authorization in
  if Js.truthy token
  then
    andThen (verifyToken (tokenText token)) (fun decoded =>
    andThen (findUserById (claim_id decoded)) (fun user =>
    match user with
    | Some u => if isActive u then inr (Some u) else inr None
    | None => inr None
    end))
  else inr None.

(** [optionalAuth]: the [catch] block calls [next()] as well. *)
Definition optionalAuth (authorization : option string) : Outcome :=
  match optionalAuthTry authorization with
  | inr reqUser => Next reqUser
  | inl _ => Next None
  end.

(** [authorize(roles)], run on the identity [authenticate] attached. *)
Definition authorize (roles : list string) (reqUser : option User) : Outcome :=
  match reqUser with
  | None => Respond 401 "Authentication required"
  | Some user =>
      if negb (Nat.eqb (List.length roles) 0) && negb (existsb (String.eqb (role user)) roles)
      then Respond 403 "Insufficient permissions"
      else Next (Some user)
  end.

End Middleware.

End Auth.

(* ================================================================== *)
(** ** controllers/postController.js *)
(* ================================================================== *)

Module PostController.

Import PostModel.
Import ErrorHandler.

(** [req.query] of [GET /api/posts]; an absent parameter is [None]. *)
Record PostsQuery := mkQuery {
  q_page : option string;
  q_limit : option string;
  q_status : option string;
  q_category : option string;
  q_author : option string;
  q_search : option string;
  q_sortBy : option string;
  q_sortOrder : option string
}.

(** [req.body] of [POST /api/posts] and [PUT /api/posts/:id]. *)
Record PostBody := mkBody {
  b_title : option string;
  b_content : option string;
  b_category : option string;
  b_tags : option (list string);
  b_excerpt : option string;
  b_featuredImage : option string;
  b_status : option string
}.

Record Pagination := mkPagination {
  currentPage : Z;
  totalPages : Z;
  totalPosts : Z;
  hasNextPage : bool;
  hasPrevPage : bool;
  limit : Z
}.

Record PostsPage := mkPage {
  posts : list Post;
  pagination : Pagination
}.

Record LikeData := mkLikeData {
  data_likeCount : nat;
  data_isLiked : bool
}.

(** The filter object handed to [Post.find]; [f_or] is the compiled
    search expression of the [$or] clause. *)
Record Filter := mkFilter {
  f_status : option string;
  f_category : option ObjectId;
  f_author : option ObjectId;
  f_or : option (string -> bool)
}.

Definition text (v : option string) : string :=
  match v with
  | Some s => s
  | None => ""
  end.

(** [!req.user || req.user.role !== 'admin'] *)
Definition notAdmin (reqUser : option User) : bool :=
  match reqUser with
  | None => true
  | Some u => negb (role u =? "admin")
  end.

(** Whether a document satisfies a filter. *)
Definition matches (query : Filter) (p : Post) : bool :=
  match f_status query with Some s => status p =? s | None => true end
  && match f_category query with Some c => optEqb (category p) (Some c) | None => true end
  && match f_author query with Some a => author p =? a | None => true end
  && match f_or query with
     | Some test => test (title p) || test (content p) || existsb test (tags p)
     | None => true
     end.

(** *** Ordering of a result set *)

Definition compareOptDate (a b : option Date) : comparison :=
  match a, b with
  | None, None => Eq
  | None, Some _ => Lt
  | Some _, None => Gt
  | Some x, Some y => N.compare x y
  end.

(** The order of two documents on one of the fields the route admits. *)
Definition compareField (sortBy : string) (a b : Post) : comparison :=
  if sortBy =? "createdAt" then N.compare (createdAt a) (createdAt b)
  else if sortBy =? "updatedAt" then N.compare (updatedAt a) (updatedAt b)
  else if sortBy =? "title" then String.compare (title a) (title b)
  else if sortBy =? "views" then N.compare (views a) (views b)
  else if sortBy =? "publishedAt" then compareOptDate (publishedAt a) (publishedAt b)
  else Eq.

Definition goesBefore (sortBy : string) (direction : Z) (a b : Post) : bool :=
  match compareField sortBy a b with
  | Eq => true
  | Lt => (0 <? direction)%Z
  | Gt => (direction <? 0)%Z
  end.

Fixpoint insertBy (before : Post -> Post -> bool) (x : Post) (l : list Post) : list Post :=
  match l with
  | [] => [x]
  | y :: r => if before x y then x :: l else y :: insertBy before x r
  end.

(** [.sort({[sortBy]: direction})]; documents with equal keys keep the
    order of the collection. *)
Definition sortDocs (sortBy : string) (direction : Z) (l : list Post) : list Post :=
  fold_right (insertBy (goesBefore sortBy direction)) [] l.

Section Collaborators.

(** The categories collection, which this controller only reads. *)
Variable categories : list Category.

(** [new RegExp(pattern, 'i')]: the case-insensitive test of a pattern,
    or the [SyntaxError] of a pattern that does not compile. *)
Variable compileRegExp : string -> JsError + (string -> bool).

(** [Category.findById(id)] *)
Definition findCategoryById (id : string) : option Category :=
  match castObjectId id with
  | Some oid => find (fun c => category_id c =? oid) categories
  | None => None
  end.

(** The "Build query" part of [getPosts]. *)
Definition buildQuery (reqUser : option User) (q : PostsQuery) : JsError + Filter :=
  let status :=
    if Js.truthy (q_status q) then q_status q
    else if notAdmin reqUser then Some "published"
    else None in
  let category :=
    if Js.truthy (q_category q) && Validation.isValidObjectId (text (q_category q))
    then castObjectId (text (q_category q)) else None in
  let author :=
    if Js.truthy (q_author q) && Validation.isValidObjectId (text (q_author q))
    then castObjectId (text (q_author q)) else None in
  if Js.truthy (q_search q)
  then andThen (compileRegExp (text (q_search q)))
               (fun test => inr (mkFilter status category author (Some test)))
  else inr (mkFilter status category author None).

(** [getPosts].  [page] and [limit] default to 1 and 10.  The answer is
    [None] where the request leaves what is modelled here: with a page or
    a limit that is not a positive integer, or with a skip or a number of
    matches of 2^53 or more, it is the database driver that decides, or
    the arithmetic on Numbers is no longer exact. *)
Definition getPosts (reqUser : option User) (q : PostsQuery) (coll : list Post)
  : option (Response PostsPage) :=
  match buildQuery reqUser q with
  | inl error => Some (errorHandler error)
  | inr query =>
      let page := match q_page q with Some s => Js.parseInt s | None => Some 1%Z end in
      let limit := match q_limit q with Some s => Js.parseInt s | None => Some 10%Z end in
      let sortBy := match q_sortBy q with Some s => s | None => "createdAt" end in
      let sortOrder := match q_sortOrder q with Some s => s | None => "desc" end in
      match page, limit with
      | Some page, Some limit =>
          let skip := ((page - 1) * limit)%Z in
          let direction := if sortOrder =? "desc" then (-1)%Z else 1%Z in
          let found := filter (matches query) coll in
          let total := Z.of_nat (List.length found) in
          if ((1 <=? page) && (1 <=? limit)
              && (skip <? Js.maxExact) && (total <? Js.maxExact))%Z then
            let posts :=
              firstn (Z.to_nat limit)
                     (skipn (Z.to_nat skip) (sortDocs sortBy direction found)) in
            let totalPages := Js.ceilDiv total limit in
            let hasNextPage := (page <? totalPages)%Z in
            let hasPrevPage := (1 <? page)%Z in
            Some (Json 200 ""
                       (mkPage posts
                               (mkPagination page totalPages total hasNextPage hasPrevPage
                                             limit)))
          else None
      | _, _ => None
      end
  end.

(** The filter of [getPost]: by id when the identifier has the shape
    of one, by slug otherwise, restricted to published posts unless
    the requester is an admin. *)
Definition getPostQuery (reqUser : option User) (identifier : string) (p : Post) : bool :=
  (if Validation.isValidObjectId identifier
   then _id p =? Js.toLowerCase identifier
   else optEqb (slug p) (Some (slugSetter identifier)))
  && (if notAdmin reqUser then status p =? "published" else true).

(** [getPost]; [post.views += 1] reads a Number and adds to it. *)
Definition getPost (now : Date) (reqUser : option User) (identifier : string)
           (coll : list Post) : Response Post * list Post :=
  match find (getPostQuery reqUser identifier) coll with
  | None => (Failure 404 "Post not found" [], coll)
  | Some post =>
      match save now (set_views (Js.plusOne (Js.number (views post))) (hydrate post)) coll with
      | inl error => (errorHandler error, coll)
      | inr (post', coll') => (Json 200 "" post', coll')
      end
  end.

(** A fresh document with the schema's defaults, as [new Post] starts. *)
Definition newPost (id : ObjectId) (authorId : ObjectId) : Document :=
  mkDoc (mkPost id "" "" authorId None [] None None "" "draft" None 0%N [] [] 0%N 0%N) true [].

Definition setIfDefined {A} (set : A -> Document -> Document) (v : option A)
           (d : Document) : Document :=
  match v with
  | Some x => set x d
  | None => d
  end.

(** [createPost]; [newId] is the id the driver generates for the
    document. *)
Definition createPost (now : Date) (newId : ObjectId) (user : User) (body : PostBody)
           (coll : list Post) : Response Post * list Post :=
  if negb (Js.truthy (b_title body)) || negb (Js.truthy (b_content body))
  then (Failure 400 "Title and content are required" [], coll)
  else if Js.truthy (b_category body)
          && negb (Validation.isValidObjectId (text (b_category body)))
  then (Failure 400 "Invalid category ID" [], coll)
  else if Js.truthy (b_category body)
          && match findCategoryById (text (b_category body)) with
             | Some _ => false
             | None => true
             end
  then (Failure 400 "Category not found" [], coll)
  else
    let post :=
      set_status (if Js.truthy (b_status body) then text (b_status body) else "draft")
      (setIfDefined set_featuredImage (b_featuredImage body)
      (setIfDefined set_excerpt (b_excerpt body)
      (set_tags (match b_tags body with Some t => t | None => [] end)
      (set_category (if Js.truthy (b_category body)
                     then castObjectId (text (b_category body)) else None)
      (set_content (text (b_content body))
      (set_title (text (b_title body))
      (newPost newId (user_id user)))))))) in
    match save now post coll with
    | inl error => (errorHandler error, coll)
    | inr (post', coll') => (Json 201 "Post created successfully" post', coll')
    end.

(** The "Update fields" part of [updatePost].  A category that reaches
    the assignment was either checked by [isValidObjectId] or equals
    the stored id, so its cast succeeds. *)
Definition updateFields (body : PostBody) (post : Document) : Document :=
  let post := if Js.truthy (b_title body) then set_title (text (b_title body)) post else post in
  let post := if Js.truthy (b_content body) then set_content (text (b_content body)) post
              else post in
  let post := match b_category body with
              | Some c => set_category (if c =? "" then None else castObjectId c) post
              | None => post
              end in
  let post := setIfDefined set_tags (b_tags body) post in
  let post := setIfDefined set_excerpt (b_excerpt body) post in
  let post := setIfDefined set_featuredImage (b_featuredImage body) post in
  if Js.truthy (b_status body) then set_status (text (b_status body)) post else post.

(** [updatePost] *)
Definition updatePost (now : Date) (user : User) (id : string) (body : PostBody)
           (coll : list Post) : Response Post * list Post :=
  if negb (Validation.isValidObjectId id)
  then (Failure 400 "Invalid post ID" [], coll)
  else
    match findById (Js.toLowerCase id) coll with
    | None => (Failure 404 "Post not found" [], coll)
    | Some post =>
        if negb (author post =? user_id user) && negb (role user =? "admin")
        then (Failure 403 "Not authorized to update this post" [], coll)
        else if Js.truthy (b_category body)
                && negb (optEqb (b_category body) (category post))
                && negb (Validation.isValidObjectId (text (b_category body)))
        then (Failure 400 "Invalid category ID" [], coll)
        else if Js.truthy (b_category body)
                && negb (optEqb (b_category body) (category post))
                && match findCategoryById (text (b_category body)) with
                   | Some _ => false
                   | None => true
                   end
        then (Failure 400 "Category not found" [], coll)
        else
          match save now (updateFields body (hydrate post)) coll with
          | inl error => (errorHandler error, coll)
          | inr (post', coll') => (Json 200 "Post updated successfully" post', coll')
          end
    end.

(** [deletePost] *)
Definition deletePost (user : User) (id : string) (coll : list Post)
  : Response unit * list Post :=
  if negb (Validation.isValidObjectId id)
  then (Failure 400 "Invalid post ID" [], coll)
  else
    match findById (Js.toLowerCase id) coll with
    | None => (Failure 404 "Post not found" [], coll)
    | Some post =>
        if negb (author post =? user_id user) && negb (role user =? "admin")
        then (Failure 403 "Not authorized to delete this post" [], coll)
        else (Json 200 "Post deleted successfully" tt,
              filter (fun q => negb (_id q =? Js.toLowerCase id)) coll)
    end.

(** [toggleLike] *)
Definition toggleLike (now : Date) (user : User) (id : string) (coll : list Post)
  : Response LikeData * list Post :=
  if negb (Validation.isValidObjectId id)
  then (Failure 400 "Invalid post ID" [], coll)
  else
    match findById (Js.toLowerCase id) coll with
    | None => (Failure 404 "Post not found" [], coll)
    | Some post =>
        let userId := user_id user in
        let likeIndex := Js.findIndex (fun like => like_user like =? userId) (likes post) in
        let '(likes', message) :=
          if (-1 <? likeIndex)%Z
          then (Js.splice1 likeIndex (likes post), "Post unliked")
          else ((likes post ++ [mkLike userId now])%list, "Post liked") in
        match save now (set_likes likes' (hydrate post)) coll with
        | inl error => (errorHandler error, coll)
        | inr (post', coll') =>
            (Json 200 message
                  (mkLikeData (List.length (likes post')) (likeIndex =? -1)%Z),
             coll')
        end
    end.

(** [addComment]; the response carries the last comment of the post. *)
Definition addComment (now : Date) (user : User) (id : string) (content : option string)
           (coll : list Post) : Response (option Comment) * list Post :=
  if negb (Js.truthy content) || (String.length (Js.trim (text content)) =? 0)%nat
  then (Failure 400 "Comment content is required" [], coll)
  else if negb (Validation.isValidObjectId id)
  then (Failure 400 "Invalid post ID" [], coll)
  else
    match findById (Js.toLowerCase id) coll with
    | None => (Failure 404 "Post not found" [], coll)
    | Some post =>
        let comment := mkComment (user_id user) (Js.trim (text content)) now in
        match save now (set_comments (comments post ++ [comment])%list (hydrate post)) coll with
        | inl error => (errorHandler error, coll)
        | inr (post', coll') =>
            (Json 201 "Comment added successfully" (last (map Some (comments post')) None),
             coll')
        end
    end.

End Collaborators.

End PostController.

(* ================================================================== *)
(** ** routes/posts.js *)
(* ================================================================== *)

Module PostRoutes.

Import PostController.

(** A chain [query(name).optional().check().withMessage(message)]. *)
Definition optional (check : string -> bool) (message : string) (v : option string)
  : list string :=
  match v with
  | Some s => if check s then [] else [message]
  | None => []
  end.

(** [getPostsValidation] *)
Definition getPostsValidation (q : PostsQuery) : list string :=
  (optional (Validation.isInt (Some 1%Z) None) "Page must be a positive integer" (q_page q)
   ++ optional (Validation.isInt (Some 1%Z) (Some 100%Z)) "Limit must be between 1 and 100"
               (q_limit q)
   ++ optional (Validation.isIn ["draft"; "published"; "archived"])
               "Status must be draft, published, or archived" (q_status q)
   ++ optional Validation.isMongoId "Invalid category ID" (q_category q)
   ++ optional Validation.isMongoId "Invalid author ID" (q_author q)
   ++ optional (Validation.isIn ["createdAt"; "updatedAt"; "title"; "views"; "publishedAt"])
               "Invalid sort field" (q_sortBy q)
   ++ optional (Validation.isIn ["asc"; "desc"]) "Sort order must be asc or desc"
               (q_sortOrder q))%list.

(** Modelled from the spec: [middleware/validation.js] is not part of the
    sources at hand.  [validate] reports a [ValidationError] to the
    caller, status 400 with the field-level messages, when a check of the
    chain before it failed, and hands the request on otherwise ([next] is
    the answer of the handlers behind it). *)
Definition validate {A} (errors : list string) (next : option (Response A))
  : option (Response A) :=
  match errors with
  | [] => next
  | _ :: _ => Some (Failure 400 "Validation failed" errors)
  end.

Section Routes.

Variable verifyToken : string -> JsError + Auth.Claims.
Variable users : list User.
Variable compileRegExp : string -> JsError + (string -> bool).

(** [router.get('/', getPostsValidation, validate, optionalAuth, getPosts)] *)
Definition getPostsRoute (authorization : option string) (q : PostsQuery)
           (coll : list PostModel.Post) : option (Response PostsPage) :=
  validate (getPostsValidation q)
           (match Auth.optionalAuth verifyToken users authorization with
            | Auth.Next reqUser => getPosts compileRegExp reqUser q coll
            | Auth.Respond status message => Some (Failure status message [])
            end).

(** [router.get('/:identifier', optionalAuth, getPost)] *)
Definition getPostRoute (now : Date) (authorization : option string) (identifier : string)
           (coll : list PostModel.Post) : Response PostModel.Post * list PostModel.Post :=
  match Auth.optionalAuth verifyToken users authorization with
  | Auth.Next reqUser => getPost now reqUser identifier coll
  | Auth.Respond status message => (Failure status message [], coll)
  end.

End Routes.

End PostRoutes.

(* ================================================================== *)
(** ** The posts collection over time *)
(* ================================================================== *)

Module Lifecycle.

Import PostModel.
Import PostController.

(** One request served by the post controller takes the collection from
    one state to the next. *)
Inductive step (coll : list Post) : list Post -> Prop :=
| step_getPost now reqUser identifier :
    step coll (snd (getPost now reqUser identifier coll))
| step_createPost categories now newId user body :
    step coll (snd (createPost categories now newId user body coll))
| step_updatePost categories now user id body :
    step coll (snd (updatePost categories now user id body coll))
| step_deletePost user id :
    step coll (snd (deletePost user id coll))
| step_toggleLike now user id :
    step coll (snd (toggleLike now user id coll))
| step_addComment now user id content :
    step coll (snd (addComment now user id content coll)).

(** The states the collection can be in, starting empty. *)
Inductive reachable : list Post -> Prop :=
| reachable_empty : reachable []
| reachable_step coll coll' : reachable coll -> step coll coll' -> reachable coll'.

(** A user has at most one entry in the likes of a post. *)
Definition oneLikePerUser (p : Post) : Prop := NoDup (map like_user (likes p)).

(** The likes of a post after a toggle by [uid] at time [now], as
    [toggleLike] computes them. *)
Definition toggled (now : Date) (uid : ObjectId) (l : list Like) : list Like :=
  if (-1 <? Js.findIndex (fun like => (like_user like =? uid)%string) l)%Z
  then Js.splice1 (Js.findIndex (fun like => (like_user like =? uid)%string) l) l
  else (l ++ [mkLike uid now])%list.

(** [p'] is the next version of the stored document [post]: the same
    id, the same slug if there was one, and no second like of a user. *)
Definition evolves (post p' : Post) : Prop :=
  _id p' = _id post
  /\ (Js.truthy (slug post) = true -> slug p' = slug post)
  /\ (oneLikePerUser post -> oneLikePerUser p').

(** [p'] is a document as [createPost] stores it. *)
Definition born (p' : Post) : Prop :=
  slug p' = Some (slugify (title p')) /\ likes p' = [] /\ comments p' = [].

End Lifecycle.

(* ================================================================== *)
(** ** Sample data *)
(* ================================================================== *)

Module Sample.

Import PostModel.
Import PostController.

Definition alice : User := mkUser "aaaaaaaaaaaaaaaaaaaaaaaa" "alice" "alice@example.com" "user" true.
Definition bob : User := mkUser "bbbbbbbbbbbbbbbbbbbbbbbb" "bob" "bob@example.com" "user" true.
Definition carol : User := mkUser "cccccccccccccccccccccccc" "carol" "carol@example.com" "admin" true.
Definition dave : User := mkUser "dddddddddddddddddddddddd" "dave" "dave@example.com" "user" false.

Definition users : list User := [alice; bob; carol; dave].

Definition id1 : ObjectId := "000000000000000000000001".
Definition id2 : ObjectId := "000000000000000000000002".

Definition emptyQuery : PostsQuery := mkQuery None None None None None None None None.

(** A draft written by alice. *)
Definition draft1 : Post :=
  mkPost id1 "Hello World" "0123456789" (user_id alice) None [] (Some "hello-world") None ""
         "draft" None 0%N [] [] 100%N 100%N.

(** Two published posts. *)
Definition published1 : Post :=
  mkPost id1 "Hello World" "0123456789" (user_id alice) None [] (Some "hello-world") None ""
         "published" (Some 300%N) 0%N [] [] 100%N 300%N.
Definition published2 : Post :=
  mkPost id2 "Second post" "9876543210" (user_id bob) None [] (Some "second-post") None ""
         "published" (Some 400%N) 0%N [] [] 400%N 400%N.

Definition helloBody : PostBody :=
  mkBody (Some "Hello World") (Some "0123456789") None None None None None.
Definition punctuationBody : PostBody :=
  mkBody (Some "!!!!!") (Some "0123456789") None None None None None.
Definition retitleBody : PostBody :=
  mkBody (Some "Second title") None None None None None None.
Definition publishBody : PostBody :=
  mkBody None None None None None None (Some "published").

(** What the post of [punctuationBody] looks like when alice creates it
    at time 600, and after she retitles it at time 700. *)
Definition punctuated : Post :=
  mkPost id2 "!!!!!" "0123456789" (user_id alice) None [] (Some "") None ""
         "draft" None 0%N [] [] 600%N 600%N.
Definition punctuatedRetitled : Post :=
  mkPost id2 "Second title" "0123456789" (user_id alice) None [] (Some "second-title") None ""
         "draft" None 0%N [] [] 600%N 700%N.

(** [published1] after alice retitles it at time 700. *)
Definition retitled1 : Post :=
  mkPost id1 "Second title" "0123456789" (user_id alice) None [] (Some "hello-world") None ""
         "published" (Some 300%N) 0%N [] [] 100%N 700%N.

(** A third published post. *)
Definition id3 : ObjectId := "000000000000000000000003".
Definition published3 : Post :=
  mkPost id3 "Third post" "abcdefghij" (user_id bob) None [] (Some "third-post") None ""
         "published" (Some 500%N) 0%N [] [] 500%N 500%N.

(** [published1] with a view counter of 2^53. *)
Definition saturated1 : Post := with_views 9007199254740992%N published1.

(** Stored posts whose title is shorter than the schema allows, one
    published and one a draft. *)
Definition shortTitled : Post :=
  mkPost id2 "Hey" "9876543210" (user_id bob) None [] (Some "hey") None ""
         "published" (Some 400%N) 0%N [] [] 400%N 400%N.
Definition shortDraft : Post :=
  mkPost id2 "Hey" "9876543210" (user_id bob) None [] (Some "hey") None ""
         "draft" None 0%N [] [] 400%N 400%N.

(** [published1] holding two like entries of alice, and what two
    toggles by alice at times 500 and 600 leave of it. *)
Definition likedTwice : Post :=
  with_likes [mkLike (user_id alice) 310%N; mkLike (user_id alice) 320%N] published1.
Definition likedOnce : Post :=
  with_updatedAt 500%N (with_likes [mkLike (user_id alice) 320%N] published1).
Definition likedNever : Post :=
  with_updatedAt 600%N (with_likes [] published1).

(** A token service that knows one token per sample user. *)
Definition verifyToken (token : string) : JsError + Auth.Claims :=
  if token =? "token-alice" then inr (Auth.mkClaims (user_id alice) "alice" "alice@example.com" "user")
  else if token =? "token-dave" then inr (Auth.mkClaims (user_id dave) "dave" "dave@example.com" "user")
  else if token =? "token-gone"
  then inr (Auth.mkClaims "eeeeeeeeeeeeeeeeeeeeeeee" "erin" "erin@example.com" "user")
  else if token =? "token-old" then inl (plainError "TokenExpiredError" "jwt expired")
  else inl (plainError "Error" "Invalid token").

(** A pattern compiler that accepts nothing. *)
Definition noRegExp (pattern : string) : JsError + (string -> bool) :=
  inl (plainError "SyntaxError" "Invalid regular expression").

End Sample.

From Stdlib Require Import Sorted.

(* ================================================================== *)
(** ** What the schema and the controller keep true of stored posts *)
(* ================================================================== *)

Module History.

Import PostModel.
Import PostController.

(** The bounds the schema of [models/Post.js] puts on a post. *)
Definition validPost (p : Post) : Prop :=
  (5 <= String.length (title p) <= 100)%nat
  /\ (10 <= String.length (content p) <= 5000)%nat
  /\ (forall e, excerpt p = Some e -> (String.length e <= 200)%nat)
  /\ In (status p) statusEnum
  /\ (forall c, In c (comments p) -> (1 <= String.length (comment_content c) <= 500)%nat).

(** A published post carries its publication date. *)
Definition datedIfPublished (p : Post) : Prop :=
  status p = "published" -> publishedAt p <> None.

(** [p'] succeeds the stored document [post]: what no request changes,
    what only grows, and what stays true. *)
Definition successor (post p' : Post) : Prop :=
  _id p' = _id post
  /\ author p' = author post
  /\ createdAt p' = createdAt post
  /\ (views post <= views p')%N
  /\ (exists more, comments p' = (comments post ++ more)%list)
  /\ (forall t, publishedAt post = Some t -> publishedAt p' = Some t)
  /\ (datedIfPublished post -> datedIfPublished p')
  /\ (validPost post -> validPost p').

(** The slug of the next version is the old one, or one the hook derived
    from a title and that no other document of the collection has. *)
Definition slugFree (coll : list Post) (post p' : Post) : Prop :=
  slug p' = slug post
  \/ (slugTaken p' coll = false /\ exists t, slug p' = Some (slugify t)).

(** What a request that rewrites a stored post leaves behind. *)
Definition revision (coll coll' : list Post) : Prop :=
  exists post p',
    In post coll /\ successor post p' /\ slugFree coll post p'
    /\ coll' = replaceById p' coll.

End History.

(* ================================================================== *)
(** ** models/Post.js, the static method *)
(* ================================================================== *)

Module PostStatics.

Import PostModel.
Import PostController.

(** [findPublished]: [this.find({ status: 'published' }).sort({ publishedAt: -1 })] *)
Definition findPublished (coll : list Post) : list Post :=
  sortDocs "publishedAt" (-1) (filter (fun p => status p =? "published") coll).

End PostStatics.

(* ================================================================== *)
(** ** utils/validation.js, the password and user name rules *)
(* ================================================================== *)

Module ValidationUtil.

(** The object the validators return. *)
Record Verdict := mkVerdict {
  isValid : bool;
  errors : list string
}.

(** [regex.test(s)] for a pattern that asks for one character of a class
    somewhere in the text, as [/(?=.*[a-z])/] does. *)
Definition hasChar (class : ascii -> bool) (s : string) : bool :=
  existsb class (Js.chars s).

(** [[a-zA-Z0-9_]] *)
Definition isWordChar (c : ascii) : bool :=
  Js.isLowerAz c || Js.isUpperAz c || Js.isDigit c || (c =? "_")%char.

Definition pushIf (condition : bool) (message : string) (errors : list string) : list string :=
  if condition then (errors ++ [message])%list else errors.

(** [validatePassword]; a missing password is [None]. *)
Definition validatePassword (password : option string) : Verdict :=
  let p := match password with Some s => s | None => "" end in
  let errors := [] in
  let errors :=
    pushIf (negb (Js.truthy password) || (String.length p <? 6)%nat)
           "Password must be at least 6 characters long" errors in
  let errors :=
    pushIf (Js.truthy password && (128 <? String.length p)%nat)
           "Password must be less than 128 characters" errors in
  let errors :=
    pushIf (Js.truthy password && negb (hasChar Js.isLowerAz p))
           "Password must contain at least one lowercase letter" errors in
  let errors :=
    pushIf (Js.truthy password && negb (hasChar Js.isUpperAz p))
           "Password must contain at least one uppercase letter" errors in
  let errors :=
    pushIf (Js.truthy password && negb (hasChar Js.isDigit p))
           "Password must contain at least one number" errors in
  mkVerdict (Nat.eqb (List.length errors) 0) errors.

(** [validateUsername]; the pattern [/^[a-zA-Z0-9_]+$/] asks for a
    non-empty text of word characters only. *)
Definition validateUsername (username : option string) : Verdict :=
  let u := match username with Some s => s | None => "" end in
  let errors := [] in
  let errors :=
    pushIf (negb (Js.truthy username) || (String.length u <? 3)%nat)
           "Username must be at least 3 characters long" errors in
  let errors :=
    pushIf (Js.truthy username && (30 <? String.length u)%nat)
           "Username must be less than 30 characters" errors in
  let errors :=
    pushIf (Js.truthy username
            && negb (negb (u =? "") && forallb isWordChar (Js.chars u)))
           "Username can only contain letters, numbers, and underscores" errors in
  mkVerdict (Nat.eqb (List.length errors) 0) errors.

(** *** Regular expressions

    The patterns this file tests whole texts against (they are anchored
    with [^] and [$]): character classes, sequence, alternative and
    repetition. *)

Inductive CharClass : Set :=
| Word          (* \w *)
| DotOrHyphen   (* [.-] *)
| At            (* @ *)
| Dot.          (* \. *)

Definition inClass (k : CharClass) (c : ascii) : bool :=
  match k with
  | Word => isWordChar c
  | DotOrHyphen => (c =? ".")%char || (c =? "-")%char
  | At => (c =? "@")%char
  | Dot => (c =? ".")%char
  end.

Inductive Pattern : Set :=
| Class (k : CharClass)
| Empty
| Seq (a b : Pattern)
| Alt (a b : Pattern)
| Star (a : Pattern).

(** [a+], [a?] *)
Definition plus (a : Pattern) : Pattern := Seq a (Star a).
Definition opt (a : Pattern) : Pattern := Alt a Empty.

(** The texts a pattern matches. *)
Inductive Matches : Pattern -> list ascii -> Prop :=
| MClass k c : inClass k c = true -> Matches (Class k) [c]
| MEmpty : Matches Empty []
| MSeq a b l m : Matches a l -> Matches b m -> Matches (Seq a b) (l ++ m)
| MAltL a b l : Matches a l -> Matches (Alt a b) l
| MAltR a b l : Matches b l -> Matches (Alt a b) l
| MStarNil a : Matches (Star a) []
| MStarApp a l m : Matches a l -> Matches (Star a) m -> Matches (Star a) (l ++ m).

Definition CharClass_eqb (a b : CharClass) : bool :=
  match a, b with
  | Word, Word | DotOrHyphen, DotOrHyphen | At, At | Dot, Dot => true
  | _, _ => false
  end.

Fixpoint Pattern_eqb (a b : Pattern) : bool :=
  match a, b with
  | Class k, Class k' => CharClass_eqb k k'
  | Empty, Empty => true
  | Seq a1 a2, Seq b1 b2 => Pattern_eqb a1 b1 && Pattern_eqb a2 b2
  | Alt a1 a2, Alt b1 b2 => Pattern_eqb a1 b1 && Pattern_eqb a2 b2
  | Star a1, Star b1 => Pattern_eqb a1 b1
  | _, _ => false
  end.

(** Whether a pattern matches the empty text. *)
Fixpoint nullable (r : Pattern) : bool :=
  match r with
  | Class _ => false
  | Empty => true
  | Seq a b => nullable a && nullable b
  | Alt a b => nullable a || nullable b
  | Star _ => true
  end.

(** The patterns that are left after the character [c]: the text
    [c :: l] matches [r] when [l] matches one of them. *)
Fixpoint pderive (c : ascii) (r : Pattern) : list Pattern :=
  match r with
  | Class k => if inClass k c then [Empty] else []
  | Empty => []
  | Seq a b =>
      (map (fun a' => Seq a' b) (pderive c a)
       ++ (if nullable a then pderive c b else []))%list
  | Alt a b => (pderive c a ++ pderive c b)%list
  | Star a => map (fun a' => Seq a' (Star a)) (pderive c a)
  end.

Definition addNew (r : Pattern) (l : list Pattern) : list Pattern :=
  if existsb (Pattern_eqb r) l then l else r :: l.

(** The states of the matcher after one more character. *)
Definition advance (states : list Pattern) (c : ascii) : list Pattern :=
  fold_right addNew [] (flat_map (pderive c) states).

(** [/^r$/.test(s)] *)
Definition test (r : Pattern) (s : string) : bool :=
  existsb nullable (fold_left advance (Js.chars s) [r]).

(** [/^\w+([.-]?\w+)*@\w+([.-]?\w+)*(\.\w{2,3})+$/] *)
Definition emailRegex : Pattern :=
  let words := Star (Seq (opt (Class DotOrHyphen)) (plus (Class Word))) in
  Seq (plus (Class Word))
    (Seq words
      (Seq (Class At)
        (Seq (plus (Class Word))
          (Seq words
            (plus (Seq (Class Dot)
                       (Seq (Class Word) (Seq (Class Word) (opt (Class Word)))))))))).

(** [isValidEmail] *)
Definition isValidEmail (email : string) : bool := test emailRegex email.

End ValidationUtil.

(* ================================================================== *)
(** ** controllers/authController.js, login *)
(* ================================================================== *)

Module AuthController.

(** [req.body] of [POST /api/auth/login]. *)
Record LoginBody := mkLogin {
  l_email : option string;
  l_password : option string
}.

Section Login.

(** [User.findOne({ email }).select('+password')], the account lookup of
    the absent [models/User.js]. *)
Variable findOneByEmail : string -> option User.

(** [user.comparePassword(candidate)], the check of a candidate against
    the stored hash. *)
Variable comparePassword : User -> string -> bool.

(** [generateToken(user)] of [utils/auth.js]. *)
Variable generateToken : User -> string.

(** [login]; on success the response carries the user and a token. *)
Definition login (body : LoginBody) : Response (User * string) :=
  if negb (Js.truthy (l_email body)) || negb (Js.truthy (l_password body))
  then Failure 400 "Email and password are required" []
  else
    match findOneByEmail (PostController.text (l_email body)) with
    | None => Failure 401 "Invalid credentials" []
    | Some user =>
        if negb (isActive user) then Failure 401 "Invalid credentials" []
        else if negb (comparePassword user (PostController.text (l_password body)))
        then Failure 401 "Invalid credentials" []
        else Json 200 "Login successful" (user, generateToken user)
    end.

End Login.

End AuthController.

(* ================================================================== *)
(** ** routes/users.js *)
(* ================================================================== *)

Module UserRoutes.

Import ErrorHandler.

(** [getUserById] *)
Definition getUserById (id : string) (users : list User) : Response User :=
  if negb (Validation.isValidObjectId id)
  then Failure 400 "Invalid user ID" []
  else
    match Auth.findUserById users id with
    | inr (Some user) => Json 200 "" user
    | inr None => Failure 404 "User not found" []
    | inl error => errorHandler error
    end.

(** [deleteUser]; [reqUser] is the identity [authenticate] attached. *)
Definition deleteUser (reqUser : User) (id : string) (users : list User)
  : Response unit * list User :=
  if negb (Validation.isValidObjectId id)
  then (Failure 400 "Invalid user ID" [], users)
  else if id =? user_id reqUser
  then (Failure 400 "Cannot delete your own account" [], users)
  else
    match Auth.findUserById users id with
    | inr (Some _) =>
        (Json 200 "User deleted successfully" tt,
         filter (fun u => negb (user_id u =? Js.toLowerCase id)) users)
    | inr None => (Failure 404 "User not found" [], users)
    | inl error => (errorHandler error, users)
    end.

(** What a handler behind [authenticate, authorize(roles)] sees: the
    identity, or the answer of the guard that stopped the request.
    [authorize] hands a request on only with the identity it was given, so
    the last case does not arise. *)
Definition guarded (verifyToken : string -> JsError + Auth.Claims) (users : list User)
           (roles : list string) (authorization : option string) : nat * string + User :=
  match Auth.authenticate verifyToken users authorization with
  | Auth.Respond status message => inl (status, message)
  | Auth.Next reqUser =>
      match Auth.authorize roles reqUser with
      | Auth.Respond status message => inl (status, message)
      | Auth.Next (Some user) => inr user
      | Auth.Next None => inl (500, "Internal Server Error")
      end
  end.

(** [router.delete('/:id', authenticate, authorize(['admin']), deleteUser)] *)
Definition deleteUserRoute (verifyToken : string -> JsError + Auth.Claims)
           (authorization : option string) (id : string) (users : list User)
  : Response unit * list User :=
  match guarded verifyToken users ["admin"] authorization with
  | inr reqUser => deleteUser reqUser id users
  | inl (status, message) => (Failure status message [], users)
  end.

End UserRoutes.

(* ================================================================== *)
(** ** Status codes *)
(* ================================================================== *)

(** The status code of a response. *)
Definition codeOf {A} (r : Response A) : nat :=
  match r with
  | Json status _ _ => status
  | Failure status _ _ => status
  end.

(* ================================================================== *)
(** ** More sample data *)
(* ================================================================== *)

Module Cases.

Import PostModel.
Import PostController.
Import Sample.

(** An account whose id is made of the bytes of a text of 12 characters,
    and the accounts with it. *)
Definition erin : User :=
  mkUser "6572696e2d6163636f756e74" "erin" "erin@example.com" "user" true.
Definition accounts : list User := (users ++ [erin])%list.

(** The token service of [Sample], with a token for the admin carol, one
    whose claims carry an id that is no object id, and one whose claims
    carry the 12 characters that erin's id is made of. *)
Definition tokens (token : string) : JsError + Auth.Claims :=
  if token =? "token-carol"
  then inr (Auth.mkClaims (user_id carol) "carol" "carol@example.com" "admin")
  else if token =? "token-odd"
  then inr (Auth.mkClaims "42" "odd" "odd@example.com" "user")
  else if token =? "token-erin"
  then inr (Auth.mkClaims "erin-account" "erin" "erin@example.com" "user")
  else verifyToken token.

(** The id of carol as a client may write it. *)
Definition carolUpper : string := "CCCCCCCCCCCCCCCCCCCCCCCC".

(** The id of the first sample post as a client may write it. *)
Definition id1Upper : string := "00000000000000000000000A".
Definition idA : ObjectId := "00000000000000000000000a".

(** [published1] after bob's comment at time 500. *)
Definition commented1 : Post :=
  mkPost id1 "Hello World" "0123456789" (user_id alice) None [] (Some "hello-world") None ""
         "published" (Some 300%N) 0%N [] [mkComment (user_id bob) "Nice post" 500%N]
         100%N 500%N.

(** A published post whose slug has the shape of an id. *)
Definition hexTitled : Post :=
  mkPost idA "deadbeefdeadbeefdeadbeef" "0123456789" (user_id alice) None []
         (Some "deadbeefdeadbeefdeadbeef") None "" "published" (Some 300%N) 0%N [] []
         100%N 300%N.

(** A body with most fields, and the post bob creates from it at time 200. *)
Definition fullBody : PostBody :=
  mkBody (Some "  Rocq in Practice ") (Some "0123456789") None (Some [" Proofs "; "ROCQ"])
         (Some "A short note") (Some "cover.png") (Some "published").
Definition fullPost : Post :=
  mkPost id2 "Rocq in Practice" "0123456789" (user_id bob) None ["proofs"; "rocq"]
         (Some "rocq-in-practice") (Some "A short note") "cover.png" "published"
         (Some 200%N) 0%N [] [] 200%N 200%N.

(** A body that changes the content and the tags only. *)
Definition editBody : PostBody :=
  mkBody None (Some "A new content") None (Some ["News"]) None None None.
Definition edited1 : Post :=
  mkPost id1 "Hello World" "A new content" (user_id alice) None ["news"] (Some "hello-world")
         None "" "published" (Some 300%N) 0%N [] [] 100%N 700%N.

(** A text of 501 characters. *)
Definition longText : string := Js.str (repeat "a"%char 501).

(** An account store, a password check and a token service for [login]. *)
Definition findOneByEmail (e : string) : option User :=
  find (fun u => email u =? e) users.
Definition comparePassword (u : User) (candidate : string) : bool :=
  candidate =? (username u ++ "-Secret1").
Definition generateToken (u : User) : string := "token-" ++ username u.

(** A pattern compiler that rejects an unbalanced parenthesis and takes
    every other pattern as a text to find. *)
Definition literalRegExp (pattern : string) : JsError + (string -> bool) :=
  if Js.includes pattern "("
  then inl (plainError "SyntaxError" "Invalid regular expression: Unterminated group")
  else inr (fun s => Js.includes (Js.toLowerCase s) (Js.toLowerCase pattern)).

(** The collection after alice creates a post at time 100 and bob one
    at time 200. *)
Definition twoPosts : list Post :=
  snd (createPost [] 200%N id2 bob fullBody
                  (snd (createPost [] 100%N id1 alice helloBody []))).

End Cases.
(* ================================================================== *)
(** * Properties *)
(* ================================================================== *)

Import PostModel.
Import PostController.
Import Lifecycle.

(** ** Numbers *)

Lemma roundDouble_exact z : (Z.abs z < Js.maxExact)%Z -> Js.roundDouble z = z.
Proof.
  intros H. unfold Js.roundDouble. cbv zeta.
  assert (E : (Z.log2 (Z.abs z) - 52 <=? 0)%Z = true).
  { apply Z.leb_le. destruct (Z.eq_dec (Z.abs z) 0) as [E0|E0].
    - rewrite E0. simpl. lia.
    - assert (Z.log2 (Z.abs z) < 53)%Z; [ | lia ].
      apply Z.log2_lt_pow2; [ lia | exact H ]. }
  now rewrite E.
Qed.

(** A Number from 2^53 on: the significand [q'] of 53 bits, next to the
    quotient [q] of the exact value by the weight [2 ^ e] of its last bit. *)
Lemma roundDouble_large a :
  (Js.maxExact <= a)%Z ->
  exists e q q',
    (1 <= e)%Z /\ (2 ^ 52 <= q < 2 ^ 53)%Z
    /\ (q * 2 ^ e <= a < (q + 1) * 2 ^ e)%Z
    /\ (q' = q \/ q' = q + 1)%Z
    /\ Js.roundDouble a = (q' * 2 ^ e)%Z.
Proof.
  intros Ha. change Js.maxExact with (2 ^ 53)%Z in Ha.
  assert (Hpos : (0 < a)%Z) by (assert (0 < 2 ^ 53)%Z by reflexivity; lia).
  pose proof (Z.log2_spec a Hpos) as [Hlo Hhi].
  assert (Hb : (53 <= Z.log2 a)%Z) by (apply Z.log2_le_pow2; assumption).
  set (e := (Z.log2 a - 52)%Z).
  assert (He : (1 <= e)%Z) by (subst e; lia).
  assert (Hp : (0 < 2 ^ e)%Z) by (apply Z.pow_pos_nonneg; lia).
  assert (E1 : (2 ^ Z.log2 a = 2 ^ 52 * 2 ^ e)%Z).
  { rewrite <- Z.pow_add_r by lia. f_equal. subst e. lia. }
  assert (E2 : (2 ^ Z.succ (Z.log2 a) = 2 ^ 53 * 2 ^ e)%Z).
  { rewrite <- Z.pow_add_r by lia. f_equal. subst e. lia. }
  rewrite E1 in Hlo. rewrite E2 in Hhi.
  pose proof (Z.div_mod a (2 ^ e) ltac:(lia)) as Hd.
  pose proof (Z.mod_pos_bound a (2 ^ e) Hp) as Hm.
  set (q := (a / 2 ^ e)%Z) in *. set (r := (a mod 2 ^ e)%Z) in *.
  assert (Hq : (2 ^ 52 <= q < 2 ^ 53)%Z).
  { assert (K52 : (0 < 2 ^ 52)%Z) by reflexivity.
    assert (K53 : (0 < 2 ^ 53)%Z) by reflexivity.
    generalize dependent (2 ^ 52)%Z. generalize dependent (2 ^ 53)%Z.
    intros. nia. }
  unfold Js.roundDouble. cbv zeta.
  rewrite (Z.abs_eq a) by lia. fold e.
  assert (El : (e <=? 0)%Z = false) by (apply Z.leb_gt; lia). rewrite El.
  fold q. fold r.
  rewrite (Z.sgn_pos a Hpos), Z.mul_1_l.
  exists e, q.
  match goal with |- context [((?x) * 2 ^ e)%Z] =>
    match x with
    | (if _ then _ else _) => exists x
    end
  end.
  split; [ exact He | ]. split; [ exact Hq | ]. split; [ lia | ].
  split; [ | reflexivity ].
  destruct (r <? 2 ^ (e - 1))%Z; auto.
  destruct (2 ^ (e - 1) <? r)%Z; auto.
  destruct (Z.even q); auto.
Qed.

(** Adding one to a Number from 2^53 on gives the same Number or the
    next one. *)
Lemma roundDouble_succ q e :
  (1 <= e)%Z -> (2 ^ 52 <= q <= 2 ^ 53)%Z ->
  Js.roundDouble (q * 2 ^ e + 1) = (q * 2 ^ e)%Z
  \/ Js.roundDouble (q * 2 ^ e + 1) = ((q + 1) * 2 ^ e)%Z.
Proof.
  intros He Hq.
  assert (K52 : (0 < 2 ^ 52)%Z) by reflexivity.
  assert (K53 : (2 ^ 53 = 2 * 2 ^ 52)%Z) by reflexivity.
  assert (Hp : (2 ^ e = 2 * 2 ^ (e - 1))%Z).
  { rewrite <- (Z.pow_succ_r 2 (e - 1)) by lia. f_equal. lia. }
  assert (Hh : (1 <= 2 ^ (e - 1))%Z).
  { assert (0 < 2 ^ (e - 1))%Z by (apply Z.pow_pos_nonneg; lia). lia. }
  set (w := (q * 2 ^ e)%Z).
  assert (Hw : (0 < w)%Z) by (subst w; nia).
  destruct (Z.eq_dec q (2 ^ 53)) as [Eq | Nq].
  - (* the significand is a power of two: the weight doubles *)
    left.
    assert (Hlog : Z.log2 (w + 1) = (53 + e)%Z).
    { apply Z.log2_unique; [ lia | ].
      rewrite Z.pow_succ_r, Z.pow_add_r by lia. subst w. rewrite Eq. nia. }
    unfold Js.roundDouble. cbv zeta. rewrite (Z.abs_eq (w + 1)) by lia. rewrite Hlog.
    replace (53 + e - 52)%Z with (e + 1)%Z by lia.
    assert (El : (e + 1 <=? 0)%Z = false) by (apply Z.leb_gt; lia). rewrite El.
    assert (Hp1 : (2 ^ (e + 1) = 2 * 2 ^ e)%Z) by (rewrite Z.pow_add_r by lia; lia).
    assert (Hd : ((w + 1) / 2 ^ (e + 1) = 2 ^ 52)%Z).
    { symmetry. apply (Z.div_unique_pos _ _ _ 1); [ lia | subst w; rewrite Eq; nia ]. }
    assert (Hm : ((w + 1) mod 2 ^ (e + 1) = 1)%Z).
    { symmetry. apply (Z.mod_unique_pos _ _ (2 ^ 52)); [ lia | subst w; rewrite Eq; nia ]. }
    rewrite Hd, Hm. replace (e + 1 - 1)%Z with e by lia.
    assert (Hlt : (1 <? 2 ^ e)%Z = true) by (apply Z.ltb_lt; lia). rewrite Hlt.
    rewrite (Z.sgn_pos (w + 1)) by lia. subst w. rewrite Eq. nia.
  - assert (Hlog : Z.log2 (w + 1) = (52 + e)%Z).
    { apply Z.log2_unique; [ lia | ].
      rewrite Z.pow_succ_r, Z.pow_add_r by lia. subst w. nia. }
    unfold Js.roundDouble. cbv zeta. rewrite (Z.abs_eq (w + 1)) by lia. rewrite Hlog.
    replace (52 + e - 52)%Z with e by lia.
    assert (El : (e <=? 0)%Z = false) by (apply Z.leb_gt; lia). rewrite El.
    assert (Hd : ((w + 1) / 2 ^ e = q)%Z).
    { symmetry. apply (Z.div_unique_pos _ _ _ 1); [ lia | subst w; lia ]. }
    assert (Hm : ((w + 1) mod 2 ^ e = 1)%Z).
    { symmetry. apply (Z.mod_unique_pos _ _ q); [ lia | subst w; lia ]. }
    rewrite Hd, Hm. rewrite (Z.sgn_pos (w + 1)) by lia. rewrite Z.mul_1_l.
    destruct (1 <? 2 ^ (e - 1))%Z; auto.
    destruct (2 ^ (e - 1) <? 1)%Z; auto.
    destruct (Z.even q); auto.
Qed.

Lemma number_exact v : (v < 9007199254740992)%N -> Js.number v = v.
Proof.
  intros H. unfold Js.number. rewrite roundDouble_exact.
  - apply N2Z.id.
  - unfold Js.maxExact. lia.
Qed.

Lemma plusOne_exact v : (v < 9007199254740992)%N -> Js.plusOne v = (v + 1)%N.
Proof.
  intros H. unfold Js.plusOne.
  destruct (N.eq_dec v 9007199254740991) as [-> | Hne]; [ reflexivity | ].
  rewrite roundDouble_exact; [ lia | unfold Js.maxExact; lia ].
Qed.

Lemma plusOne_top : Js.plusOne (Js.number 9007199254740992) = Js.number 9007199254740992.
Proof. reflexivity. Qed.

(** A view never lowers the stored count: the Number written, when one
    is written, is not below it. *)
Lemma plusOne_number_grows v :
  Js.plusOne (Js.number v) <> Js.number v -> (v <= Js.plusOne (Js.number v))%N.
Proof.
  destruct (N.lt_ge_cases v 9007199254740992) as [Hlt | Hge].
  - intros _. rewrite (number_exact v Hlt), (plusOne_exact v Hlt). lia.
  - unfold Js.plusOne, Js.number.
    destruct (roundDouble_large (Z.of_N v)) as (e & q & q' & He & Hq & Hv & Hq' & Hr).
    { unfold Js.maxExact. lia. }
    rewrite Hr.
    assert (Hp : (0 < 2 ^ e)%Z) by (apply Z.pow_pos_nonneg; lia).
    assert (K52 : (0 < 2 ^ 52)%Z) by reflexivity.
    assert (K53 : (2 ^ 53 = 2 * 2 ^ 52)%Z) by reflexivity.
    assert (Hw : (0 <= q' * 2 ^ e)%Z) by nia.
    rewrite (Z2N.id _ Hw).
    destruct (roundDouble_succ q' e He ltac:(lia)) as [E | E]; rewrite E.
    + intros C. now contradiction C.
    + intros _. apply N2Z.inj_le. rewrite Z2N.id by nia. nia.
Qed.

Lemma roundDouble_positive z : (1 <= z)%Z -> (1 <= Js.roundDouble z)%Z.
Proof.
  intros H. destruct (Z.lt_ge_cases z Js.maxExact) as [Hlt | Hge].
  - rewrite roundDouble_exact; [ exact H | lia ].
  - destruct (roundDouble_large z Hge) as (e & q & q' & He & Hq & _ & Hq' & ->).
    assert (Hp : (0 < 2 ^ e)%Z) by (apply Z.pow_pos_nonneg; lia).
    assert (K52 : (0 < 2 ^ 52)%Z) by reflexivity. nia.
Qed.

Lemma toNumber_exact z : (Z.abs z < Js.maxExact)%Z -> Js.toNumber z = Some z.
Proof.
  intros H. unfold Js.toNumber, Js.roundsToFinite.
  assert (E : (Z.abs z <? 2 ^ 1024 - 2 ^ 970)%Z = true).
  { apply Z.ltb_lt. eapply Z.lt_trans; [ exact H | reflexivity ]. }
  rewrite E. now rewrite roundDouble_exact.
Qed.

(** ** Documents and their assignments *)

Lemma optEqb_eq a b : optEqb a b = true <-> a = b.
Proof.
  destruct a as [x|], b as [y|]; simpl; try (split; congruence).
  rewrite String.eqb_eq. split; congruence.
Qed.

Lemma assign_frame {A} (proj : Post -> A) path differs f d :
  (forall p, proj (f p) = proj p) ->
  proj (fields (assign path differs f d)) = proj (fields d).
Proof. intros H. unfold assign. destruct (isNew d || differs); simpl; auto. Qed.

Lemma assign_isNew path differs f d : isNew (assign path differs f d) = isNew d.
Proof. unfold assign. destruct (isNew d || differs); reflexivity. Qed.

Lemma assign_isModified_other path' path differs f d :
  Path_eqb path' path = false ->
  isModified path' (assign path differs f d) = isModified path' d.
Proof.
  intros H. unfold assign, isModified. destruct (isNew d || differs); simpl; auto.
  now rewrite H.
Qed.

Lemma assign_grows path differs f d :
  assign path differs f d = d \/ modifiedPaths (assign path differs f d) <> [].
Proof.
  unfold assign. destruct (isNew d || differs); simpl; auto. right; discriminate.
Qed.

Lemma assign_keeps_modified path differs f d :
  modifiedPaths d <> [] -> modifiedPaths (assign path differs f d) <> [].
Proof.
  unfold assign. destruct (isNew d || differs); simpl; auto. discriminate.
Qed.

Ltac frame_setters :=
  unfold set_title, set_content, set_category, set_tags, set_slug, set_excerpt,
    set_featuredImage, set_status, set_publishedAt, set_views, set_likes, set_comments;
  repeat first
    [ rewrite assign_isNew
    | rewrite assign_frame by reflexivity
    | rewrite assign_isModified_other by reflexivity ];
  try reflexivity.

Ltac split_update body :=
  unfold updateFields, setIfDefined;
  destruct (Js.truthy (b_title body)), (Js.truthy (b_content body)),
    (b_category body), (b_tags body), (b_excerpt body), (b_featuredImage body),
    (Js.truthy (b_status body)).

Lemma updateFields_isNew body d : isNew (updateFields body d) = isNew d.
Proof. split_update body; frame_setters. Qed.

Lemma updateFields_frame {A} (proj : Post -> A) body d :
  (forall v p, proj (with_title v p) = proj p) ->
  (forall v p, proj (with_content v p) = proj p) ->
  (forall v p, proj (with_category v p) = proj p) ->
  (forall v p, proj (with_tags v p) = proj p) ->
  (forall v p, proj (with_excerpt v p) = proj p) ->
  (forall v p, proj (with_featuredImage v p) = proj p) ->
  (forall v p, proj (with_status v p) = proj p) ->
  proj (fields (updateFields body d)) = proj (fields d).
Proof.
  intros H1 H2 H3 H4 H5 H6 H7.
  split_update body;
    unfold set_title, set_content, set_category, set_tags, set_excerpt,
      set_featuredImage, set_status;
    repeat (rewrite assign_frame by auto); reflexivity.
Qed.

Lemma updateFields_isModified_other path body d :
  Path_eqb path P_title = false -> Path_eqb path P_content = false ->
  Path_eqb path P_category = false -> Path_eqb path P_tags = false ->
  Path_eqb path P_excerpt = false -> Path_eqb path P_featuredImage = false ->
  Path_eqb path P_status = false ->
  isModified path (updateFields body d) = isModified path d.
Proof.
  intros H1 H2 H3 H4 H5 H6 H7.
  split_update body;
    unfold set_title, set_content, set_category, set_tags, set_excerpt,
      set_featuredImage, set_status;
    repeat (rewrite assign_isModified_other by assumption); reflexivity.
Qed.

(** An update that changes the status marks the path modified. *)
Lemma updateFields_status_modified body post :
  status (fields (updateFields body (hydrate post))) <> status post ->
  isModified P_status (updateFields body (hydrate post)) = true.
Proof.
  unfold updateFields.
  set (d := setIfDefined set_featuredImage _ _).
  assert (Hs : status (fields d) = status post).
  { subst d. unfold setIfDefined.
    destruct (Js.truthy (b_title body)), (Js.truthy (b_content body)),
      (b_category body), (b_tags body), (b_excerpt body), (b_featuredImage body);
      unfold set_title, set_content, set_category, set_tags, set_excerpt, set_featuredImage;
      repeat (rewrite assign_frame by reflexivity); reflexivity. }
  assert (Hn : isNew d = false).
  { subst d. unfold setIfDefined.
    destruct (Js.truthy (b_title body)), (Js.truthy (b_content body)),
      (b_category body), (b_tags body), (b_excerpt body), (b_featuredImage body);
      unfold set_title, set_content, set_category, set_tags, set_excerpt, set_featuredImage;
      repeat rewrite assign_isNew; reflexivity. }
  clearbody d.
  destruct (Js.truthy (b_status body)).
  - unfold set_status, assign. rewrite Hn, Hs. simpl.
    destruct (PostController.text (b_status body) =? status post) eqn:E; simpl.
    + apply String.eqb_eq in E. rewrite Hs. congruence.
    + intros _. reflexivity.
  - rewrite Hs. congruence.
Qed.

Lemma updateFields_title_modified body post :
  isModified P_title (updateFields body (hydrate post))
  = negb (title (fields (updateFields body (hydrate post))) =? title post).
Proof.
  split_update body;
    unfold set_status, set_featuredImage, set_excerpt, set_tags, set_category, set_content;
    repeat (rewrite assign_isModified_other by reflexivity);
    repeat (rewrite assign_frame by reflexivity);
    try (cbn [hydrate isModified modifiedPaths existsb fields];
         now rewrite String.eqb_refl);
    unfold set_title, assign, hydrate; cbn [isNew fields orb];
    destruct (Js.trim (text (b_title body)) =? title post) eqn:E;
    cbn [negb isModified modifiedPaths existsb fields title with_title Path_eqb orb];
    rewrite ?E, ?String.eqb_refl; reflexivity.
Qed.

Lemma updateFields_grows body d :
  updateFields body d = d \/ modifiedPaths (updateFields body d) <> [].
Proof.
  assert (G : forall (s : Document -> Document) d0,
             (forall x, s x = x \/ modifiedPaths (s x) <> []) ->
             (forall x, modifiedPaths x <> [] -> modifiedPaths (s x) <> []) ->
             (d0 = d \/ modifiedPaths d0 <> []) ->
             s d0 = d \/ modifiedPaths (s d0) <> []).
  { intros s d0 Hs Hk [-> | Hm]; auto. }
  unfold updateFields, setIfDefined.
  repeat match goal with
  | |- (if ?c then ?s ?x else ?x) = _ \/ _ =>
      destruct c; [ apply (G s x); [ intros; apply assign_grows | intros; now apply assign_keeps_modified | ] | ]
  | |- match ?c with Some v => _ | None => ?x end = _ \/ _ =>
      destruct c; [ apply G with (s := fun y => assign _ _ _ y) (d0 := x);
                      [ intros; apply assign_grows | intros; now apply assign_keeps_modified | ] | ]
  end.
  all: auto.
Qed.

(** *** Time stamps and the hook *)

Lemma timestamps_isNew now d : isNew (timestamps now d) = isNew d.
Proof.
  unfold timestamps. destruct (isNew d) eqn:E; simpl; auto.
  destruct (modifiedPaths d) eqn:E2; simpl; auto.
Qed.

Lemma timestamps_modifiedPaths now d : modifiedPaths (timestamps now d) = modifiedPaths d.
Proof.
  unfold timestamps. destruct (isNew d); simpl; auto.
  destruct (modifiedPaths d) eqn:E; simpl; auto.
Qed.

Lemma timestamps_isModified now path d : isModified path (timestamps now d) = isModified path d.
Proof. unfold isModified. now rewrite timestamps_modifiedPaths. Qed.

Lemma timestamps_frame {A} (proj : Post -> A) now d :
  (forall v p, proj (with_createdAt v p) = proj p) ->
  (forall v p, proj (with_updatedAt v p) = proj p) ->
  proj (fields (timestamps now d)) = proj (fields d).
Proof.
  intros H1 H2. unfold timestamps. destruct (isNew d); simpl.
  - now rewrite H2, H1.
  - destruct (modifiedPaths d) eqn:E; simpl; auto.
Qed.

Lemma timestamps_unmodified now d :
  isNew d = false -> modifiedPaths d = [] -> timestamps now d = d.
Proof. intros H1 H2. unfold timestamps. now rewrite H1, H2. Qed.

Lemma preSave_isNew now d : isNew (preSave now d) = isNew d.
Proof.
  unfold preSave.
  repeat match goal with |- context [if ?c then _ else _] => destruct c end;
    frame_setters.
Qed.

Lemma preSave_frame {A} (proj : Post -> A) now d :
  (forall v p, proj (with_slug v p) = proj p) ->
  (forall v p, proj (with_publishedAt v p) = proj p) ->
  proj (fields (preSave now d)) = proj (fields d).
Proof.
  intros H1 H2. unfold preSave.
  repeat match goal with |- context [if ?c then _ else _] => destruct c end;
    unfold set_slug, set_publishedAt; repeat (rewrite assign_frame by auto); reflexivity.
Qed.

Lemma preSave_unmodified now d : modifiedPaths d = [] -> preSave now d = d.
Proof. intros H. unfold preSave, isModified. rewrite H. simpl. rewrite H. reflexivity. Qed.

Lemma preSave_keeps_modified now d :
  modifiedPaths d <> [] -> modifiedPaths (preSave now d) <> [].
Proof.
  intros H. unfold preSave.
  repeat match goal with |- context [if ?c then _ else _] => destruct c end;
    unfold set_slug, set_publishedAt; repeat apply assign_keeps_modified; assumption.
Qed.

(** The slug after the hook. *)
Lemma preSave_slug now d :
  slug (fields (preSave now d)) =
  if isModified P_title d && noSlug (fields d)
  then Some (slugSetter (slugify (title (fields d))))
  else slug (fields d).
Proof.
  unfold preSave.
  destruct (isModified P_title d && noSlug (fields d)) eqn:E.
  - match goal with |- context [if ?c then set_publishedAt _ _ else _] => destruct c end.
    + unfold set_publishedAt. rewrite assign_frame by reflexivity.
      unfold set_slug, assign.
      destruct (isNew d || _) eqn:E2; simpl; auto.
      apply orb_false_iff in E2 as [_ E2]. apply negb_false_iff, optEqb_eq in E2. auto.
    + unfold set_slug, assign.
      destruct (isNew d || _) eqn:E2; simpl; auto.
      apply orb_false_iff in E2 as [_ E2]. apply negb_false_iff, optEqb_eq in E2. auto.
  - match goal with |- context [if ?c then set_publishedAt _ _ else _] => destruct c end; auto.
    unfold set_publishedAt. now rewrite assign_frame by reflexivity.
Qed.

(** The publication date after the hook. *)
Lemma preSave_publishedAt now d :
  publishedAt (fields (preSave now d)) =
  if isModified P_status d && (status (fields d) =? "published")
     && match publishedAt (fields d) with Some _ => false | None => true end
  then Some now
  else publishedAt (fields d).
Proof.
  unfold preSave.
  set (d1 := if isModified P_title d && noSlug (fields d) then _ else d).
  assert (H1 : isModified P_status d1 = isModified P_status d).
  { subst d1. destruct (_ && _); auto. unfold set_slug.
    now rewrite assign_isModified_other by reflexivity. }
  assert (H2 : status (fields d1) = status (fields d)).
  { subst d1. destruct (_ && _); auto. unfold set_slug. now rewrite assign_frame by reflexivity. }
  assert (H3 : publishedAt (fields d1) = publishedAt (fields d)).
  { subst d1. destruct (_ && _); auto. unfold set_slug. now rewrite assign_frame by reflexivity. }
  clearbody d1. rewrite H1, H2, H3.
  destruct (isModified P_status d && (status (fields d) =? "published")
            && match publishedAt (fields d) with Some _ => false | None => true end) eqn:E; auto.
  unfold set_publishedAt, assign. rewrite H3.
  destruct (publishedAt (fields d)); [ rewrite andb_false_r in E; discriminate | ].
  rewrite orb_true_r. reflexivity.
Qed.

(** *** [save] *)

Lemma save_inr now d coll p' coll' :
  save now d coll = inr (p', coll') ->
  validateSync d = [] /\ p' = fields (preSave now (timestamps now d)).
Proof.
  unfold save. destruct (validateSync d); [ | discriminate ].
  intros H. split; auto.
  repeat match type of H with
  | (if ?c then _ else _) = _ => destruct c
  | match ?c with [] => _ | _ :: _ => _ end = _ => destruct c
  end; inversion H; reflexivity.
Qed.

Lemma save_loaded now d coll p' coll' :
  isNew d = false ->
  save now d coll = inr (p', coll') ->
  (modifiedPaths d = [] /\ p' = fields d /\ coll' = coll)
  \/ (modifiedPaths d <> [] /\ coll' = replaceById p' coll).
Proof.
  intros Hn H. destruct (save_inr _ _ _ _ _ H) as [Hv ->].
  unfold save in H. rewrite Hv in H.
  rewrite preSave_isNew, timestamps_isNew, Hn in H.
  destruct (modifiedPaths d) eqn:Em.
  - left. rewrite timestamps_unmodified in * by assumption.
    rewrite preSave_unmodified in * by assumption. rewrite Em in H.
    inversion H. auto.
  - right. split; [ discriminate | ].
    destruct (modifiedPaths (preSave now (timestamps now d))) eqn:E2.
    + exfalso. revert E2. apply preSave_keeps_modified.
      rewrite timestamps_modifiedPaths, Em. discriminate.
    + destruct (_ && _); inversion H. reflexivity.
Qed.

(** *** Lookups in the collection *)

Lemma findById_id id coll p : findById id coll = Some p -> _id p = id /\ In p coll.
Proof.
  unfold findById. intros H. apply find_some in H as [H1 H2].
  apply String.eqb_eq in H2. auto.
Qed.

Lemma findById_replaceById p' coll :
  (exists q, In q coll /\ _id q = _id p') ->
  findById (_id p') (replaceById p' coll) = Some p'.
Proof.
  unfold findById, replaceById. induction coll as [|x r IH]; intros [q [Hq E]].
  - destruct Hq.
  - simpl. destruct (_id x =? _id p') eqn:Ex.
    + now rewrite String.eqb_refl.
    + rewrite Ex. apply IH. destruct Hq as [-> | Hq].
      * rewrite E, String.eqb_refl in Ex. discriminate.
      * eauto.
Qed.

Lemma findById_replaceById_other id p' coll :
  id <> _id p' ->
  findById id (replaceById p' coll) = findById id coll.
Proof.
  intros Hne. unfold findById, replaceById. induction coll as [|x r IH]; simpl; auto.
  destruct (_id x =? _id p') eqn:Ex.
  - apply String.eqb_eq in Ex.
    destruct (_id p' =? id) eqn:E1; [ apply String.eqb_eq in E1; congruence | ].
    destruct (_id x =? id) eqn:E2; [ apply String.eqb_eq in E2; congruence | ].
    apply IH.
  - destruct (_id x =? id); auto.
Qed.

Lemma in_replaceById q' p' coll :
  In q' (replaceById p' coll) ->
  (q' = p' /\ exists q, In q coll /\ _id q = _id p') \/ (In q' coll /\ _id q' <> _id p').
Proof.
  unfold replaceById. rewrite in_map_iff. intros [q [E Hq]].
  destruct (_id q =? _id p') eqn:Ex.
  - apply String.eqb_eq in Ex. left. split; eauto.
  - apply String.eqb_neq in Ex. right. subst. auto.
Qed.

(** *** The schema's bounds *)

Lemma titleError_nil t :
  titleError t = [] <-> (5 <= String.length t <= 100)%nat.
Proof.
  unfold titleError. destruct (t =? "") eqn:E.
  - apply String.eqb_eq in E. subst. simpl. split; [ discriminate | lia ].
  - destruct (String.length t <? 5)%nat eqn:E1.
    + apply Nat.ltb_lt in E1. split; [ discriminate | lia ].
    + apply Nat.ltb_ge in E1. destruct (100 <? String.length t)%nat eqn:E2.
      * apply Nat.ltb_lt in E2. split; [ discriminate | lia ].
      * apply Nat.ltb_ge in E2. split; auto.
Qed.

Lemma contentError_nil c :
  contentError c = [] <-> (10 <= String.length c <= 5000)%nat.
Proof.
  unfold contentError. destruct (c =? "") eqn:E.
  - apply String.eqb_eq in E. subst. simpl. split; [ discriminate | lia ].
  - destruct (String.length c <? 10)%nat eqn:E1.
    + apply Nat.ltb_lt in E1. split; [ discriminate | lia ].
    + apply Nat.ltb_ge in E1. destruct (5000 <? String.length c)%nat eqn:E2.
      * apply Nat.ltb_lt in E2. split; [ discriminate | lia ].
      * apply Nat.ltb_ge in E2. split; auto.
Qed.

Lemma excerptError_nil e :
  excerptError e = [] <-> (forall s, e = Some s -> (String.length s <= 200)%nat).
Proof.
  unfold excerptError. destruct e as [s|]; [ | split; [ discriminate | auto ] ].
  destruct (200 <? String.length s)%nat eqn:E.
  - apply Nat.ltb_lt in E. split; [ discriminate | ].
    intros H. specialize (H s eq_refl). lia.
  - apply Nat.ltb_ge in E. split; auto. intros _ s' H. inversion H. now subst.
Qed.

Lemma statusError_nil s : statusError s = [] <-> In s statusEnum.
Proof.
  unfold statusError, Validation.isIn.
  destruct (existsb (String.eqb s) statusEnum) eqn:E.
  - split; auto. intros _. apply existsb_exists in E as [x [Hx E]].
    apply String.eqb_eq in E. now subst.
  - split; [ discriminate | ]. intros H.
    assert (T : existsb (String.eqb s) statusEnum = true).
    { apply existsb_exists. exists s. split; auto. apply String.eqb_refl. }
    congruence.
Qed.

Lemma commentError_nil c :
  commentError c = [] <-> (1 <= String.length (comment_content c) <= 500)%nat.
Proof.
  unfold commentError. destruct (comment_content c =? "") eqn:E.
  - apply String.eqb_eq in E. rewrite E. simpl. split; [ discriminate | lia ].
  - apply String.eqb_neq in E.
    assert (String.length (comment_content c) <> 0)%nat.
    { destruct (comment_content c); simpl; congruence. }
    destruct (500 <? String.length (comment_content c))%nat eqn:E2.
    + apply Nat.ltb_lt in E2. split; [ discriminate | lia ].
    + apply Nat.ltb_ge in E2. split; auto. intros _. lia.
Qed.

Lemma commentErrors_nil l :
  flat_map commentError l = [] <->
  (forall c, In c l -> (1 <= String.length (comment_content c) <= 500)%nat).
Proof.
  induction l as [|x r IH]; simpl.
  - split; auto. intros _ c [].
  - split.
    + intros H. apply app_eq_nil in H as [H1 H2]. intros c [<- | Hc].
      * now apply commentError_nil.
      * now apply IH.
    + intros H. rewrite (proj2 (commentError_nil x)) by auto. simpl.
      apply IH. auto.
Qed.

Lemma validateSync_nil d : validateSync d = [] <-> History.validPost (fields d).
Proof.
  unfold validateSync, History.validPost. cbv zeta.
  rewrite <- titleError_nil, <- contentError_nil, <- excerptError_nil, <- statusError_nil,
    <- commentErrors_nil.
  split.
  - intros H. apply app_eq_nil in H as [H1 H]. apply app_eq_nil in H as [H2 H].
    apply app_eq_nil in H as [H3 H]. apply app_eq_nil in H as [H4 H5]. auto.
  - intros (H1 & H2 & H3 & H4 & H5). now rewrite H1, H2, H3, H4, H5.
Qed.

Lemma validateSync_cons d m ms : validateSync d = m :: ms -> ~ History.validPost (fields d).
Proof. intros H C. apply validateSync_nil in C. congruence. Qed.

(** *** [getPost] *)

Lemma getPost_found now reqUser identifier coll post :
  find (getPostQuery reqUser identifier) coll = Some post ->
  getPost now reqUser identifier coll =
  match validateSync (hydrate post) with
  | m :: ms => (Failure 400 "Validation Error" (m :: ms), coll)
  | [] =>
      if N.eqb (Js.plusOne (Js.number (views post))) (Js.number (views post))
      then (Json 200 "" post, coll)
      else (Json 200 "" (with_updatedAt now
                           (with_views (Js.plusOne (Js.number (views post))) post)),
            replaceById (with_updatedAt now
                           (with_views (Js.plusOne (Js.number (views post))) post)) coll)
  end.
Proof.
  intros H. unfold getPost. rewrite H.
  unfold set_views, assign, hydrate. cbn [isNew fields orb].
  destruct (N.eqb (Js.plusOne (Js.number (views post))) (Js.number (views post)));
    cbn [negb]; unfold save;
    match goal with
    | |- context [validateSync ?d] =>
        change (validateSync d) with (validateSync (mkDoc post false []))
    end;
    destruct (validateSync (mkDoc post false [])); reflexivity.
Qed.

Lemma getPost_missing now reqUser identifier coll :
  find (getPostQuery reqUser identifier) coll = None ->
  getPost now reqUser identifier coll = (Failure 404 "Post not found" [], coll).
Proof. intros H. unfold getPost. now rewrite H. Qed.

(** A view of a post found, when the stored count is below 2^53. *)
Lemma getPost_counted now reqUser identifier coll post :
  find (getPostQuery reqUser identifier) coll = Some post ->
  History.validPost post ->
  (views post < 9007199254740992)%N ->
  getPost now reqUser identifier coll =
  (Json 200 "" (with_updatedAt now (with_views (views post + 1) post)),
   replaceById (with_updatedAt now (with_views (views post + 1) post)) coll).
Proof.
  intros H Hv Hlt. rewrite (getPost_found _ _ _ _ _ H).
  rewrite (proj2 (validateSync_nil (hydrate post)) Hv).
  rewrite (number_exact _ Hlt), (plusOne_exact _ Hlt).
  assert (E : N.eqb (views post + 1) (views post) = false) by (apply N.eqb_neq; lia).
  now rewrite E.
Qed.

Lemma with_same p : with_updatedAt (updatedAt p) (with_views (views p) p) = p.
Proof. now destruct p. Qed.

(** *** The error handler *)

Lemma errorHandler_failure {A} (e : JsError) :
  exists code msg errs, @ErrorHandler.errorHandler A e = Failure code msg errs.
Proof.
  unfold ErrorHandler.errorHandler.
  repeat match goal with
  | |- context [if ?c then _ else _] => destruct c
  | |- context [match ?c with Some _ => _ | None => _ end] => destruct c
  | |- context [match ?c with 0 => _ | S _ => _ end] => destruct c
  end; eauto.
Qed.

(** *** Listing *)

Lemma insertBy_perm before x l : Permutation (insertBy before x l) (x :: l).
Proof.
  induction l as [|y r IH]; simpl; auto.
  destruct (before x y); auto.
  rewrite IH. apply perm_swap.
Qed.

Lemma sortDocs_perm sortBy direction l : Permutation (sortDocs sortBy direction l) l.
Proof.
  unfold sortDocs. induction l as [|x r IH]; simpl; auto.
  rewrite insertBy_perm. now constructor.
Qed.

Lemma in_window {A} (x : A) n m l : In x (firstn n (skipn m l)) -> In x l.
Proof.
  intros H.
  rewrite <- (firstn_skipn m l). apply in_or_app. right.
  rewrite <- (firstn_skipn n (skipn m l)). apply in_or_app. now left.
Qed.

Lemma getPosts_json compileRegExp reqUser q coll code msg page :
  getPosts compileRegExp reqUser q coll = Some (Json code msg page) ->
  exists query pg lim,
    buildQuery compileRegExp reqUser q = inr query
    /\ match q_page q with Some s => Js.parseInt s | None => Some 1%Z end = Some pg
    /\ match q_limit q with Some s => Js.parseInt s | None => Some 10%Z end = Some lim
    /\ (1 <= pg)%Z /\ (1 <= lim)%Z
    /\ code = 200
    /\ page =
       let found := filter (matches query) coll in
       let sorted := sortDocs (match q_sortBy q with Some s => s | None => "createdAt" end)
                              (if match q_sortOrder q with Some s => s | None => "desc" end =? "desc"
                               then (-1)%Z else 1%Z) found in
       mkPage (firstn (Z.to_nat lim) (skipn (Z.to_nat ((pg - 1) * lim)) sorted))
              (mkPagination pg (Js.ceilDiv (Z.of_nat (List.length found)) lim)
                            (Z.of_nat (List.length found))
                            (pg <? Js.ceilDiv (Z.of_nat (List.length found)) lim)%Z
                            (1 <? pg)%Z lim).
Proof.
  unfold getPosts. intros H.
  destruct (buildQuery compileRegExp reqUser q) as [e|query].
  { destruct (@errorHandler_failure PostsPage e) as (c & m & es & E). rewrite E in H. discriminate. }
  destruct (match q_page q with Some s => Js.parseInt s | None => Some 1%Z end) as [pg|];
    [ | discriminate ].
  destruct (match q_limit q with Some s => Js.parseInt s | None => Some 10%Z end) as [lim|];
    [ | discriminate ].
  cbv zeta in H.
  destruct ((1 <=? pg)%Z && (1 <=? lim)%Z && _ && _) eqn:Eb; [ | discriminate ].
  apply andb_true_iff in Eb as [Eb _]. apply andb_true_iff in Eb as [Eb _].
  apply andb_true_iff in Eb as [E1 E2]. apply Z.leb_le in E1, E2.
  inversion H. subst. exists query, pg, lim. repeat split; auto.
Qed.

Lemma getPosts_ok compileRegExp reqUser q coll query pg lim :
  buildQuery compileRegExp reqUser q = inr query ->
  match q_page q with Some s => Js.parseInt s | None => Some 1%Z end = Some pg ->
  match q_limit q with Some s => Js.parseInt s | None => Some 10%Z end = Some lim ->
  (1 <= pg)%Z -> (1 <= lim)%Z ->
  ((pg - 1) * lim < Js.maxExact)%Z ->
  (Z.of_nat (List.length (filter (matches query) coll)) < Js.maxExact)%Z ->
  getPosts compileRegExp reqUser q coll =
  Some (Json 200 ""
       (mkPage (firstn (Z.to_nat lim)
                       (skipn (Z.to_nat ((pg - 1) * lim))
                              (sortDocs (match q_sortBy q with Some s => s | None => "createdAt" end)
                                        (if match q_sortOrder q with Some s => s | None => "desc" end
                                            =? "desc" then (-1)%Z else 1%Z)
                                        (filter (matches query) coll))))
               (mkPagination pg
                             (Js.ceilDiv (Z.of_nat (List.length (filter (matches query) coll))) lim)
                             (Z.of_nat (List.length (filter (matches query) coll)))
                             (pg <? Js.ceilDiv (Z.of_nat (List.length (filter (matches query) coll))) lim)%Z
                             (1 <? pg)%Z lim))).
Proof.
  intros Hb Hp Hl H1 H2 H3 H4. unfold getPosts. rewrite Hb, Hp, Hl. cbv zeta.
  apply Z.leb_le in H1, H2. apply Z.ltb_lt in H3, H4.
  rewrite H1, H2, H3, H4. reflexivity.
Qed.

Lemma buildQuery_status compileRegExp reqUser q query :
  buildQuery compileRegExp reqUser q = inr query ->
  f_status query =
  if Js.truthy (q_status q) then q_status q
  else if notAdmin reqUser then Some "published" else None.
Proof.
  unfold buildQuery. destruct (Js.truthy (q_search q)).
  - destruct (compileRegExp _); simpl; [ discriminate | ].
    intros H. inversion H. reflexivity.
  - intros H. inversion H. reflexivity.
Qed.

Lemma matches_status query p s :
  f_status query = Some s -> matches query p = true -> status p = s.
Proof.
  unfold matches. intros ->. rewrite !andb_true_iff. intros [[[H _] _] _].
  now apply String.eqb_eq.
Qed.

(** *** Unique ids *)

Lemma unique_id coll p q :
  NoDup (map _id coll) -> In p coll -> In q coll -> _id q = _id p -> q = p.
Proof.
  induction coll as [|x r IH]; simpl; [ tauto | ].
  intros Hnd [-> | Hp] [-> | Hq] E; auto; inversion Hnd; subst.
  - exfalso. apply H1. rewrite <- E. now apply in_map.
  - exfalso. apply H1. rewrite E. now apply in_map.
  - auto.
Qed.

Lemma find_first {A} (f : A -> bool) l x :
  In x l -> f x = true -> (forall y, In y l -> f y = true -> y = x) -> find f l = Some x.
Proof.
  intros Hx Hf Hu. destruct (find f l) as [y|] eqn:E.
  - apply find_some in E as [H1 H2]. f_equal. auto.
  - apply (find_none _ _ E) in Hx. congruence.
Qed.

Lemma find_absent {A} (f : A -> bool) l :
  (forall y, In y l -> f y = false) -> find f l = None.
Proof.
  intros H. destruct (find f l) as [y|] eqn:E; auto.
  apply find_some in E as [H1 H2]. rewrite (H _ H1) in H2. discriminate.
Qed.

Lemma notAdmin_admin u : role u = "admin" -> notAdmin (Some u) = false.
Proof. intros E. simpl. now rewrite E. Qed.

(** C8, as amended.  A [getPost] that succeeds, whatever the identifier
    (an id or a slug) and whoever the requester (the author included),
    found a post that satisfies the schema; when the stored view counter
    is below 2^53 it returns the post with the counter one higher, writes
    exactly that document back under its id and leaves every other id as
    it was, and when the counter is 2^53 it returns the post as stored
    and writes nothing.  A [getPost] that fails leaves the collection
    unchanged; it answers 404 when it finds no post, and 400 when the
    post it finds breaks the schema. *)
Theorem C8_view_increments_counter_by_one :
  forall now reqUser identifier coll,
    match getPost now reqUser identifier coll with
    | (Json code _ post', coll') =>
        code = 200
        /\ exists post,
            find (getPostQuery reqUser identifier) coll = Some post
            /\ History.validPost post
            /\ ((views post < 9007199254740992)%N ->
                views post' = (views post + 1)%N
                /\ post' = with_updatedAt now (with_views (views post + 1) post)
                /\ coll' = replaceById post' coll
                /\ findById (_id post) coll' = Some post'
                /\ (forall id, id <> _id post -> findById id coll' = findById id coll))
            /\ (views post = 9007199254740992%N -> post' = post /\ coll' = coll)
    | (Failure code _ _, coll') =>
        coll' = coll
        /\ ((code = 404 /\ find (getPostQuery reqUser identifier) coll = None)
            \/ (code = 400
                /\ exists post,
                    find (getPostQuery reqUser identifier) coll = Some post
                    /\ ~ History.validPost post))
    end.
Proof.
  intros now reqUser identifier coll.
  destruct (find (getPostQuery reqUser identifier) coll) as [post|] eqn:E.
  - rewrite (getPost_found _ _ _ _ _ E).
    destruct (validateSync (hydrate post)) as [|m ms] eqn:Ev.
    + assert (Hv : History.validPost post)
        by (apply (validateSync_nil (hydrate post)); exact Ev).
      destruct (N.eqb (Js.plusOne (Js.number (views post))) (Js.number (views post))) eqn:En.
      * split; [ reflexivity | ]. exists post.
        split; [ reflexivity | ]. split; [ exact Hv | ]. split.
        -- intros Hlt. exfalso.
           rewrite (number_exact _ Hlt), (plusOne_exact _ Hlt) in En.
           apply N.eqb_eq in En. lia.
        -- intros _. split; reflexivity.
      * split; [ reflexivity | ]. exists post.
        split; [ reflexivity | ]. split; [ exact Hv | ]. split.
        -- intros Hlt. rewrite (number_exact _ Hlt), (plusOne_exact _ Hlt).
           split; [ reflexivity | ]. split; [ reflexivity | ]. split; [ reflexivity | ].
           split.
           ++ apply (findById_replaceById
                       (with_updatedAt now (with_views (views post + 1) post))).
              exists post. split; [ now apply find_some in E | reflexivity ].
           ++ intros id Hne. now apply findById_replaceById_other.
        -- intros Heq. exfalso. rewrite Heq in En. vm_compute in En. discriminate.
    + split; [ reflexivity | ]. right. split; [ reflexivity | ].
      exists post. split; [ reflexivity | ].
      exact (validateSync_cons (hydrate post) m ms Ev).
  - rewrite (getPost_missing _ _ _ _ E). auto.
Qed.

Lemma getPost_cases_found now reqUser identifier coll post :
  find (getPostQuery reqUser identifier) coll = Some post ->
  (exists m ms, getPost now reqUser identifier coll
                = (Failure 400 "Validation Error" (m :: ms), coll)
                /\ ~ History.validPost post)
  \/ (History.validPost post
      /\ exists v t,
          fst (getPost now reqUser identifier coll)
          = Json 200 "" (with_updatedAt t (with_views v post))
          /\ (snd (getPost now reqUser identifier coll) = coll
              \/ snd (getPost now reqUser identifier coll)
                 = replaceById (with_updatedAt t (with_views v post)) coll)).
Proof.
  intros E. rewrite (getPost_found _ _ _ _ _ E).
  destruct (validateSync (hydrate post)) as [|m ms] eqn:Ev.
  - right. split; [ apply (validateSync_nil (hydrate post)); exact Ev | ].
    destruct (N.eqb _ _).
    + exists (views post), (updatedAt post). rewrite with_same. auto.
    + eexists. eexists. split; [ reflexivity | right; reflexivity ].
  - left. exists m, ms. split; [ reflexivity | ].
    exact (validateSync_cons (hydrate post) m ms Ev).
Qed.

Lemma getPost_nonadmin_published now reqUser identifier coll :
  notAdmin reqUser = true ->
  match getPost now reqUser identifier coll with
  | (Json _ _ post', _) => status post' = "published"
  | (Failure code _ _, coll') => (code = 404 \/ code = 400) /\ coll' = coll
  end.
Proof.
  intros Hna.
  destruct (find (getPostQuery reqUser identifier) coll) as [post|] eqn:E.
  - assert (Hs : status post = "published").
    { apply find_some in E as [_ E]. unfold getPostQuery in E. rewrite Hna in E.
      apply andb_true_iff in E as [_ E]. now apply String.eqb_eq. }
    destruct (getPost_cases_found now _ _ _ _ E)
      as [(m & ms & -> & _) | (_ & v & t & H & _)]; [ auto | ].
    destruct (getPost now reqUser identifier coll) as [[c m p'|c m es] coll'];
      simpl in H; [ | discriminate ].
    inversion H. exact Hs.
  - rewrite (getPost_missing _ _ _ _ E). auto.
Qed.

Lemma getPosts_nonadmin_published compileRegExp reqUser q coll code msg page :
  notAdmin reqUser = true ->
  Js.truthy (q_status q) = false ->
  getPosts compileRegExp reqUser q coll = Some (Json code msg page) ->
  forall x, In x (posts page) -> status x = "published".
Proof.
  intros Hna Hq H x Hx.
  apply getPosts_json in H as (query & pg & lim & Hb & _ & _ & _ & _ & _ & ->).
  simpl in Hx. apply in_window in Hx.
  apply (Permutation_in _ (sortDocs_perm _ _ _)) in Hx.
  apply filter_In in Hx as [_ Hm].
  apply buildQuery_status in Hb. rewrite Hq, Hna in Hb.
  eapply matches_status; eauto.
Qed.

(** C1, as amended.  For a draft post [p] of a collection with unique ids:
    [getPost] answers 404 to every requester who is anonymous or not an
    admin, the author of [p] included, and such a requester never receives
    a post that is not published; an admin who asks for [p] by its id
    receives it, equal to [p] but for the view counter and [updatedAt]
    that the view changes, when [p] satisfies the schema, and is answered
    400 when it does not; [getPosts] without a status filter leaves [p]
    out for a requester who is anonymous or not an admin, puts no
    condition on the status for an admin, and lists [p] for an admin when
    nothing else filters or pages it away. *)
Theorem C1_draft_visibility :
  forall now compileRegExp coll p,
    NoDup (map _id coll) ->
    In p coll ->
    Validation.isValidObjectId (_id p) = true ->
    Js.toLowerCase (_id p) = _id p ->
    status p = "draft" ->
    (* view by a requester who is anonymous or not an admin, the author included *)
    (forall reqUser,
        notAdmin reqUser = true ->
        getPost now reqUser (_id p) coll = (Failure 404 "Post not found" [], coll))
    /\ (forall reqUser identifier,
        notAdmin reqUser = true ->
        match getPost now reqUser identifier coll with
        | (Json _ _ post', _) => status post' = "published"
        | (Failure code _ _, coll') => (code = 404 \/ code = 400) /\ coll' = coll
        end)
    (* view by an admin *)
    /\ (forall u,
        role u = "admin" ->
        History.validPost p ->
        exists post',
          fst (getPost now (Some u) (_id p) coll) = Json 200 "" post'
          /\ with_updatedAt (updatedAt p) (with_views (views p) post') = p
          /\ ((views p < 9007199254740992)%N ->
              post' = with_updatedAt now (with_views (views p + 1) p)))
    /\ (forall u,
        role u = "admin" ->
        ~ History.validPost p ->
        exists errs,
          getPost now (Some u) (_id p) coll = (Failure 400 "Validation Error" errs, coll))
    (* listing without a status filter, requester anonymous or not an admin *)
    /\ (forall reqUser q code msg page,
        notAdmin reqUser = true ->
        Js.truthy (q_status q) = false ->
        getPosts compileRegExp reqUser q coll = Some (Json code msg page) ->
        ~ In p (posts page))
    (* listing without a status filter, requester an admin *)
    /\ (forall u q query,
        role u = "admin" ->
        Js.truthy (q_status q) = false ->
        buildQuery compileRegExp (Some u) q = inr query ->
        f_status query = None)
    /\ (forall u,
        role u = "admin" ->
        (List.length coll <= 10)%nat ->
        exists page,
          getPosts compileRegExp (Some u) (mkQuery None None None None None None None None) coll
          = Some (Json 200 "" page)
          /\ In p (posts page)).
Proof.
  intros now compileRegExp coll p Hnd Hp Hv Hl Hs.
  assert (Hfind : forall u, role u = "admin" ->
                            find (getPostQuery (Some u) (_id p)) coll = Some p).
  { intros u Hu. apply find_first; auto.
    + unfold getPostQuery. rewrite Hv, Hl, String.eqb_refl, (notAdmin_admin _ Hu). reflexivity.
    + intros y Hy E. unfold getPostQuery in E. rewrite Hv, Hl in E.
      apply andb_true_iff in E as [E _]. apply String.eqb_eq in E.
      eapply unique_id; eauto. }
  split; [ | split; [ | split; [ | split; [ | split; [ | split ] ] ] ] ].
  - intros reqUser Hna. apply getPost_missing. apply find_absent.
    intros y Hy. unfold getPostQuery. rewrite Hv, Hl, Hna.
    destruct (_id y =? _id p) eqn:E; auto. apply String.eqb_eq in E.
    rewrite (unique_id _ _ _ Hnd Hp Hy E), Hs. reflexivity.
  - intros reqUser identifier Hna. now apply getPost_nonadmin_published.
  - intros u Hu Hvalid. specialize (Hfind u Hu).
    destruct (Z.of_N (views p) <? Js.maxExact)%Z eqn:Hlt.
    + apply Z.ltb_lt in Hlt. unfold Js.maxExact in Hlt.
      assert (Hlt' : (views p < 9007199254740992)%N) by lia.
      rewrite (getPost_counted _ _ _ _ _ Hfind Hvalid Hlt').
      eexists. split; [ reflexivity | ]. split; [ now destruct p | auto ].
    + apply Z.ltb_ge in Hlt. unfold Js.maxExact in Hlt.
      destruct (getPost_cases_found now _ _ _ _ Hfind)
        as [(m & ms & _ & C) | (_ & v & t & -> & _)]; [ contradiction | ].
      eexists. split; [ reflexivity | ]. split; [ now destruct p | ]. lia.
  - intros u Hu Hbad. specialize (Hfind u Hu).
    destruct (getPost_cases_found now _ _ _ _ Hfind)
      as [(m & ms & -> & _) | (C & _)]; [ eauto | contradiction ].
  - intros reqUser q code msg page Hna Hq H Hin.
    pose proof (getPosts_nonadmin_published _ _ _ _ _ _ _ Hna Hq H _ Hin) as C.
    rewrite Hs in C. discriminate.
  - intros u q query Hu Hq Hb. apply buildQuery_status in Hb.
    now rewrite Hq, (notAdmin_admin _ Hu) in Hb.
  - intros u Hu Hlen.
    assert (Hb : buildQuery compileRegExp (Some u) (mkQuery None None None None None None None None)
                 = inr (mkFilter None None None None)).
    { unfold buildQuery. simpl. now rewrite Hu. }
    rewrite (getPosts_ok _ _ _ coll _ 1%Z 10%Z Hb);
      [ | reflexivity | reflexivity | lia | lia | reflexivity
        | pose proof (filter_length_le (matches (mkFilter None None None None)) coll);
          unfold Js.maxExact; lia ].
    eexists. split; [ reflexivity | ]. cbv [posts].
    assert (Hf : filter (matches (mkFilter None None None None)) coll = coll).
    { clear. induction coll; simpl; auto. now rewrite IHcoll. }
    rewrite Hf. change (Z.to_nat ((1 - 1) * 10)) with 0%nat. rewrite skipn_O.
    rewrite firstn_all2.
    + apply (Permutation_in _ (Permutation_sym (sortDocs_perm _ _ _))). assumption.
    + rewrite (Permutation_length (sortDocs_perm _ _ _)).
      change (Z.to_nat 10) with 10%nat. lia.
Qed.

(** *** [updatePost] *)

Lemma updatePost_json categories now user id body coll code msg post' coll' :
  updatePost categories now user id body coll = (Json code msg post', coll') ->
  exists post,
    Validation.isValidObjectId id = true
    /\ findById (Js.toLowerCase id) coll = Some post
    /\ (author post = user_id user \/ role user = "admin")
    /\ save now (updateFields body (hydrate post)) coll = inr (post', coll')
    /\ code = 200.
Proof.
  unfold updatePost.
  destruct (Validation.isValidObjectId id); simpl; [ | discriminate ].
  destruct (findById (Js.toLowerCase id) coll) as [post|]; [ | discriminate ].
  destruct (negb (author post =? user_id user) && negb (role user =? "admin")) eqn:Ea;
    [ discriminate | ].
  repeat match goal with
  | |- (if ?c then _ else _) = _ -> _ => destruct c; [ discriminate | ]
  end.
  destruct (save now (updateFields body (hydrate post)) coll) as [e|[p c]] eqn:Es.
  - destruct (@errorHandler_failure Post e) as (c0 & m & es & E). rewrite E. discriminate.
  - intros H. inversion H. subst. exists post. repeat split; auto.
    apply andb_false_iff in Ea as [Ea | Ea]; apply negb_false_iff, String.eqb_eq in Ea; auto.
Qed.

Lemma updatePost_failure categories now user id body coll code msg errs coll' :
  updatePost categories now user id body coll = (Failure code msg errs, coll') ->
  coll' = coll.
Proof.
  unfold updatePost.
  repeat match goal with
  | |- (if ?c then _ else _) = _ -> _ => destruct c; [ now inversion 1 | ]
  | |- match ?c with Some _ => _ | None => _ end = _ -> _ => destruct c; [ | now inversion 1 ]
  end.
  destruct (save _ _ _) as [e|[saved c]]; inversion 1; reflexivity.
Qed.

(** C7, as amended.  [updatePost] fails with 400 when the id is not 24
    hexadecimal digits, with 404 when the id is well formed and no post
    has it, and with 403 when the post exists and the requester is
    neither its author nor an admin; whenever it fails, for these or any
    other reason, the collection is left as it was. *)
Theorem C7_update_failures :
  forall categories now user id body coll,
    (Validation.isValidObjectId id = false ->
     updatePost categories now user id body coll = (Failure 400 "Invalid post ID" [], coll))
    /\ (Validation.isValidObjectId id = true ->
        findById (Js.toLowerCase id) coll = None ->
        updatePost categories now user id body coll = (Failure 404 "Post not found" [], coll))
    /\ (forall post,
        Validation.isValidObjectId id = true ->
        findById (Js.toLowerCase id) coll = Some post ->
        author post <> user_id user ->
        role user <> "admin" ->
        updatePost categories now user id body coll
        = (Failure 403 "Not authorized to update this post" [], coll))
    /\ (forall code msg errs coll',
        updatePost categories now user id body coll = (Failure code msg errs, coll') ->
        coll' = coll).
Proof.
  intros categories now user id body coll. repeat split.
  - intros H. unfold updatePost. now rewrite H.
  - intros H1 H2. unfold updatePost. now rewrite H1, H2.
  - intros post H1 H2 H3 H4. unfold updatePost. rewrite H1, H2. simpl.
    apply String.eqb_neq in H3, H4. now rewrite H3, H4.
  - intros. eapply updatePost_failure; eauto.
Qed.

(** The document an accepted update works on. *)
Lemma update_doc_facts body post :
  isNew (updateFields body (hydrate post)) = false
  /\ _id (fields (updateFields body (hydrate post))) = _id post
  /\ slug (fields (updateFields body (hydrate post))) = slug post
  /\ publishedAt (fields (updateFields body (hydrate post))) = publishedAt post
  /\ isModified P_slug (updateFields body (hydrate post)) = false.
Proof.
  repeat split.
  - now rewrite updateFields_isNew.
  - now rewrite (updateFields_frame _id).
  - now rewrite (updateFields_frame slug).
  - now rewrite (updateFields_frame publishedAt).
  - now rewrite updateFields_isModified_other.
Qed.

Lemma save_loaded_stored now d coll p' coll' post :
  isNew d = false ->
  findById (_id (fields d)) coll = Some post ->
  (modifiedPaths d = [] -> fields d = post) ->
  save now d coll = inr (p', coll') ->
  findById (_id (fields d)) coll' = Some p'.
Proof.
  intros Hn Hf Hu Hs.
  assert (Hid : _id p' = _id (fields d)).
  { apply save_inr in Hs as [_ ->].
    rewrite (preSave_frame _id), (timestamps_frame _id); auto. }
  destruct (save_loaded _ _ _ _ _ Hn Hs) as [(Hm & -> & ->) | (Hm & ->)].
  - rewrite Hf. f_equal. symmetry. auto.
  - rewrite <- Hid. apply findById_replaceById.
    exists post. apply findById_id in Hf as [E Hin]. split; auto. congruence.
Qed.

Lemma update_stored categories now user id body coll code msg post' coll' :
  updatePost categories now user id body coll = (Json code msg post', coll') ->
  findById (Js.toLowerCase id) coll' = Some post'.
Proof.
  intros H. apply updatePost_json in H as (post & Hv & Hf & _ & Hs & _).
  destruct (update_doc_facts body post) as (Hn & Hid & _).
  pose proof (findById_id _ _ _ Hf) as [E _].
  assert (Hk : Js.toLowerCase id = _id (fields (updateFields body (hydrate post))))
    by congruence.
  rewrite Hk in *.
  apply (save_loaded_stored now _ coll post' coll' post Hn Hf); auto.
  intros Hm. destruct (updateFields_grows body (hydrate post)) as [-> | C]; auto.
  contradiction.
Qed.

(** C3.  After an accepted [updatePost] the stored post is the one
    returned; if its [publishedAt] was unset and the update took the
    status from something else to [published], [publishedAt] is the
    current time; if [publishedAt] was set, the update leaves it as it
    was, whatever it does to the status. *)
Theorem C3_publishedAt_stamped_once :
  forall categories now user id body coll code msg post' coll',
    updatePost categories now user id body coll = (Json code msg post', coll') ->
    exists post,
      findById (Js.toLowerCase id) coll = Some post
      /\ findById (Js.toLowerCase id) coll' = Some post'
      /\ (publishedAt post = None ->
          status post <> "published" ->
          status post' = "published" ->
          publishedAt post' = Some now)
      /\ (forall t, publishedAt post = Some t -> publishedAt post' = Some t).
Proof.
  intros categories now user id body coll code msg post' coll' H.
  pose proof (update_stored _ _ _ _ _ _ _ _ _ _ H) as Hst.
  apply updatePost_json in H as (post & Hv & Hf & _ & Hs & _).
  exists post. split; auto. split; auto.
  apply save_inr in Hs as [_ ->].
  rewrite preSave_publishedAt, timestamps_isModified.
  rewrite (timestamps_frame status), (timestamps_frame publishedAt) by reflexivity.
  rewrite (preSave_frame status), (timestamps_frame status) by reflexivity.
  destruct (update_doc_facts body post) as (_ & _ & _ & Hp & _). rewrite Hp.
  split.
  - intros Hnone Hdraft Hpub. rewrite Hnone.
    rewrite updateFields_status_modified by congruence.
    rewrite Hpub. reflexivity.
  - intros t Ht. rewrite Ht, andb_false_r. reflexivity.
Qed.

(** *** Slugs *)

Lemma slugOrHyphen_fixed c :
  slugOrHyphen c = true -> Js.lowerChar c = c /\ Js.isWhiteSpace c = false.
Proof.
  destruct c as [[] [] [] [] [] [] [] []]; vm_compute; intros H;
    (discriminate H || (split; reflexivity)).
Qed.

Lemma hyphenate_chars inRun l : Forall (fun c => slugOrHyphen c = true) (hyphenate inRun l).
Proof.
  revert inRun. induction l as [|c r IH]; intros inRun; simpl; auto.
  destruct (Js.isSlugChar c) eqn:E.
  - constructor; auto. unfold slugOrHyphen. now rewrite E.
  - destruct inRun; auto.
Qed.

Lemma dropLeadingHyphen_Forall (P : ascii -> Prop) l :
  Forall P l -> Forall P (dropLeadingHyphen l).
Proof.
  intros H. destruct l as [|c r]; simpl; auto.
  destruct (Ascii.ascii_dec c "-") as [->|Hne].
  - now inversion H.
  - destruct c as [[] [] [] [] [] [] [] []]; auto; now inversion H.
Qed.

Lemma stripHyphens_Forall (P : ascii -> Prop) l : Forall P l -> Forall P (stripHyphens l).
Proof.
  intros H. unfold stripHyphens.
  apply Forall_rev, dropLeadingHyphen_Forall, Forall_rev, dropLeadingHyphen_Forall, H.
Qed.

Lemma chars_str l : Js.chars (Js.str l) = l.
Proof. apply list_ascii_of_string_of_list_ascii. Qed.

Lemma slugify_chars t :
  Forall (fun c => slugOrHyphen c = true) (Js.chars (slugify t)).
Proof.
  unfold slugify. rewrite chars_str. apply stripHyphens_Forall, hyphenate_chars.
Qed.

Lemma dropWhile_none {A} (f : A -> bool) l :
  Forall (fun c => f c = false) l -> Js.dropWhile f l = l.
Proof. intros H. destruct H as [|c r Hc Hr]; simpl; auto. now rewrite Hc. Qed.

Lemma slugSetter_fixed s :
  Forall (fun c => slugOrHyphen c = true) (Js.chars s) -> slugSetter s = s.
Proof.
  intros H. unfold slugSetter, Js.trim, Js.toLowerCase.
  assert (Hm : map Js.lowerChar (Js.chars s) = Js.chars s).
  { induction H as [|c r Hc Hr IH]; simpl; auto.
    rewrite IH. f_equal. now apply slugOrHyphen_fixed. }
  rewrite Hm, chars_str.
  assert (Hw : Forall (fun c => Js.isWhiteSpace c = false) (Js.chars s)).
  { eapply Forall_impl; [ | exact H ]. intros c Hc. now apply slugOrHyphen_fixed. }
  unfold Js.trimEndL, Js.trimStartL.
  rewrite (dropWhile_none _ _ Hw).
  rewrite (dropWhile_none _ (rev (Js.chars s))) by now apply Forall_rev.
  rewrite rev_involutive. apply string_of_list_ascii_of_string.
Qed.

Lemma slugSetter_slugify t : slugSetter (slugify t) = slugify t.
Proof. apply slugSetter_fixed, slugify_chars. Qed.

(** *** [findIndex] and [splice] *)

Lemma findIndex_range {A} (f : A -> bool) l :
  (-1 <= Js.findIndex f l < Z.of_nat (List.length l))%Z.
Proof.
  induction l as [|x r IH]; simpl; [ lia | ].
  destruct (f x); [ lia | ].
  destruct (Js.findIndex f r <? 0)%Z eqn:E; [ lia | ].
  apply Z.ltb_ge in E. lia.
Qed.

Lemma findIndex_absent {A} (f : A -> bool) l :
  Js.findIndex f l = (-1)%Z <-> existsb f l = false.
Proof.
  induction l as [|x r IH]; simpl; [ tauto | ].
  destruct (f x); simpl; [ split; discriminate | ].
  pose proof (findIndex_range f r) as R.
  destruct (Js.findIndex f r <? 0)%Z eqn:E.
  - apply Z.ltb_lt in E. rewrite <- IH. split; auto. intros _. lia.
  - apply Z.ltb_ge in E. rewrite <- IH. split; intros; lia.
Qed.

Lemma filter_all {A} (f : A -> bool) l : existsb (fun x => negb (f x)) l = false -> filter f l = l.
Proof.
  induction l as [|x r IH]; simpl; auto.
  destruct (f x); simpl; [ intros H; now rewrite IH | discriminate ].
Qed.

(** Removing the first match leaves exactly the entries that do not match,
    when at most one entry matches. *)
Lemma splice1_findIndex (uid : ObjectId) (l : list Like) :
  NoDup (map like_user l) ->
  existsb (fun like => like_user like =? uid) l = true ->
  Js.splice1 (Js.findIndex (fun like => like_user like =? uid) l) l
  = filter (fun like => negb (like_user like =? uid)) l.
Proof.
  induction l as [|x r IH]; simpl; [ discriminate | ].
  intros Hnd. inversion Hnd as [|? ? Hx Hr]; subst.
  destruct (like_user x =? uid) eqn:E; simpl.
  - intros _. unfold Js.splice1. simpl.
    symmetry. apply filter_all.
    apply String.eqb_eq in E. subst uid.
    apply not_true_is_false. intros Ex.
    apply existsb_exists in Ex as [y [Hy Ey]].
    rewrite negb_involutive in Ey. apply String.eqb_eq in Ey.
    apply Hx. rewrite <- Ey. now apply in_map.
  - intros Hex. specialize (IH Hr Hex).
    pose proof (findIndex_range (fun like => like_user like =? uid) r) as R.
    destruct (Js.findIndex _ r <? 0)%Z eqn:En.
    + apply Z.ltb_lt in En.
      assert (Hm : Js.findIndex (fun like => like_user like =? uid) r = (-1)%Z) by lia.
      apply findIndex_absent in Hm. congruence.
    + apply Z.ltb_ge in En. unfold Js.splice1 in *.
      replace (Z.to_nat (Js.findIndex (fun like => like_user like =? uid) r + 1))
        with (S (Z.to_nat (Js.findIndex (fun like => like_user like =? uid) r))) by lia.
      simpl. simpl in IH. now rewrite IH.
Qed.

Lemma NoDup_filter_map {A B} (g : A -> B) (f : A -> bool) l :
  NoDup (map g l) -> NoDup (map g (filter f l)).
Proof.
  induction l as [|x r IH]; simpl; auto.
  intros H. inversion H as [|? ? Hx Hr]; subst.
  destruct (f x); simpl; auto.
  constructor; auto. intros C. apply Hx.
  apply in_map_iff in C as [y [E Hy]]. apply filter_In in Hy as [Hy _].
  rewrite <- E. now apply in_map.
Qed.

Lemma toggled_liked now uid l :
  NoDup (map like_user l) ->
  existsb (fun like => like_user like =? uid) l = true ->
  toggled now uid l = filter (fun like => negb (like_user like =? uid)) l.
Proof.
  intros Hnd Hex. unfold toggled.
  pose proof (findIndex_range (fun like => like_user like =? uid) l) as R.
  destruct (-1 <? Js.findIndex _ l)%Z eqn:E.
  - now apply splice1_findIndex.
  - apply Z.ltb_ge in E.
    assert (Hm : Js.findIndex (fun like => like_user like =? uid) l = (-1)%Z) by lia.
    apply findIndex_absent in Hm. congruence.
Qed.

Lemma toggled_unliked now uid l :
  existsb (fun like => like_user like =? uid) l = false ->
  toggled now uid l = (l ++ [mkLike uid now])%list.
Proof.
  intros Hex. unfold toggled. apply findIndex_absent in Hex. now rewrite Hex.
Qed.

Lemma toggled_NoDup now uid l :
  NoDup (map like_user l) -> NoDup (map like_user (toggled now uid l)).
Proof.
  intros Hnd. destruct (existsb (fun like => like_user like =? uid) l) eqn:E.
  - rewrite toggled_liked by assumption. now apply NoDup_filter_map.
  - rewrite toggled_unliked by assumption. rewrite map_app. simpl.
    apply NoDup_app; auto.
    + constructor; [ intros [] | constructor ].
    + intros a Ha [<- | []].
      apply in_map_iff in Ha as [y [Ey Hy]].
      assert (C : existsb (fun like => like_user like =? uid) l = true).
      { apply existsb_exists. exists y. split; auto. now apply String.eqb_eq. }
      congruence.
Qed.

Lemma toggleLike_found now user id coll post :
  Validation.isValidObjectId id = true ->
  findById (Js.toLowerCase id) coll = Some post ->
  toggleLike now user id coll =
  match validateSync (hydrate post) with
  | m :: ms => (Failure 400 "Validation Error" (m :: ms), coll)
  | [] =>
      (Json 200
            (if (-1 <? Js.findIndex (fun like => (like_user like =? user_id user)%string)
                                    (likes post))%Z
             then "Post unliked" else "Post liked")
            (mkLikeData (List.length (toggled now (user_id user) (likes post)))
                        (Js.findIndex (fun like => (like_user like =? user_id user)%string)
                                      (likes post) =? -1)%Z),
       replaceById (with_updatedAt now
                      (with_likes (toggled now (user_id user) (likes post)) post)) coll)
  end.
Proof.
  intros Hv Hf. unfold toggleLike, toggled. rewrite Hv, Hf. simpl.
  destruct (-1 <? Js.findIndex _ (likes post))%Z;
    unfold save;
    match goal with
    | |- context [validateSync ?d] =>
        change (validateSync d) with (validateSync (hydrate post))
    end;
    destruct (validateSync (hydrate post)); reflexivity.
Qed.

Lemma toggleLike_valid now user id coll post :
  Validation.isValidObjectId id = true ->
  findById (Js.toLowerCase id) coll = Some post ->
  History.validPost post ->
  toggleLike now user id coll =
  (Json 200
        (if (-1 <? Js.findIndex (fun like => (like_user like =? user_id user)%string)
                                (likes post))%Z
         then "Post unliked" else "Post liked")
        (mkLikeData (List.length (toggled now (user_id user) (likes post)))
                    (Js.findIndex (fun like => (like_user like =? user_id user)%string)
                                  (likes post) =? -1)%Z),
   replaceById (with_updatedAt now
                  (with_likes (toggled now (user_id user) (likes post)) post)) coll).
Proof.
  intros Hv Hf Hvalid. rewrite (toggleLike_found _ _ _ _ _ Hv Hf).
  now rewrite (proj2 (validateSync_nil (hydrate post)) Hvalid).
Qed.

Lemma toggleLike_cases now user id coll :
  snd (toggleLike now user id coll) = coll
  \/ exists post,
      Validation.isValidObjectId id = true
      /\ findById (Js.toLowerCase id) coll = Some post
      /\ snd (toggleLike now user id coll)
         = replaceById (with_updatedAt now (with_likes (toggled now (user_id user) (likes post)) post)) coll.
Proof.
  destruct (Validation.isValidObjectId id) eqn:Hv.
  - destruct (findById (Js.toLowerCase id) coll) as [post|] eqn:Hf.
    + rewrite (toggleLike_found _ _ _ _ _ Hv Hf).
      destruct (validateSync (hydrate post)); [ | auto ].
      right. exists post. auto.
    + left. unfold toggleLike. now rewrite Hv, Hf.
  - left. unfold toggleLike. now rewrite Hv.
Qed.

Lemma findIndex_eqb {A} (f : A -> bool) l :
  (Js.findIndex f l =? -1)%Z = negb (existsb f l).
Proof.
  destruct (existsb f l) eqn:E; simpl.
  - apply Z.eqb_neq. intros C. apply findIndex_absent in C. congruence.
  - apply Z.eqb_eq. now apply findIndex_absent.
Qed.

Lemma findIndex_ltb {A} (f : A -> bool) l :
  (-1 <? Js.findIndex f l)%Z = existsb f l.
Proof.
  pose proof (findIndex_range f l) as R. pose proof (findIndex_absent f l) as H.
  destruct (existsb f l) eqn:E.
  - apply Z.ltb_lt. destruct (Z.eq_dec (Js.findIndex f l) (-1)) as [C|C]; [ | lia ].
    apply H in C. discriminate.
  - apply Z.ltb_ge. destruct H as [_ H]. rewrite H; auto. lia.
Qed.

Lemma existsb_filter_negb {A} (f : A -> bool) l :
  existsb f (filter (fun x => negb (f x)) l) = false.
Proof.
  induction l as [|x r IH]; simpl; auto.
  destruct (f x) eqn:E; simpl; auto. now rewrite E.
Qed.

Lemma length_filter_one (uid : ObjectId) (l : list Like) :
  NoDup (map like_user l) ->
  existsb (fun like => like_user like =? uid) l = true ->
  S (List.length (filter (fun like => negb (like_user like =? uid)) l)) = List.length l.
Proof.
  induction l as [|x r IH]; simpl; [ discriminate | ].
  intros Hnd. inversion Hnd as [|? ? Hx Hr]; subst.
  destruct (like_user x =? uid) eqn:E; simpl.
  - intros _. f_equal. f_equal. apply filter_all.
    apply String.eqb_eq in E. subst uid.
    apply not_true_is_false. intros Ex.
    apply existsb_exists in Ex as [y [Hy Ey]].
    rewrite negb_involutive in Ey. apply String.eqb_eq in Ey.
    apply Hx. rewrite <- Ey. now apply in_map.
  - intros Hex. f_equal. auto.
Qed.

Lemma filter_app_last (uid : ObjectId) (l : list Like) x :
  existsb (fun like => like_user like =? uid) l = false ->
  like_user x = uid ->
  filter (fun like => negb (like_user like =? uid)) (l ++ [x]) = l.
Proof.
  intros Hex Hx. rewrite filter_app. simpl. rewrite Hx, String.eqb_refl. simpl.
  rewrite app_nil_r. apply filter_all.
  rewrite <- Hex. clear. induction l as [|a r IH]; simpl; auto.
  now rewrite IH, negb_involutive.
Qed.

(** C2, as amended.  For a post found by its id that satisfies the schema
    and in which no user has more than one like entry: [toggleLike]
    removes the requester's entry if there is one (answering unliked, one
    like fewer, the other entries kept in order) and appends exactly one
    otherwise (answering liked, one like more); the answer carries the
    new like count and whether the requester now likes the post, which
    the stored post agrees with; and a second [toggleLike] by the same
    user brings back the original like count and the original liked
    state. *)
Theorem C2_toggleLike_toggles :
  forall now now' user id coll post,
    Validation.isValidObjectId id = true ->
    findById (Js.toLowerCase id) coll = Some post ->
    History.validPost post ->
    Lifecycle.oneLikePerUser post ->
    exists post1 coll1 msg1,
      toggleLike now user id coll
      = (Json 200 msg1
              (mkLikeData (likeCount post1) (negb (isLikedByUser post (user_id user)))),
         coll1)
      /\ findById (Js.toLowerCase id) coll1 = Some post1
      /\ isLikedByUser post1 (user_id user) = negb (isLikedByUser post (user_id user))
      /\ (isLikedByUser post (user_id user) = true ->
          msg1 = "Post unliked"
          /\ likes post1 = filter (fun like => negb (like_user like =? user_id user)) (likes post)
          /\ S (likeCount post1) = likeCount post)
      /\ (isLikedByUser post (user_id user) = false ->
          msg1 = "Post liked"
          /\ likes post1 = (likes post ++ [mkLike (user_id user) now])%list
          /\ likeCount post1 = S (likeCount post))
      /\ exists post2 coll2 msg2,
          toggleLike now' user id coll1
          = (Json 200 msg2 (mkLikeData (likeCount post2) (isLikedByUser post (user_id user))),
             coll2)
          /\ findById (Js.toLowerCase id) coll2 = Some post2
          /\ likeCount post2 = likeCount post
          /\ isLikedByUser post2 (user_id user) = isLikedByUser post (user_id user).
Proof.
  intros now now' user id coll post Hv Hf Hvalid Hnd.
  set (uid := user_id user). set (f := fun like => like_user like =? uid).
  pose proof (findById_id _ _ _ Hf) as [Hid Hin].
  set (post1 := with_updatedAt now (with_likes (toggled now uid (likes post)) post)).
  assert (Hf1 : findById (Js.toLowerCase id) (replaceById post1 coll) = Some post1).
  { rewrite <- Hid. apply (findById_replaceById post1). exists post. auto. }
  assert (Hnd1 : Lifecycle.oneLikePerUser post1) by (apply toggled_NoDup; exact Hnd).
  assert (Hvalid1 : History.validPost post1) by exact Hvalid.
  set (post2 := with_updatedAt now' (with_likes (toggled now' uid (likes post1)) post1)).
  assert (Hf2 : findById (Js.toLowerCase id) (replaceById post2 (replaceById post1 coll))
                = Some post2).
  { rewrite <- Hid. apply (findById_replaceById post2). exists post1. split; auto.
    apply findById_id in Hf1. tauto. }
  exists post1, (replaceById post1 coll).
  eexists. rewrite (toggleLike_valid now user id coll post Hv Hf Hvalid).
  fold uid. fold f. rewrite findIndex_eqb, findIndex_ltb.
  unfold isLikedByUser. fold uid. fold f.
  split; [ reflexivity | ]. split; [ exact Hf1 | ].
  destruct (existsb f (likes post)) eqn:Ex.
  - (* the requester had liked the post *)
    assert (Hl1 : likes post1 = filter (fun like => negb (f like)) (likes post)).
    { change (toggled now uid (likes post) = filter (fun like => negb (f like)) (likes post)).
      now apply toggled_liked. }
    assert (Hx1 : existsb f (likes post1) = false).
    { rewrite Hl1. apply existsb_filter_negb. }
    split; [ exact Hx1 | ]. split.
    { intros _. split; [ reflexivity | ]. split; [ exact Hl1 | ].
      unfold likeCount. rewrite Hl1. now apply length_filter_one. }
    split; [ discriminate | ].
    exists post2, (replaceById post2 (replaceById post1 coll)). eexists.
    rewrite (toggleLike_valid now' user id _ post1 Hv Hf1 Hvalid1).
    fold uid. fold f. rewrite findIndex_eqb, findIndex_ltb, Hx1.
    assert (Hl2 : likes post2 = (likes post1 ++ [mkLike uid now'])%list).
    { change (toggled now' uid (likes post1) = (likes post1 ++ [mkLike uid now'])%list).
      now apply toggled_unliked. }
    split; [ reflexivity | ]. split; [ exact Hf2 | ]. split.
    + unfold likeCount. rewrite Hl2, length_app, Hl1. simpl.
      rewrite Nat.add_1_r. now apply length_filter_one.
    + rewrite Hl2, existsb_app. simpl. unfold f at 2. simpl.
      rewrite String.eqb_refl. now rewrite orb_true_r.
  - (* the requester had not liked the post *)
    assert (Hl1 : likes post1 = (likes post ++ [mkLike uid now])%list).
    { change (toggled now uid (likes post) = (likes post ++ [mkLike uid now])%list).
      now apply toggled_unliked. }
    assert (Hx1 : existsb f (likes post1) = true).
    { rewrite Hl1, existsb_app. simpl. unfold f at 2. simpl.
      rewrite String.eqb_refl. now rewrite orb_true_r. }
    split; [ exact Hx1 | ]. split; [ discriminate | ]. split.
    { intros _. split; [ reflexivity | ]. split; [ exact Hl1 | ].
      unfold likeCount. rewrite Hl1, length_app. simpl. lia. }
    exists post2, (replaceById post2 (replaceById post1 coll)). eexists.
    rewrite (toggleLike_valid now' user id _ post1 Hv Hf1 Hvalid1).
    fold uid. fold f. rewrite findIndex_eqb, findIndex_ltb, Hx1.
    assert (Hl2 : likes post2 = likes post).
    { change (toggled now' uid (likes post1) = likes post).
      rewrite toggled_liked by assumption.
      rewrite Hl1. now apply filter_app_last. }
    split; [ reflexivity | ]. split; [ exact Hf2 | ]. split.
    + unfold likeCount. now rewrite Hl2.
    + now rewrite Hl2.
Qed.

(** *** Authentication middleware *)

Lemma optionalAuth_next verifyToken users authorization :
  exists reqUser, Auth.optionalAuth verifyToken users authorization = Auth.Next reqUser.
Proof.
  unfold Auth.optionalAuth.
  destruct (Auth.optionalAuthTry verifyToken users authorization); eauto.
Qed.

(** C6.  [optionalAuth] always hands the request on, never answering it
    with an error; when the header is absent or malformed, or carries no
    token, and when [verifyToken] rejects the token (invalid or expired),
    it attaches no identity. *)
Theorem C6_optionalAuth_never_fails :
  forall (verifyToken : string -> JsError + Auth.Claims) (users : list User)
         (authorization : option string),
    (exists reqUser, Auth.optionalAuth verifyToken users authorization = Auth.Next reqUser)
    /\ (Js.truthy (Auth.extractTokenFromHeader authorization) = false ->
        Auth.optionalAuth verifyToken users authorization = Auth.Next None)
    /\ (forall token error,
        Auth.extractTokenFromHeader authorization = Some token ->
        verifyToken token = inl error ->
        Auth.optionalAuth verifyToken users authorization = Auth.Next None).
Proof.
  intros verifyToken users authorization. repeat split.
  - apply optionalAuth_next.
  - intros H. unfold Auth.optionalAuth, Auth.optionalAuthTry. now rewrite H.
  - intros token error Ht Hv. unfold Auth.optionalAuth, Auth.optionalAuthTry.
    rewrite Ht. simpl. destruct (negb (token =? "")); auto. now rewrite Hv.
Qed.

(** C10.  With a token that verifies, if the account of the claims is
    not found or is deactivated, [optionalAuth] hands the request on with
    no identity attached, whereas [authenticate] answers 401. *)
Theorem C10_inactive_or_missing_account :
  forall (verifyToken : string -> JsError + Auth.Claims) (users : list User)
         (authorization : option string) token decoded,
    Auth.extractTokenFromHeader authorization = Some token ->
    token <> "" ->
    verifyToken token = inr decoded ->
    (Auth.findUserById users (Auth.claim_id decoded) = inr None
     \/ exists u, Auth.findUserById users (Auth.claim_id decoded) = inr (Some u)
                  /\ isActive u = false) ->
    Auth.optionalAuth verifyToken users authorization = Auth.Next None
    /\ exists message, Auth.authenticate verifyToken users authorization
                       = Auth.Respond 401 message.
Proof.
  intros verifyToken users authorization token decoded Ht Hne Hv Hu.
  apply String.eqb_neq in Hne.
  unfold Auth.optionalAuth, Auth.optionalAuthTry, Auth.authenticate, Auth.authenticateTry.
  rewrite Ht. simpl. rewrite Hne. simpl. rewrite Hv. simpl.
  destruct Hu as [Hu | [u [Hu Ha]]]; rewrite Hu; simpl.
  - split; eauto.
  - rewrite Ha. simpl. split; eauto.
Qed.

(** *** Numerals of the query string *)

Lemma digit_facts c :
  Js.isDigit c = true ->
  Js.isWhiteSpace c = false /\ ((c =? "x") || (c =? "X"))%char = false
  /\ c <> "-"%char /\ c <> "+"%char.
Proof.
  destruct c as [[] [] [] [] [] [] [] []]; vm_compute; intros H;
    (discriminate H || (repeat split; (reflexivity || discriminate))).
Qed.

Lemma digitsPrefix_all acc l v :
  Js.digitsPrefix acc l = (v, []) -> Forall (fun c => Js.isDigit c = true) l.
Proof.
  revert acc. induction l as [|c r IH]; intros acc H; simpl in H; auto.
  destruct (Js.isDigit c) eqn:E; [ | discriminate ].
  constructor; eauto.
Qed.

Lemma parseInt_digits (r : list ascii) :
  Forall (fun c => Js.isDigit c = true) r ->
  match r with
  | "0"%char :: x :: h =>
      if ((x =? "x") || (x =? "X"))%char
      then Js.hexPrefix None h
      else fst (Js.digitsPrefix None r)
  | _ => fst (Js.digitsPrefix None r)
  end = fst (Js.digitsPrefix None r).
Proof.
  intros H. destruct r as [|c [|x h]]; auto.
  - destruct c as [[] [] [] [] [] [] [] []]; reflexivity.
  - assert (Hx : ((x =? "x") || (x =? "X"))%char = false).
    { inversion H as [|? ? _ H2]; subst. inversion H2; subst. now apply digit_facts. }
    destruct c as [[] [] [] [] [] [] [] []]; try reflexivity.
    now rewrite Hx.
Qed.

(** A text that [isInt] accepts is read by [parseInt] as the Number for
    the same integer. *)
Lemma isInt_parseInt min max s :
  Validation.isInt min max s = true ->
  exists n, Js.parseInt s = Js.toNumber n
            /\ (forall lo, min = Some lo -> (lo <= n)%Z)
            /\ (forall hi, max = Some hi -> (n <= hi)%Z).
Proof.
  unfold Validation.isInt, Js.parseInt.
  destruct (Js.splitSign (Js.chars s)) as [sign r] eqn:Es.
  destruct (Js.digitsPrefix None r) as [[n|] [|c rest]] eqn:Ed; try discriminate.
  intros Hb. apply andb_true_iff in Hb as [H1 H2].
  pose proof (digitsPrefix_all _ _ _ Ed) as Hall.
  assert (Hr : r <> []) by (intros ->; discriminate Ed).
  assert (Ht : Js.trimStartL (Js.chars s) = Js.chars s).
  { unfold Js.trimStartL. unfold Js.splitSign in Es.
    destruct (Js.chars s) as [|c l]; auto.
    assert (Hw : Js.isWhiteSpace c = false).
    { destruct (Ascii.ascii_dec c "-") as [->|Hm]; [ reflexivity | ].
      destruct (Ascii.ascii_dec c "+") as [->|Hp]; [ reflexivity | ].
      assert (Er : r = c :: l).
      { destruct c as [[] [] [] [] [] [] [] []]; try congruence; inversion Es; reflexivity. }
      subst r. inversion Hall; subst. now apply digit_facts. }
    simpl. now rewrite Hw. }
  rewrite Ht, Es. cbv zeta. rewrite (parseInt_digits r Hall), Ed. cbn [fst].
  exists (sign * n)%Z. repeat split; auto.
  - intros lo ->. now apply Z.leb_le.
  - intros hi ->. now apply Z.leb_le.
Qed.

Lemma toNumber_positive n pg : (1 <= n)%Z -> Js.toNumber n = Some pg -> (1 <= pg)%Z.
Proof.
  unfold Js.toNumber. destruct (Js.roundsToFinite n); [ | discriminate ].
  intros H E. inversion E. now apply roundDouble_positive.
Qed.

Lemma optional_nil check message v :
  PostRoutes.optional check message v = [] ->
  match v with Some s => check s = true | None => True end.
Proof.
  unfold PostRoutes.optional. destruct v as [s|]; auto.
  destruct (check s); [ auto | discriminate ].
Qed.

Lemma getPostsValidation_limits q :
  PostRoutes.getPostsValidation q = [] ->
  (forall pg, match q_page q with Some s => Js.parseInt s | None => Some 1%Z end = Some pg ->
              (1 <= pg)%Z /\ (q_page q = None -> pg = 1%Z))
  /\ (exists lim, match q_limit q with Some s => Js.parseInt s | None => Some 10%Z end = Some lim
                  /\ (1 <= lim <= 100)%Z /\ (q_limit q = None -> lim = 10%Z)).
Proof.
  unfold PostRoutes.getPostsValidation. intros H.
  apply app_eq_nil in H as [Hp H]. apply app_eq_nil in H as [Hl _].
  apply optional_nil in Hp, Hl. split.
  - intros pg. destruct (q_page q) as [s|].
    + apply isInt_parseInt in Hp as (n & E & Hlo & _). rewrite E. intros Hn.
      split; [ | discriminate ].
      apply (toNumber_positive n); auto.
    + intros E. inversion E. split; [ lia | reflexivity ].
  - destruct (q_limit q) as [s|].
    + apply isInt_parseInt in Hl as (n & E & Hlo & Hhi).
      specialize (Hlo _ eq_refl). specialize (Hhi _ eq_refl).
      exists n. rewrite E, toNumber_exact by (unfold Js.maxExact; lia).
      repeat split; auto. discriminate.
    + exists 10%Z. repeat split; auto; lia.
Qed.

Lemma ceilDiv_bounds t l :
  (0 < l)%Z -> ((Js.ceilDiv t l - 1) * l < t <= Js.ceilDiv t l * l)%Z.
Proof.
  intros Hl. unfold Js.ceilDiv.
  pose proof (Z.div_mod (- t) l ltac:(lia)) as E.
  pose proof (Z.mod_pos_bound (- t) l Hl) as B.
  nia.
Qed.

(** C9.  The route of [getPosts] refuses a limit outside 1..100 with
    status 400.  A page that is returned has [currentPage] and [limit] as
    [parseInt] reads them from the request, 1 and 10 by default, with
    [1 <= currentPage] and [1 <= limit <= 100]; it holds the items from
    position [(currentPage - 1) * limit] on, at most [limit] of them, of
    the sorted matches, and reports their total number, [totalPages] as
    the least number of pages of [limit] items that hold them all,
    [hasNextPage] exactly when [currentPage] is below [totalPages], that
    is when items are left after this page, and [hasPrevPage] exactly
    when [currentPage] is above 1.  A request that passes the checks of
    the route, with a search text that compiles if it has one, is
    answered with such a page when the skip and the size of the
    collection stay below 2^53.  For a result set of exactly two items,
    page 2 with limit 1 holds exactly the second one with [hasNextPage]
    false and [hasPrevPage] true. *)
Theorem C9_pagination :
  forall (verifyToken : string -> JsError + Auth.Claims) (users : list User)
         (compileRegExp : string -> JsError + (string -> bool))
         (authorization : option string) (q : PostsQuery) (coll : list Post),
    (* a limit outside 1..100 is refused *)
    (forall s,
        q_limit q = Some s ->
        Validation.isInt (Some 1%Z) (Some 100%Z) s = false ->
        exists errs,
          PostRoutes.getPostsRoute verifyToken users compileRegExp authorization q coll
          = Some (Failure 400 "Validation failed" errs))
    (* the page that is returned *)
    /\ (forall code msg page,
        PostRoutes.getPostsRoute verifyToken users compileRegExp authorization q coll
        = Some (Json code msg page) ->
        exists reqUser query,
          buildQuery compileRegExp reqUser q = inr query
          /\ match q_page q with Some s => Js.parseInt s | None => Some 1%Z end
             = Some (currentPage (pagination page))
          /\ match q_limit q with Some s => Js.parseInt s | None => Some 10%Z end
             = Some (limit (pagination page))
          /\ (q_page q = None -> currentPage (pagination page) = 1%Z)
          /\ (q_limit q = None -> limit (pagination page) = 10%Z)
          /\ (1 <= currentPage (pagination page))%Z
          /\ (1 <= limit (pagination page) <= 100)%Z
          /\ posts page
             = firstn (Z.to_nat (limit (pagination page)))
                      (skipn (Z.to_nat ((currentPage (pagination page) - 1)
                                        * limit (pagination page)))
                             (sortDocs (match q_sortBy q with Some s => s | None => "createdAt" end)
                                       (if match q_sortOrder q with Some s => s | None => "desc" end
                                           =? "desc" then (-1)%Z else 1%Z)
                                       (filter (matches query) coll)))
          /\ totalPosts (pagination page) = Z.of_nat (List.length (filter (matches query) coll))
          /\ ((totalPages (pagination page) - 1) * limit (pagination page)
              < totalPosts (pagination page)
              <= totalPages (pagination page) * limit (pagination page))%Z
          /\ hasNextPage (pagination page)
             = (currentPage (pagination page) <? totalPages (pagination page))%Z
          /\ (hasNextPage (pagination page) = true
              <-> (currentPage (pagination page) * limit (pagination page)
                   < totalPosts (pagination page))%Z)
          /\ hasPrevPage (pagination page) = (1 <? currentPage (pagination page))%Z)
    (* a request that passes the checks is answered with a page *)
    /\ (forall reqUser query pg lim,
        PostRoutes.getPostsValidation q = [] ->
        Auth.optionalAuth verifyToken users authorization = Auth.Next reqUser ->
        buildQuery compileRegExp reqUser q = inr query ->
        match q_page q with Some s => Js.parseInt s | None => Some 1%Z end = Some pg ->
        match q_limit q with Some s => Js.parseInt s | None => Some 10%Z end = Some lim ->
        ((pg - 1) * lim < Js.maxExact)%Z ->
        (Z.of_nat (List.length coll) < Js.maxExact)%Z ->
        exists page,
          PostRoutes.getPostsRoute verifyToken users compileRegExp authorization q coll
          = Some (Json 200 "" page))
    (* the second page of a result set of two, one item per page *)
    /\ (forall reqUser query a b,
        buildQuery compileRegExp reqUser q = inr query ->
        sortDocs (match q_sortBy q with Some s => s | None => "createdAt" end)
                 (if match q_sortOrder q with Some s => s | None => "desc" end =? "desc"
                  then (-1)%Z else 1%Z)
                 (filter (matches query) coll) = [a; b] ->
        q_page q = Some "2" ->
        q_limit q = Some "1" ->
        getPosts compileRegExp reqUser q coll
        = Some (Json 200 "" (mkPage [b] (mkPagination 2 2 2 false true 1)))).
Proof.
  intros verifyToken users compileRegExp authorization q coll.
  split; [ | split; [ | split ] ].
  - intros s Hs Hbad. unfold PostRoutes.getPostsRoute, PostRoutes.validate.
    destruct (PostRoutes.getPostsValidation q) as [|e es] eqn:E; eauto.
    unfold PostRoutes.getPostsValidation in E.
    apply app_eq_nil in E as [_ E]. apply app_eq_nil in E as [E _].
    unfold PostRoutes.optional in E. rewrite Hs, Hbad in E. discriminate.
  - intros code msg page H. unfold PostRoutes.getPostsRoute, PostRoutes.validate in H.
    destruct (PostRoutes.getPostsValidation q) as [|e es] eqn:E; [ | discriminate ].
    destruct (getPostsValidation_limits q E)
      as [Hpage (lim & Hlim & Hlim1 & Hlim0)].
    destruct (optionalAuth_next verifyToken users authorization) as [reqUser Hn].
    rewrite Hn in H.
    apply getPosts_json in H as (query & pg & lim' & Hb & Hp' & Hl' & _ & _ & _ & ->).
    destruct (Hpage pg Hp') as [Hpg1 Hpg0].
    rewrite Hlim in Hl'. inversion Hl'. subst lim'.
    exists reqUser, query.
    cbn [pagination posts currentPage limit totalPosts totalPages hasNextPage hasPrevPage].
    pose proof (ceilDiv_bounds (Z.of_nat (List.length (filter (matches query) coll))) lim
                  ltac:(lia)) as B.
    repeat split; auto; try lia.
    + rewrite Z.ltb_lt. nia.
    + rewrite Z.ltb_lt. nia.
  - intros reqUser query pg lim Hval Hauth Hb Hp Hl Hskip Hsize.
    unfold PostRoutes.getPostsRoute, PostRoutes.validate. rewrite Hval, Hauth.
    destruct (getPostsValidation_limits q Hval) as [Hpage (lim' & Hlim & Hlim1 & _)].
    destruct (Hpage pg Hp) as [Hpg1 _].
    rewrite Hl in Hlim. inversion Hlim. subst lim'.
    pose proof (filter_length_le (matches query) coll) as Hle.
    rewrite (getPosts_ok _ _ _ coll _ pg lim Hb Hp Hl); try lia. eauto.
  - intros reqUser query a b Hb Hsort Hp Hl.
    assert (Hlen : List.length (filter (matches query) coll) = 2%nat).
    { erewrite <- Permutation_length by apply sortDocs_perm. rewrite Hsort. reflexivity. }
    rewrite (getPosts_ok _ _ _ coll _ 2%Z 1%Z Hb); try lia;
      [ | rewrite Hp; reflexivity | rewrite Hl; reflexivity | reflexivity
        | rewrite Hlen; reflexivity ].
    rewrite Hsort, Hlen. reflexivity.
Qed.

(** *** One request at a time *)

Lemma save_loaded_evolves now d coll p' coll' post :
  isNew d = false ->
  _id (fields d) = _id post ->
  slug (fields d) = slug post ->
  likes (fields d) = likes post ->
  isModified P_slug d = false ->
  save now d coll = inr (p', coll') ->
  evolves post p' /\ (coll' = coll \/ coll' = replaceById p' coll).
Proof.
  intros Hn Hid Hslug Hlikes Hms Hs.
  pose proof (save_inr _ _ _ _ _ Hs) as [_ Hp].
  split.
  - subst p'. repeat split.
    + rewrite (preSave_frame _id), (timestamps_frame _id); auto.
    + intros Ht. rewrite preSave_slug.
      rewrite (timestamps_frame slug), Hslug by reflexivity.
      unfold noSlug. rewrite (timestamps_frame slug), Hslug, Ht by reflexivity.
      now rewrite andb_false_r.
    + unfold Lifecycle.oneLikePerUser.
      rewrite (preSave_frame likes), (timestamps_frame likes), Hlikes; auto.
  - destruct (save_loaded _ _ _ _ _ Hn Hs) as [(_ & _ & ->) | (_ & ->)]; auto.
Qed.

Lemma assign_isModified_mono path' path differs f d :
  isModified path' d = true -> isModified path' (assign path differs f d) = true.
Proof.
  intros H. unfold assign. destruct (isNew d || differs); auto.
  unfold isModified in *. simpl. rewrite H. apply orb_true_r.
Qed.

Lemma getPost_cases now reqUser identifier coll :
  snd (getPost now reqUser identifier coll) = coll
  \/ exists post p',
      In post coll /\ evolves post p'
      /\ snd (getPost now reqUser identifier coll) = replaceById p' coll.
Proof.
  destruct (find (getPostQuery reqUser identifier) coll) as [post|] eqn:E.
  - destruct (getPost_cases_found now _ _ _ _ E)
      as [(m & ms & -> & _) | (_ & v & t & _ & [H | H])]; auto.
    right. exists post. eexists. split; [ now apply find_some in E | ].
    split; [ | exact H ]. repeat split; auto.
  - left. now rewrite (getPost_missing _ _ _ _ E).
Qed.

Lemma toggleLike_step now user id coll :
  snd (toggleLike now user id coll) = coll
  \/ exists post p',
      In post coll /\ evolves post p'
      /\ snd (toggleLike now user id coll) = replaceById p' coll.
Proof.
  destruct (toggleLike_cases now user id coll) as [H | (post & Hv & Hf & H)]; auto.
  right. exists post. eexists. split; [ now apply findById_id in Hf | ].
  split; [ | exact H ]. repeat split; auto.
  intros Hnd. now apply toggled_NoDup.
Qed.

Lemma updatePost_step categories now user id body coll :
  snd (updatePost categories now user id body coll) = coll
  \/ exists post p',
      In post coll /\ evolves post p'
      /\ snd (updatePost categories now user id body coll) = replaceById p' coll.
Proof.
  destruct (updatePost categories now user id body coll) as [[code msg p'|code msg errs] coll'] eqn:E.
  - apply updatePost_json in E as (post & _ & Hf & _ & Hs & _).
    destruct (update_doc_facts body post) as (Hn & Hid & Hslug & _ & Hms).
    destruct (save_loaded_evolves now _ coll p' coll' post Hn Hid Hslug
                (updateFields_frame likes body (hydrate post)
                   ltac:(reflexivity) ltac:(reflexivity) ltac:(reflexivity) ltac:(reflexivity)
                   ltac:(reflexivity) ltac:(reflexivity) ltac:(reflexivity))
                Hms Hs) as [He [-> | ->]]; auto.
    right. exists post, p'. split; [ now apply findById_id in Hf | auto ].
  - left. simpl. eapply updatePost_failure; eauto.
Qed.

Lemma addComment_step now user id content coll :
  snd (addComment now user id content coll) = coll
  \/ exists post p',
      In post coll /\ evolves post p'
      /\ snd (addComment now user id content coll) = replaceById p' coll.
Proof.
  unfold addComment.
  destruct (negb (Js.truthy content) || _); auto.
  destruct (negb (Validation.isValidObjectId id)); auto.
  destruct (findById (Js.toLowerCase id) coll) as [post|] eqn:Hf; auto.
  destruct (save now _ coll) as [e|[p' coll']] eqn:Hs; auto.
  apply save_loaded_evolves with (post := post) in Hs as [He [-> | ->]]; auto.
  right. exists post, p'. split; [ now apply findById_id in Hf | auto ].
Qed.

Lemma deletePost_step user id coll :
  exists f, snd (deletePost user id coll) = filter f coll.
Proof.
  assert (Hall : filter (fun _ => true) coll = coll).
  { induction coll as [|x r IH]; simpl; congruence. }
  unfold deletePost.
  destruct (negb (Validation.isValidObjectId id)); [ exists (fun _ => true); auto | ].
  destruct (findById (Js.toLowerCase id) coll) as [post|]; [ | exists (fun _ => true); auto ].
  destruct (_ && _); [ exists (fun _ => true); auto | ].
  eexists. reflexivity.
Qed.

Lemma createPost_json categories now newId user body coll code msg post' coll' :
  createPost categories now newId user body coll = (Json code msg post', coll') ->
  code = 201
  /\ coll' = (coll ++ [post'])%list
  /\ (forall q, In q coll -> _id q <> _id post')
  /\ title post' = Js.trim (text (b_title body))
  /\ born post'.
Proof.
  unfold createPost.
  repeat match goal with
  | |- (if ?c then _ else _) = _ -> _ => destruct c; [ discriminate | ]
  end.
  set (d0 := set_title (text (b_title body)) (newPost newId (user_id user))).
  assert (F0 : isNew d0 = true /\ title (fields d0) = Js.trim (text (b_title body))
               /\ isModified P_title d0 = true /\ slug (fields d0) = None
               /\ likes (fields d0) = [] /\ comments (fields d0) = [])
    by (repeat split; reflexivity).
  clearbody d0. destruct F0 as (N0 & T0 & M0 & S0 & L0 & C0).
  match goal with |- match save now ?doc coll with _ => _ end = _ -> _ => set (d := doc) end.
  assert (F : isNew d = true /\ title (fields d) = Js.trim (text (b_title body))
              /\ isModified P_title d = true /\ slug (fields d) = None
              /\ likes (fields d) = [] /\ comments (fields d) = []).
  { subst d. unfold setIfDefined.
    destruct (b_featuredImage body), (b_excerpt body);
      unfold set_status, set_featuredImage, set_excerpt, set_tags, set_category, set_content;
      repeat rewrite assign_isNew;
      repeat (rewrite assign_frame by reflexivity);
      (repeat split; auto);
      repeat apply assign_isModified_mono; exact M0. }
  clearbody d. destruct F as (Hn & Ht & Hm & Hsl & H1 & H2).
  destruct (save now d coll) as [e|[p' c']] eqn:Hs.
  { destruct (@errorHandler_failure Post e) as (c0 & m & es & E). rewrite E. discriminate. }
  intros H. inversion H. subst. clear H.
  pose proof (save_inr _ _ _ _ _ Hs) as [Hv Hp].
  split; auto.
  assert (Hslug : slug post' = Some (slugify (title post'))).
  { rewrite Hp, preSave_slug, timestamps_isModified, Hm.
    unfold noSlug. rewrite (timestamps_frame slug), Hsl by reflexivity. simpl.
    rewrite slugSetter_slugify.
    rewrite (preSave_frame title), (timestamps_frame title) by reflexivity. reflexivity. }
  unfold save in Hs. rewrite Hv, preSave_isNew, timestamps_isNew, Hn, <- Hp in Hs.
  destruct (existsb (fun q => _id q =? _id post') coll) eqn:Ex; [ discriminate | ].
  destruct (slugTaken post' coll); [ discriminate | ].
  inversion Hs. subst coll'. split; auto. split.
  { intros q Hq C. apply String.eqb_eq in C.
    assert (T : existsb (fun q => _id q =? _id post') coll = true)
      by (apply existsb_exists; eauto).
    congruence. }
  split.
  { rewrite Hp, (preSave_frame title), (timestamps_frame title) by reflexivity. exact Ht. }
  split; auto. split.
  - rewrite Hp, (preSave_frame likes), (timestamps_frame likes) by reflexivity. exact H1.
  - rewrite Hp, (preSave_frame comments), (timestamps_frame comments) by reflexivity. exact H2.
Qed.

Lemma createPost_failure categories now newId user body coll code msg errs coll' :
  createPost categories now newId user body coll = (Failure code msg errs, coll') ->
  coll' = coll.
Proof.
  unfold createPost.
  repeat match goal with
  | |- (if ?c then _ else _) = _ -> _ => destruct c; [ now inversion 1 | ]
  end.
  destruct (save _ _ _) as [e|[saved c]]; inversion 1; reflexivity.
Qed.

Lemma step_inv coll coll' :
  Lifecycle.step coll coll' ->
  coll' = coll
  \/ (exists post p', In post coll /\ evolves post p' /\ coll' = replaceById p' coll)
  \/ (exists p', (forall q, In q coll -> _id q <> _id p') /\ born p'
                 /\ coll' = (coll ++ [p'])%list)
  \/ (exists f, coll' = filter f coll).
Proof.
  intros H.
  destruct H as [now reqUser identifier | categories now newId user body
                | categories now user id body | user id | now user id | now user id text].
  - destruct (getPost_cases now reqUser identifier coll) as [-> | H]; auto.
  - destruct (createPost categories now newId user body coll)
      as [[code msg p'|code msg errs] coll'] eqn:E; simpl.
    + apply createPost_json in E as (_ & -> & Hfresh & _ & Hb).
      right. right. left. eauto.
    + left. eapply createPost_failure; eauto.
  - destruct (updatePost_step categories now user id body coll) as [-> | H]; auto.
  - right. right. right. apply deletePost_step.
  - destruct (toggleLike_step now user id coll) as [-> | H]; auto.
  - destruct (addComment_step now user id text coll) as [-> | H]; auto.
Qed.

Lemma map_id_replaceById p' coll : map _id (replaceById p' coll) = map _id coll.
Proof.
  unfold replaceById. induction coll as [|x r IH]; simpl; auto.
  rewrite IH. f_equal. destruct (_id x =? _id p') eqn:E; auto.
  apply String.eqb_eq in E. auto.
Qed.

Lemma step_unique_ids coll coll' :
  NoDup (map _id coll) -> Lifecycle.step coll coll' -> NoDup (map _id coll').
Proof.
  intros Hnd H.
  destruct (step_inv _ _ H)
    as [-> | [(post & p' & _ & _ & ->) | [(p' & Hfresh & _ & ->) | (f & ->)]]]; auto.
  - now rewrite map_id_replaceById.
  - rewrite map_app. simpl. apply NoDup_app; auto.
    + constructor; [ intros [] | constructor ].
    + intros a Ha [<- | []]. apply in_map_iff in Ha as [q [E Hq]].
      exact (Hfresh q Hq E).
  - now apply NoDup_filter_map.
Qed.

Lemma reachable_unique_ids coll : Lifecycle.reachable coll -> NoDup (map _id coll).
Proof.
  induction 1 as [|coll coll' _ IH Hs]; [ constructor | ].
  eapply step_unique_ids; eauto.
Qed.

(** C4, as amended.  [createPost] stores the slug derived from the
    (trimmed) title, made of lower-case letters, digits and hyphens only;
    an accepted [updatePost] of a post whose slug is not empty keeps the
    slug, whatever it does to the title; an accepted [updatePost] of a
    post whose slug is missing or empty derives the slug again, from the
    new title, when it changes the title, and leaves the slug as it is
    when it does not; and no request served by the controller changes
    the non-empty slug of a stored post. *)
Theorem C4_slug_derived_at_creation_kept_once_set :
  (forall categories now newId user body coll code msg post' coll',
      createPost categories now newId user body coll = (Json code msg post', coll') ->
      title post' = Js.trim (text (b_title body))
      /\ slug post' = Some (slugify (title post'))
      /\ Forall (fun c => slugOrHyphen c = true) (Js.chars (slugify (title post'))))
  /\ (forall categories now user id body coll code msg post' coll' post,
      updatePost categories now user id body coll = (Json code msg post', coll') ->
      findById (Js.toLowerCase id) coll = Some post ->
      Js.truthy (slug post) = true ->
      slug post' = slug post)
  /\ (forall categories now user id body coll code msg post' coll' post,
      updatePost categories now user id body coll = (Json code msg post', coll') ->
      findById (Js.toLowerCase id) coll = Some post ->
      Js.truthy (slug post) = false ->
      (title post' <> title post -> slug post' = Some (slugify (title post')))
      /\ (title post' = title post -> slug post' = slug post))
  /\ (forall coll coll' p p',
      NoDup (map _id coll) ->
      Lifecycle.step coll coll' ->
      In p coll ->
      Js.truthy (slug p) = true ->
      In p' coll' ->
      _id p' = _id p ->
      slug p' = slug p).
Proof.
  split; [ | split; [ | split ] ].
  - intros categories now newId user body coll code msg post' coll' H.
    apply createPost_json in H as (_ & _ & _ & Ht & Hb & _).
    split; [ exact Ht | ]. split; [ exact Hb | ]. apply slugify_chars.
  - intros categories now user id body coll code msg post' coll' post H Hf Ht.
    apply updatePost_json in H as (post0 & _ & Hf0 & _ & Hs & _).
    rewrite Hf in Hf0. inversion Hf0. subst post0.
    destruct (update_doc_facts body post) as (Hn & Hid & Hslug & _ & Hms).
    eapply save_loaded_evolves in Hs as [(_ & He & _) _]; eauto.
    now rewrite (updateFields_frame likes).
  - intros categories now user id body coll code msg post' coll' post H Hf Ht.
    apply updatePost_json in H as (post0 & _ & Hf0 & _ & Hs & _).
    rewrite Hf in Hf0. inversion Hf0. subst post0.
    apply save_inr in Hs as [_ Hp].
    assert (Etitle : title post' = title (fields (updateFields body (hydrate post)))).
    { rewrite Hp, (preSave_frame title), (timestamps_frame title) by reflexivity.
      reflexivity. }
    assert (Eslug : slug post' =
                    if isModified P_title (updateFields body (hydrate post))
                    then Some (slugify (title post')) else slug post).
    { rewrite Hp, preSave_slug, timestamps_isModified. unfold noSlug.
      rewrite (timestamps_frame slug), (timestamps_frame title) by reflexivity.
      rewrite (updateFields_frame slug) by reflexivity. cbn [hydrate fields].
      rewrite Ht. cbn [negb]. rewrite andb_true_r, slugSetter_slugify.
      rewrite <- Etitle at 1. rewrite Hp. reflexivity. }
    rewrite updateFields_title_modified, <- Etitle in Eslug.
    split; intros E.
    + apply String.eqb_neq in E. now rewrite E in Eslug.
    + apply String.eqb_eq in E. now rewrite E in Eslug.
  - intros coll coll' p p' Hnd Hstep Hp Ht Hp' Hid.
    destruct (step_inv _ _ Hstep)
      as [-> | [(post & new & Hpost & (Hi & Hs & _) & ->)
               | [(new & Hfresh & _ & ->) | (f & ->)]]].
    + f_equal. eapply unique_id; eauto.
    + apply in_replaceById in Hp' as [[-> _] | [Hin _]].
      * assert (post = p) by (eapply unique_id; eauto; congruence). subst post. auto.
      * f_equal. eapply unique_id; eauto.
    + apply in_app_or in Hp' as [Hin | [<- | []]].
      * f_equal. eapply unique_id; eauto.
      * exfalso. apply (Hfresh p Hp). auto.
    + apply filter_In in Hp' as [Hin _]. f_equal. eapply unique_id; eauto.
Qed.

(** C5.  In every state the collection can reach, and for every post in
    it, [likeCount] is the length of the likes list and [commentCount] the
    length of the comments list, no user has more than one entry in the
    likes, and so [likeCount] is the number of distinct users who like the
    post. *)
Theorem C5_counts_are_lengths_one_like_per_user :
  forall coll,
    Lifecycle.reachable coll ->
    forall p,
      In p coll ->
      likeCount p = List.length (likes p)
      /\ commentCount p = List.length (comments p)
      /\ Lifecycle.oneLikePerUser p
      /\ likeCount p = List.length (nodup string_dec (map like_user (likes p))).
Proof.
  intros coll H.
  assert (G : forall p, In p coll -> Lifecycle.oneLikePerUser p);
    [ | intros p Hp; repeat split; auto;
        rewrite (nodup_fixed_point string_dec (G p Hp)); unfold likeCount;
        now rewrite length_map ].
  induction H as [|coll coll' _ IH Hstep]; [ intros p [] | ].
  intros p Hp.
  destruct (step_inv _ _ Hstep)
    as [-> | [(post & new & Hpost & (_ & _ & Hl) & ->)
             | [(new & _ & (_ & Hb & _) & ->) | (f & ->)]]].
  - now apply IH.
  - apply in_replaceById in Hp as [[-> _] | [Hin _]].
    + apply Hl. now apply IH.
    + now apply IH.
  - apply in_app_or in Hp as [Hin | [<- | []]].
    + now apply IH.
    + unfold Lifecycle.oneLikePerUser. rewrite Hb. constructor.
  - apply filter_In in Hp as [Hin _]. now apply IH.
Qed.

(* ================================================================== *)
(** ** The properties on the sample data *)
(* ================================================================== *)

Import Sample.

(** A published post is found by its id and by its slug, by an anonymous
    reader and by its author alike, and each view counts once. *)
Example view_by_id_anonymous :
  fst (getPost 500%N None id1 [published1])
  = Json 200 "" (with_updatedAt 500%N (with_views 1%N published1)).
Proof. reflexivity. Qed.

Example view_by_slug_author :
  fst (getPost 500%N (Some alice) "hello-world" [published1])
  = Json 200 "" (with_updatedAt 500%N (with_views 1%N published1)).
Proof. reflexivity. Qed.

Example slug_of_test_title : slugify "This is a Test Post Title!" = "this-is-a-test-post-title".
Proof. reflexivity. Qed.

(** [parseInt] returns a Number: 2^53 + 1 is read as 2^53. *)
Example parseInt_rounds : Js.parseInt "9007199254740993" = Some 9007199254740992%Z.
Proof. vm_compute. reflexivity. Qed.

(** The sample posts satisfy the schema. *)
Lemma sample_posts_valid :
  History.validPost draft1 /\ History.validPost published1 /\ History.validPost published2.
Proof.
  split; [ | split ];
    match goal with
    | |- History.validPost ?p => apply (validateSync_nil (hydrate p)); reflexivity
    end.
Qed.

(** C8 on a sample post: an anonymous view by id takes the counter from 0
    to 1 and stores the result. *)
Lemma C8_view_increments_counter_by_one_witness :
  exists post' coll',
    getPost 500%N None id1 [published1] = (Json 200 "" post', coll')
    /\ views published1 = 0%N
    /\ views post' = 1%N
    /\ findById id1 coll' = Some post'.
Proof.
  pose proof (C8_view_increments_counter_by_one 500%N None id1 [published1]) as H.
  change (getPost 500%N None id1 [published1])
    with (Json (A := Post) 200 "" (with_updatedAt 500%N (with_views 1%N published1)),
          [with_updatedAt 500%N (with_views 1%N published1)]) in H.
  destruct H as (_ & post & Hf & _ & Hlt & _).
  inversion Hf. subst post.
  destruct (Hlt eq_refl) as (Hv & _ & _ & Hs & _).
  exists (with_updatedAt 500%N (with_views 1%N published1)),
         [with_updatedAt 500%N (with_views 1%N published1)].
  split; [ reflexivity | ]. split; [ reflexivity | ]. split; [ exact Hv | exact Hs ].
Defined.

(** C8, counterexample: a view of a post whose counter is 2^53 succeeds
    and leaves the counter, and the stored post, as they were; and a view
    of a stored post whose title is too short for the schema fails with
    400, not with 404. *)
Lemma C8_counter_stops_at_2_53 :
  views saturated1 = 9007199254740992%N
  /\ getPost 500%N None id1 [saturated1] = (Json 200 "" saturated1, [saturated1])
  /\ getPost 500%N None "hey" [shortTitled]
     = (Failure 400 "Validation Error" ["Title must be at least 5 characters long"],
        [shortTitled]).
Proof. split; [ | split ]; vm_compute; reflexivity. Qed.

(** C1, counterexample: alice is not an admin and wrote the draft, and
    neither the view nor the listing returns it to her; and the admin
    carol is refused a draft whose stored title is too short for the
    schema. *)
Lemma C1_draft_denied_to_author_and_when_broken :
  status draft1 = "draft"
  /\ author draft1 = user_id alice
  /\ getPost 200%N (Some alice) id1 [draft1] = (Failure 404 "Post not found" [], [draft1])
  /\ getPosts noRegExp (Some alice) emptyQuery [draft1]
     = Some (Json 200 "" (mkPage [] (mkPagination 1 0 0 false false 10)))
  /\ status shortDraft = "draft"
  /\ role carol = "admin"
  /\ getPost 200%N (Some carol) id2 [shortDraft]
     = (Failure 400 "Validation Error" ["Title must be at least 5 characters long"],
        [shortDraft]).
Proof. repeat split; reflexivity. Qed.

(** C1 on the sample draft: denied to an anonymous reader, returned to the
    admin carol. *)
Lemma C1_draft_visibility_witness :
  NoDup (map _id [draft1])
  /\ In draft1 [draft1]
  /\ Validation.isValidObjectId (_id draft1) = true
  /\ Js.toLowerCase (_id draft1) = _id draft1
  /\ status draft1 = "draft"
  /\ getPost 200%N None (_id draft1) [draft1] = (Failure 404 "Post not found" [], [draft1])
  /\ History.validPost draft1
  /\ exists post',
      fst (getPost 200%N (Some carol) (_id draft1) [draft1]) = Json 200 "" post'
      /\ post' = with_updatedAt 200%N (with_views (views draft1 + 1) draft1).
Proof.
  assert (unique_draft1 : NoDup (map _id [draft1]))
    by (constructor; [ simpl; tauto | constructor ]).
  assert (Hin : In draft1 [draft1]) by (left; reflexivity).
  assert (Hvalid : History.validPost draft1) by apply sample_posts_valid.
  destruct (C1_draft_visibility 200%N noRegExp [draft1] draft1 unique_draft1 Hin
              eq_refl eq_refl eq_refl) as (A & _ & C & _).
  split; [ exact unique_draft1 | ]. split; [ exact Hin | ].
  split; [ reflexivity | ]. split; [ reflexivity | ]. split; [ reflexivity | ].
  split; [ apply (A None); reflexivity | ].
  split; [ exact Hvalid | ].
  destruct (C carol eq_refl Hvalid) as (post' & E & _ & Hp).
  exists post'. split; [ exact E | apply Hp; reflexivity ].
Defined.

(** C2, counterexample: with two like entries of alice in the post, her
    toggle removes one of them and answers that she does not like the
    post, while the entry that is left says she does; her second toggle
    removes that one, and the like count is 0 where it was 2.  And on a
    stored post whose title is too short for the schema the toggle fails
    with 400, and no entry is added. *)
Lemma C2_second_like_entry_survives :
  likeCount likedTwice = 2
  /\ isLikedByUser likedTwice (user_id alice) = true
  /\ toggleLike 500%N alice id1 [likedTwice]
     = (Json 200 "Post unliked" (mkLikeData 1 false), [likedOnce])
  /\ isLikedByUser likedOnce (user_id alice) = true
  /\ toggleLike 600%N alice id1 [likedOnce]
     = (Json 200 "Post unliked" (mkLikeData 0 false), [likedNever])
  /\ likeCount likedNever = 0
  /\ toggleLike 500%N alice id2 [shortTitled]
     = (Failure 400 "Validation Error" ["Title must be at least 5 characters long"],
        [shortTitled]).
Proof. repeat split; reflexivity. Qed.

(** C2 on a sample post nobody likes yet: bob likes it, then unlikes it. *)
Lemma C2_toggleLike_toggles_witness :
  Validation.isValidObjectId id1 = true
  /\ findById (Js.toLowerCase id1) [published1] = Some published1
  /\ History.validPost published1
  /\ oneLikePerUser published1
  /\ exists post1 coll1 msg1,
      toggleLike 500%N bob id1 [published1]
      = (Json 200 msg1 (mkLikeData (likeCount post1) true), coll1)
      /\ exists post2 coll2 msg2,
          toggleLike 600%N bob id1 coll1
          = (Json 200 msg2 (mkLikeData (likeCount post2) false), coll2)
          /\ likeCount post2 = likeCount published1.
Proof.
  assert (Hnd : oneLikePerUser published1) by constructor.
  assert (Hvalid : History.validPost published1) by apply sample_posts_valid.
  destruct (C2_toggleLike_toggles 500%N 600%N bob id1 [published1] published1
              eq_refl eq_refl Hvalid Hnd)
    as (post1 & coll1 & msg1 & H1 & _ & _ & _ & _ & post2 & coll2 & msg2 & H2 & _ & H3 & _).
  split; [ reflexivity | ]. split; [ reflexivity | ]. split; [ exact Hvalid | ].
  split; [ exact Hnd | ].
  exists post1, coll1, msg1. split; [ exact H1 | ].
  exists post2, coll2, msg2. split; [ exact H2 | exact H3 ].
Defined.

(** C3 on the sample draft: publishing stamps the date, a later edit of
    the title keeps it. *)
Lemma C3_publishedAt_stamped_once_witness :
  updatePost [] 300%N alice id1 publishBody [draft1]
  = (Json 200 "Post updated successfully" published1, [published1])
  /\ publishedAt draft1 = None
  /\ status draft1 <> "published"
  /\ status published1 = "published"
  /\ publishedAt published1 = Some 300%N
  /\ updatePost [] 700%N alice id1 retitleBody [published1]
     = (Json 200 "Post updated successfully" retitled1, [retitled1])
  /\ publishedAt retitled1 = Some 300%N.
Proof.
  assert (E1 : updatePost [] 300%N alice id1 publishBody [draft1]
               = (Json 200 "Post updated successfully" published1, [published1]))
    by reflexivity.
  assert (E2 : updatePost [] 700%N alice id1 retitleBody [published1]
               = (Json 200 "Post updated successfully" retitled1, [retitled1]))
    by reflexivity.
  destruct (C3_publishedAt_stamped_once _ _ _ _ _ _ _ _ _ _ E1) as (p1 & F1 & _ & Hstamp & _).
  destruct (C3_publishedAt_stamped_once _ _ _ _ _ _ _ _ _ _ E2) as (p2 & F2 & _ & _ & Hkeep).
  inversion F1. subst p1. inversion F2. subst p2.
  split; [ exact E1 | ]. split; [ reflexivity | ]. split; [ discriminate | ].
  split; [ reflexivity | ].
  split; [ apply Hstamp; [ reflexivity | discriminate | reflexivity ] | ].
  split; [ exact E2 | ]. apply Hkeep. reflexivity.
Defined.

(** C4, counterexample: a title of punctuation passes validation and
    yields the empty slug; the next change of the title derives the slug
    again. *)
Lemma C4_empty_slug_is_derived_again :
  createPost [] 600%N id2 alice punctuationBody []
  = (Json 201 "Post created successfully" punctuated, [punctuated])
  /\ slug punctuated = Some ""
  /\ updatePost [] 700%N alice id2 retitleBody [punctuated]
     = (Json 200 "Post updated successfully" punctuatedRetitled, [punctuatedRetitled])
  /\ _id punctuatedRetitled = _id punctuated
  /\ slug punctuatedRetitled = Some "second-title".
Proof. repeat split; reflexivity. Qed.

(** C4 on a sample post with a slug: a new title leaves the slug alone;
    and on the post with the empty slug: a new title derives the slug. *)
Lemma C4_slug_kept_witness :
  updatePost [] 700%N alice id1 retitleBody [published1]
  = (Json 200 "Post updated successfully" retitled1, [retitled1])
  /\ findById (Js.toLowerCase id1) [published1] = Some published1
  /\ Js.truthy (slug published1) = true
  /\ title retitled1 = "Second title"
  /\ slug retitled1 = slug published1
  /\ Js.truthy (slug punctuated) = false
  /\ title punctuatedRetitled <> title punctuated
  /\ slug punctuatedRetitled = Some (slugify (title punctuatedRetitled)).
Proof.
  assert (E : updatePost [] 700%N alice id1 retitleBody [published1]
              = (Json 200 "Post updated successfully" retitled1, [retitled1]))
    by reflexivity.
  assert (E2 : updatePost [] 700%N alice id2 retitleBody [punctuated]
               = (Json 200 "Post updated successfully" punctuatedRetitled,
                  [punctuatedRetitled]))
    by reflexivity.
  destruct C4_slug_derived_at_creation_kept_once_set as (_ & U & V & _).
  split; [ exact E | ]. split; [ reflexivity | ]. split; [ reflexivity | ].
  split; [ reflexivity | ].
  split; [ apply (U _ _ _ _ _ _ _ _ _ _ published1 E); reflexivity | ].
  split; [ reflexivity | ]. split; [ discriminate | ].
  destruct (V _ _ _ _ _ _ _ _ _ _ punctuated E2 eq_refl eq_refl) as [D _].
  apply D. discriminate.
Defined.

(** C5 on the collection reached by creating a post and liking it. *)
Lemma C5_counts_witness :
  reachable (snd (toggleLike 500%N bob id1 (snd (createPost [] 100%N id1 alice helloBody []))))
  /\ forall p,
      In p (snd (toggleLike 500%N bob id1 (snd (createPost [] 100%N id1 alice helloBody [])))) ->
      likeCount p = List.length (likes p)
      /\ commentCount p = List.length (comments p)
      /\ oneLikePerUser p
      /\ likeCount p = List.length (nodup string_dec (map like_user (likes p))).
Proof.
  assert (R : reachable
                (snd (toggleLike 500%N bob id1 (snd (createPost [] 100%N id1 alice helloBody []))))).
  { eapply reachable_step; [ eapply reachable_step; [ apply reachable_empty | ] | ].
    - apply (step_createPost [] [] 100%N id1 alice helloBody).
    - apply step_toggleLike. }
  split; [ exact R | ].
  exact (C5_counts_are_lengths_one_like_per_user _ R).
Defined.

(** C6 on a header with the wrong scheme and on an expired token. *)
Lemma C6_optionalAuth_never_fails_witness :
  Js.truthy (Auth.extractTokenFromHeader (Some "Basic token-alice")) = false
  /\ Auth.optionalAuth verifyToken users (Some "Basic token-alice") = Auth.Next None
  /\ Auth.extractTokenFromHeader (Some "Bearer token-old") = Some "token-old"
  /\ verifyToken "token-old" = inl (plainError "TokenExpiredError" "jwt expired")
  /\ Auth.optionalAuth verifyToken users (Some "Bearer token-old") = Auth.Next None.
Proof.
  destruct (C6_optionalAuth_never_fails verifyToken users (Some "Basic token-alice"))
    as (_ & A & _).
  destruct (C6_optionalAuth_never_fails verifyToken users (Some "Bearer token-old"))
    as (_ & _ & B).
  split; [ reflexivity | ]. split; [ apply A; reflexivity | ].
  split; [ reflexivity | ]. split; [ reflexivity | ].
  apply (B "token-old" (plainError "TokenExpiredError" "jwt expired")); reflexivity.
Defined.

(** C7, counterexample: an id that is not 24 hexadecimal digits resolves
    to no post, and the answer is 400, not 404. *)
Lemma C7_malformed_id_is_a_bad_request :
  findById (Js.toLowerCase "not-an-id") [draft1] = None
  /\ updatePost [] 300%N alice "not-an-id" publishBody [draft1]
     = (Failure 400 "Invalid post ID" [], [draft1]).
Proof. split; reflexivity. Qed.

(** C7 on the sample draft: an unknown id, and a requester who is neither
    the author nor an admin. *)
Lemma C7_update_failures_witness :
  updatePost [] 300%N alice id2 publishBody [draft1]
  = (Failure 404 "Post not found" [], [draft1])
  /\ updatePost [] 300%N bob id1 publishBody [draft1]
     = (Failure 403 "Not authorized to update this post" [], [draft1]).
Proof.
  split.
  - destruct (C7_update_failures [] 300%N alice id2 publishBody [draft1]) as (_ & B & _).
    apply B; reflexivity.
  - destruct (C7_update_failures [] 300%N bob id1 publishBody [draft1]) as (_ & _ & C & _).
    apply (C draft1); (reflexivity || discriminate).
Defined.

(** C9 on two published posts: the second page of one item, and a limit
    of 101; on three published posts, the second page of two items is the
    last of two pages; and a page number of 2^53 + 1 comes back as the
    Number that [parseInt] reads, 2^53. *)
Lemma C9_pagination_witness :
  getPosts noRegExp None (mkQuery (Some "2") (Some "1") None None None None None None)
           [published1; published2]
  = Some (Json 200 "" (mkPage [published1] (mkPagination 2 2 2 false true 1)))
  /\ (exists errs,
        PostRoutes.getPostsRoute verifyToken users noRegExp None
          (mkQuery None (Some "101") None None None None None None) [published1; published2]
        = Some (Failure 400 "Validation failed" errs))
  /\ (exists page,
        PostRoutes.getPostsRoute verifyToken users noRegExp None
          (mkQuery (Some "2") (Some "2") None None None None None None)
          [published1; published2; published3]
        = Some (Json 200 "" page)
        /\ page = mkPage [published1] (mkPagination 2 2 3 false true 2)
        /\ ((totalPages (pagination page) - 1) * limit (pagination page)
            < totalPosts (pagination page)
            <= totalPages (pagination page) * limit (pagination page))%Z
        /\ (hasNextPage (pagination page) = true
            <-> (currentPage (pagination page) * limit (pagination page)
                 < totalPosts (pagination page))%Z))
  /\ exists page,
        PostRoutes.getPostsRoute verifyToken users noRegExp None
          (mkQuery (Some "9007199254740993") (Some "1") None None None None None None)
          [published1]
        = Some (Json 200 "" page)
        /\ currentPage (pagination page) = 9007199254740992%Z
        /\ hasPrevPage (pagination page) = true.
Proof.
  split; [ | split; [ | split ] ].
  - destruct (C9_pagination verifyToken users noRegExp None
                (mkQuery (Some "2") (Some "1") None None None None None None)
                [published1; published2]) as (_ & _ & _ & T).
    apply (T None (mkFilter (Some "published") None None None) published2 published1);
      reflexivity.
  - destruct (C9_pagination verifyToken users noRegExp None
                (mkQuery None (Some "101") None None None None None None)
                [published1; published2]) as (L & _).
    apply (L "101"); reflexivity.
  - destruct (C9_pagination verifyToken users noRegExp None
                (mkQuery (Some "2") (Some "2") None None None None None None)
                [published1; published2; published3]) as (_ & P & X & _).
    destruct (X None (mkFilter (Some "published") None None None) 2%Z 2%Z
                eq_refl eq_refl eq_refl eq_refl eq_refl eq_refl eq_refl) as (page & E).
    exists page. split; [ exact E | ].
    destruct (P _ _ _ E) as (reqUser & query & _ & _ & _ & _ & _ & _ & _ & _ & _ & B & _ & N & _).
    split; [ | split; [ exact B | exact N ] ].
    assert (E' : PostRoutes.getPostsRoute verifyToken users noRegExp None
                   (mkQuery (Some "2") (Some "2") None None None None None None)
                   [published1; published2; published3]
                 = Some (Json 200 "" (mkPage [published1] (mkPagination 2 2 3 false true 2))))
      by reflexivity.
    rewrite E' in E. now inversion E.
  - destruct (C9_pagination verifyToken users noRegExp None
                (mkQuery (Some "9007199254740993") (Some "1") None None None None None None)
                [published1]) as (_ & P & X & _).
    destruct (X None (mkFilter (Some "published") None None None) 9007199254740992%Z 1%Z
                eq_refl eq_refl eq_refl parseInt_rounds eq_refl eq_refl eq_refl)
      as (page & E).
    exists page. split; [ exact E | ].
    destruct (P _ _ _ E) as (reqUser & query & _ & Hp & _ & _ & _ & _ & _ & _ & _ & _ & _ & _ & Hv).
    cbn [q_page] in Hp. rewrite parseInt_rounds in Hp. inversion Hp as [Hc].
    split; [ reflexivity | ]. rewrite Hv, <- Hc. reflexivity.
Defined.

(** C10 on the token of the deactivated dave and on a token whose account
    is gone. *)
Lemma C10_inactive_or_missing_account_witness :
  (Auth.optionalAuth verifyToken users (Some "Bearer token-dave") = Auth.Next None
   /\ exists message,
       Auth.authenticate verifyToken users (Some "Bearer token-dave")
       = Auth.Respond 401 message)
  /\ (Auth.optionalAuth verifyToken users (Some "Bearer token-gone") = Auth.Next None
      /\ exists message,
          Auth.authenticate verifyToken users (Some "Bearer token-gone")
          = Auth.Respond 401 message).
Proof.
  split.
  - apply (C10_inactive_or_missing_account verifyToken users (Some "Bearer token-dave")
             "token-dave" (Auth.mkClaims (user_id dave) "dave" "dave@example.com" "user"));
      [ reflexivity | discriminate | reflexivity | ].
    right. exists dave. split; reflexivity.
  - apply (C10_inactive_or_missing_account verifyToken users (Some "Bearer token-gone")
             "token-gone"
             (Auth.mkClaims "eeeeeeeeeeeeeeeeeeeeeeee" "erin" "erin@example.com" "user"));
      [ reflexivity | discriminate | reflexivity | ].
    left. reflexivity.
Defined.


(* ================================================================== *)
(** * Further properties *)
(* ================================================================== *)

Import History.

(** ** Assignments: a path is marked modified or keeps its value *)

Lemma assign_marks_or_keeps {A} (proj : Post -> A) path differs f d v :
  isModified path d = true \/ proj (fields d) = v ->
  isModified path (assign path differs f d) = true
  \/ proj (fields (assign path differs f d)) = v.
Proof.
  intros [H | H].
  - left. now apply assign_isModified_mono.
  - unfold assign. destruct (isNew d || differs); auto.
    left. unfold isModified. simpl.
    destruct path; reflexivity.
Qed.

Lemma assign_other_marks_or_keeps {A} (proj : Post -> A) path q differs f d v :
  (forall p, proj (f p) = proj p) ->
  isModified path d = true \/ proj (fields d) = v ->
  isModified path (assign q differs f d) = true
  \/ proj (fields (assign q differs f d)) = v.
Proof.
  intros Hf [H | H].
  - left. now apply assign_isModified_mono.
  - right. now rewrite assign_frame.
Qed.

Ltac marks_or_keeps :=
  unfold updateFields, setIfDefined, set_title, set_content, set_category, set_tags,
    set_excerpt, set_featuredImage, set_status;
  repeat match goal with
  | |- context [if ?c then assign _ _ _ _ else _] => destruct c
  | |- context [match ?c with Some _ => _ | None => _ end] => destruct c
  end;
  repeat first
    [ apply assign_other_marks_or_keeps; [ reflexivity | ]
    | apply assign_marks_or_keeps ];
  right; reflexivity.

Lemma updateFields_title body post :
  isModified P_title (updateFields body (hydrate post)) = true
  \/ title (fields (updateFields body (hydrate post))) = title post.
Proof. marks_or_keeps. Qed.

Lemma updateFields_content body post :
  isModified P_content (updateFields body (hydrate post)) = true
  \/ content (fields (updateFields body (hydrate post))) = content post.
Proof. marks_or_keeps. Qed.

Lemma updateFields_excerpt body post :
  isModified P_excerpt (updateFields body (hydrate post)) = true
  \/ excerpt (fields (updateFields body (hydrate post))) = excerpt post.
Proof. marks_or_keeps. Qed.

Lemma updateFields_status body post :
  isModified P_status (updateFields body (hydrate post)) = true
  \/ status (fields (updateFields body (hydrate post))) = status post.
Proof. marks_or_keeps. Qed.

(** ** What [save] does to a loaded document *)

Lemma preSave_marks_slug now d :
  isModified P_slug d = false ->
  slug (fields (preSave now d)) = slug (fields d)
  \/ (isModified P_slug (preSave now d) = true
      /\ slug (fields (preSave now d)) = Some (slugify (title (fields d)))).
Proof.
  intros Hm. rewrite preSave_slug. unfold preSave.
  destruct (isModified P_title d && noSlug (fields d)).
  - assert (H : slug (fields (set_slug (slugify (title (fields d))) d)) = slug (fields d)
                \/ isModified P_slug (set_slug (slugify (title (fields d))) d) = true).
    { unfold set_slug, assign. destruct (isNew d || _); simpl; auto. }
    destruct H as [H | H];
      match goal with |- context [if ?c then _ else _] => destruct c end.
    + left. rewrite <- H. unfold set_slug, assign.
      destruct (isNew d || _) eqn:E; simpl; auto.
      apply orb_false_iff in E as [_ E]. apply negb_false_iff, optEqb_eq in E. auto.
    + left. rewrite <- H. unfold set_slug, assign.
      destruct (isNew d || _) eqn:E; simpl; auto.
      apply orb_false_iff in E as [_ E]. apply negb_false_iff, optEqb_eq in E. auto.
    + right. split; [ | now rewrite slugSetter_slugify ].
      unfold set_publishedAt. now apply assign_isModified_mono.
    + right. split; [ exact H | now rewrite slugSetter_slugify ].
  - left. reflexivity.
Qed.

Lemma save_loaded_slugFree now d coll p' coll' :
  isNew d = false ->
  isModified P_slug d = false ->
  save now d coll = inr (p', coll') ->
  slug p' = slug (fields d)
  \/ (slugTaken p' coll = false /\ exists t, slug p' = Some (slugify t)).
Proof.
  intros Hn Hm Hs.
  pose proof (save_inr _ _ _ _ _ Hs) as [Hv Hp].
  destruct (preSave_marks_slug now (timestamps now d)) as [H | [H Hd]].
  - now rewrite timestamps_isModified.
  - left. rewrite Hp, H. now rewrite (timestamps_frame slug).
  - right. split; [ | rewrite Hp; eauto ]. unfold save in Hs. rewrite Hv in Hs. cbv zeta in Hs.
    rewrite preSave_isNew, timestamps_isNew, Hn, H, <- Hp in Hs.
    destruct (modifiedPaths (preSave now (timestamps now d))) eqn:Em.
    + unfold isModified in H. rewrite Em in H. discriminate H.
    + simpl in Hs. destruct (slugTaken p' coll); [ discriminate | reflexivity ].
Qed.

Lemma save_loaded_successor now d coll p' coll' post :
  isNew d = false ->
  _id (fields d) = _id post ->
  author (fields d) = author post ->
  createdAt (fields d) = createdAt post ->
  (views post <= views (fields d))%N ->
  (exists more, comments (fields d) = (comments post ++ more)%list) ->
  publishedAt (fields d) = publishedAt post ->
  (status (fields d) <> status post -> isModified P_status d = true) ->
  save now d coll = inr (p', coll') ->
  successor post p'.
Proof.
  intros Hn Hid Hau Hcr Hvw Hcm Hpa Hst Hs.
  pose proof (save_inr _ _ _ _ _ Hs) as [Hv Hp].
  assert (F : _id p' = _id (fields d) /\ author p' = author (fields d)
              /\ createdAt p' = createdAt (fields d) /\ views p' = views (fields d)
              /\ comments p' = comments (fields d) /\ title p' = title (fields d)
              /\ content p' = content (fields d) /\ excerpt p' = excerpt (fields d)
              /\ status p' = status (fields d)).
  { subst p'. repeat split;
      rewrite preSave_frame by reflexivity;
      try (rewrite timestamps_frame by reflexivity; reflexivity).
    unfold timestamps. rewrite Hn. destruct (modifiedPaths d); reflexivity. }
  destruct F as (Fid & Fau & Fcr & Fvw & Fcm & Fti & Fco & Fex & Fst).
  assert (Fpa : publishedAt p' =
                if isModified P_status d && (status (fields d) =? "published")
                   && match publishedAt post with Some _ => false | None => true end
                then Some now else publishedAt post).
  { subst p'. rewrite preSave_publishedAt, timestamps_isModified.
    rewrite (timestamps_frame status), (timestamps_frame publishedAt), Hpa by reflexivity.
    reflexivity. }
  unfold successor. rewrite Fid, Fau, Fcr, Fvw, Fcm.
  split; [ assumption | ]. split; [ assumption | ]. split; [ assumption | ].
  split; [ assumption | ]. split; [ assumption | ]. split; [ | split ].
  - intros t Ht. rewrite Fpa, Ht, andb_false_r. reflexivity.
  - intros Hd Hpub. rewrite Fst in Hpub. rewrite Fpa.
    destruct (publishedAt post) as [t|] eqn:Ep.
    + rewrite andb_false_r. discriminate.
    + assert (Hm : isModified P_status d = true).
      { apply Hst. intros E. apply Hd; [ congruence | exact Ep ]. }
      rewrite Hm, Hpub. simpl. discriminate.
  - intros _. apply validateSync_nil in Hv. unfold validPost in *.
    rewrite Fti, Fco, Fex, Fst, Fcm. exact Hv.
Qed.

(** ** One request, seen from a stored post *)

Lemma loaded_revision now d coll p' coll' post :
  In post coll ->
  isNew d = false ->
  _id (fields d) = _id post ->
  author (fields d) = author post ->
  createdAt (fields d) = createdAt post ->
  (views post <= views (fields d))%N ->
  (exists more, comments (fields d) = (comments post ++ more)%list) ->
  publishedAt (fields d) = publishedAt post ->
  slug (fields d) = slug post ->
  isModified P_slug d = false ->
  (status (fields d) <> status post -> isModified P_status d = true) ->
  save now d coll = inr (p', coll') ->
  coll' = coll \/ revision coll coll'.
Proof.
  intros Hin Hn Hid Hau Hcr Hvw Hcm Hpa Hsl Hms Hst Hs.
  destruct (save_loaded _ _ _ _ _ Hn Hs) as [(_ & _ & ->) | (_ & ->)]; auto.
  right. exists post, p'. split; [ assumption | ]. split; [ | split; [ | reflexivity ] ].
  - eapply save_loaded_successor; eauto.
  - unfold slugFree. rewrite <- Hsl. eapply save_loaded_slugFree; eauto.
Qed.

Lemma set_views_grows post :
  (views post
   <= views (fields (set_views (Js.plusOne (Js.number (views post))) (hydrate post))))%N.
Proof.
  unfold set_views, assign, hydrate. cbn [isNew fields orb].
  destruct (N.eqb (Js.plusOne (Js.number (views post))) (Js.number (views post))) eqn:E;
    cbn [negb fields views with_views].
  - lia.
  - apply plusOne_number_grows. now apply N.eqb_neq.
Qed.

Lemma getPost_revision now reqUser identifier coll :
  snd (getPost now reqUser identifier coll) = coll
  \/ revision coll (snd (getPost now reqUser identifier coll)).
Proof.
  unfold getPost.
  destruct (find (getPostQuery reqUser identifier) coll) as [post|] eqn:Hf; auto.
  destruct (save now _ coll) as [e|[p' coll']] eqn:Hs; auto. simpl.
  apply find_some in Hf as [Hin _].
  pose proof (set_views_grows post) as Hg.
  eapply (loaded_revision now _ coll p' coll' post Hin); try exact Hs; try exact Hg;
    unfold set_views, assign, hydrate; cbn [isNew fields orb];
    destruct (negb _); cbn; try reflexivity; try congruence.
  all: exists []; now rewrite app_nil_r.
Qed.

Lemma toggleLike_revision now user id coll :
  snd (toggleLike now user id coll) = coll
  \/ revision coll (snd (toggleLike now user id coll)).
Proof.
  unfold toggleLike.
  destruct (negb (Validation.isValidObjectId id)); auto.
  destruct (findById (Js.toLowerCase id) coll) as [post|] eqn:Hf; auto.
  apply findById_id in Hf as [_ Hin].
  match goal with |- context [let '(a, b) := ?c in _] => destruct c as [likes' message] end.
  destruct (save now _ coll) as [e|[p' coll']] eqn:Hs; auto. simpl.
  eapply (loaded_revision now _ coll p' coll' post Hin); try exact Hs;
    unfold set_likes, assign, hydrate; simpl;
    try reflexivity; try (right; reflexivity); try congruence.
  all: try lia.
  all: exists []; now rewrite app_nil_r.
Qed.

Lemma addComment_revision now user id text coll :
  snd (addComment now user id text coll) = coll
  \/ revision coll (snd (addComment now user id text coll)).
Proof.
  unfold addComment.
  destruct (negb (Js.truthy text) || _); auto.
  destruct (negb (Validation.isValidObjectId id)); auto.
  destruct (findById (Js.toLowerCase id) coll) as [post|] eqn:Hf; auto.
  apply findById_id in Hf as [_ Hin].
  destruct (save now _ coll) as [e|[p' coll']] eqn:Hs; auto. simpl.
  eapply (loaded_revision now _ coll p' coll' post Hin); try exact Hs;
    unfold set_comments, assign, hydrate; simpl;
    try reflexivity; try (right; reflexivity); try (left; reflexivity); try congruence.
  all: try lia.
  all: eexists; reflexivity.
Qed.

Lemma updatePost_revision categories now user id body coll :
  snd (updatePost categories now user id body coll) = coll
  \/ revision coll (snd (updatePost categories now user id body coll)).
Proof.
  destruct (updatePost categories now user id body coll)
    as [[code msg p'|code msg errs] coll'] eqn:E.
  - apply updatePost_json in E as (post & _ & Hf & _ & Hs & _). simpl.
    apply findById_id in Hf as [_ Hin].
    destruct (update_doc_facts body post) as (Hn & Hid & Hslug & Hpa & Hms).
    eapply (loaded_revision now _ coll p' coll' post Hin); try exact Hs; auto.
    + now rewrite (updateFields_frame author).
    + now rewrite (updateFields_frame createdAt).
    + rewrite (updateFields_frame views) by reflexivity. simpl. lia.
    + exists []. rewrite (updateFields_frame comments) by reflexivity.
      simpl. now rewrite app_nil_r.
    + apply updateFields_status_modified.
  - left. simpl. eapply updatePost_failure; eauto.
Qed.

(** ** [createPost] in full *)

Lemma createPost_created categories now newId user body coll code msg post' coll' :
  createPost categories now newId user body coll = (Json code msg post', coll') ->
  post' =
  mkPost newId (Js.trim (text (b_title body))) (text (b_content body)) (user_id user)
         (if Js.truthy (b_category body) then castObjectId (text (b_category body)) else None)
         (map tagSetter (match b_tags body with Some t => t | None => [] end))
         (Some (slugify (Js.trim (text (b_title body)))))
         (b_excerpt body)
         (match b_featuredImage body with Some f => f | None => "" end)
         (if Js.truthy (b_status body) then text (b_status body) else "draft")
         (if (if Js.truthy (b_status body) then text (b_status body) else "draft") =? "published"
          then Some now else None)
         0%N [] [] now now
  /\ slugTaken post' coll = false
  /\ validPost post'.
Proof.
  unfold createPost.
  repeat match goal with
  | |- (if ?c then _ else _) = _ -> _ => destruct c; [ discriminate | ]
  end.
  match goal with |- match save now ?doc coll with _ => _ end = _ -> _ => set (d := doc) end.
  destruct (save now d coll) as [e|[p' c']] eqn:Hs.
  { destruct (@errorHandler_failure Post e) as (c0 & m & es & E). rewrite E. discriminate. }
  intros H. inversion H. subst. clear H.
  pose proof (save_inr _ _ _ _ _ Hs) as [Hv Hp].
  assert (Hn : isNew d = true).
  { subst d. unfold setIfDefined. destruct (b_featuredImage body), (b_excerpt body);
      frame_setters. }
  assert (Hrec : post' =
    mkPost newId (Js.trim (text (b_title body))) (text (b_content body)) (user_id user)
         (if Js.truthy (b_category body) then castObjectId (text (b_category body)) else None)
         (map tagSetter (match b_tags body with Some t => t | None => [] end))
         (Some (slugify (Js.trim (text (b_title body)))))
         (b_excerpt body)
         (match b_featuredImage body with Some f => f | None => "" end)
         (if Js.truthy (b_status body) then text (b_status body) else "draft")
         (if (if Js.truthy (b_status body) then text (b_status body) else "draft") =? "published"
          then Some now else None)
         0%N [] [] now now).
  { rewrite Hp. subst d. clear.
    set (st := if Js.truthy (b_status body) then text (b_status body) else "draft").
    unfold setIfDefined, set_status, set_featuredImage, set_excerpt, set_tags, set_category,
      set_content, set_title, newPost, preSave, timestamps, set_slug, set_publishedAt.
    destruct (b_featuredImage body), (b_excerpt body);
      cbn [assign isNew fields modifiedPaths orb isModified existsb Path_eqb andb noSlug
           Js.truthy slug negb with_title with_content with_category with_tags with_slug
           with_excerpt with_featuredImage with_status with_publishedAt with_createdAt
           with_updatedAt _id title content author category tags excerpt featuredImage status
           publishedAt views likes comments createdAt updatedAt optEqb];
      rewrite slugSetter_slugify;
      destruct (st =? "published");
      cbn [assign isNew fields modifiedPaths orb isModified existsb Path_eqb andb noSlug
           Js.truthy slug negb with_title with_content with_category with_tags with_slug
           with_excerpt with_featuredImage with_status with_publishedAt with_createdAt
           with_updatedAt _id title content author category tags excerpt featuredImage status
           publishedAt views likes comments createdAt updatedAt optEqb];
      reflexivity. }
  split; [ exact Hrec | ]. split.
  - unfold save in Hs. rewrite Hv in Hs. cbv zeta in Hs.
    rewrite preSave_isNew, timestamps_isNew, Hn, <- Hp in Hs.
    destruct (existsb (fun q => _id q =? _id post') coll); [ discriminate | ].
    destruct (slugTaken post' coll); [ discriminate | reflexivity ].
  - assert (Hf : title post' = title (fields d) /\ content post' = content (fields d)
                 /\ excerpt post' = excerpt (fields d) /\ status post' = status (fields d)
                 /\ comments post' = []).
    { repeat split; try (rewrite Hp, preSave_frame, timestamps_frame by reflexivity; reflexivity).
      rewrite Hrec. reflexivity. }
    destruct Hf as (F1 & F2 & F3 & F4 & F5).
    apply validateSync_nil in Hv. destruct Hv as (V1 & V2 & V3 & V4 & _).
    unfold validPost. rewrite F1, F2, F3, F4, F5.
    split; [ exact V1 | ]. split; [ exact V2 | ]. split; [ exact V3 | ].
    split; [ exact V4 | ]. intros c [].
Qed.

Lemma step_cases coll coll' :
  step coll coll' ->
  coll' = coll
  \/ revision coll coll'
  \/ (exists p',
        (forall q, In q coll -> _id q <> _id p')
        /\ slugTaken p' coll = false
        /\ slug p' = Some (slugify (title p'))
        /\ validPost p' /\ datedIfPublished p'
        /\ coll' = (coll ++ [p'])%list)
  \/ (exists f, coll' = filter f coll).
Proof.
  intros H.
  destruct H as [now reqUser identifier | categories now newId user body
                | categories now user id body | user id | now user id | now user id text].
  - destruct (getPost_revision now reqUser identifier coll) as [-> | H]; auto.
  - destruct (createPost categories now newId user body coll)
      as [[code msg p'|code msg errs] coll'] eqn:E; simpl.
    + pose proof (createPost_created _ _ _ _ _ _ _ _ _ _ E) as (Hrec & Hfree & Hvalid).
      apply createPost_json in E as (_ & -> & Hfresh & _ & _).
      right. right. left. exists p'.
      split; [ exact Hfresh | ]. split; [ exact Hfree | ].
      split; [ rewrite Hrec; reflexivity | ]. split; [ exact Hvalid | ].
      split; [ | reflexivity ].
      unfold datedIfPublished. rewrite Hrec. cbn [status publishedAt].
      intros Est. rewrite Est. discriminate.
    + left. eapply createPost_failure; eauto.
  - destruct (updatePost_revision categories now user id body coll) as [-> | H]; auto.
  - right. right. right. apply deletePost_step.
  - destruct (toggleLike_revision now user id coll) as [-> | H]; auto.
  - destruct (addComment_revision now user id text coll) as [-> | H]; auto.
Qed.

(** ** Unique ids and slugs *)

Lemma slugTaken_false p' coll q :
  slugTaken p' coll = false -> In q coll -> _id q <> _id p' -> slug q <> slug p'.
Proof.
  unfold slugTaken. intros H Hq Hne E.
  assert (T : existsb (fun q => negb (_id q =? _id p') && optEqb (slug q) (slug p')) coll = true).
  { apply existsb_exists. exists q. split; auto.
    apply String.eqb_neq in Hne. rewrite Hne. simpl. now apply optEqb_eq. }
  congruence.
Qed.

Lemma replaceById_absent p' l :
  (forall q, In q l -> _id q <> _id p') -> replaceById p' l = l.
Proof.
  unfold replaceById. induction l as [|x r IH]; intros H; simpl; auto.
  rewrite IH by (intros q Hq; apply H; now right).
  assert (E : (_id x =? _id p') = false) by (apply String.eqb_neq, H; now left).
  now rewrite E.
Qed.

Lemma unique_slugs_replaceById p' l :
  NoDup (map _id l) ->
  NoDup (map slug l) ->
  (forall q, In q l -> _id q <> _id p' -> slug q <> slug p') ->
  NoDup (map slug (replaceById p' l)).
Proof.
  induction l as [|x r IH]; intros Hi Hs Hfree; [ constructor | ].
  inversion Hi as [|? ? Hxi Hri]; subst. inversion Hs as [|? ? Hxs Hrs]; subst.
  change (replaceById p' (x :: r))
    with ((if _id x =? _id p' then p' else x) :: replaceById p' r).
  destruct (_id x =? _id p') eqn:E.
  - apply String.eqb_eq in E.
    assert (Hr : forall q, In q r -> _id q <> _id p').
    { intros q Hq C. apply Hxi. rewrite E, <- C. now apply in_map. }
    rewrite (replaceById_absent p' r Hr). simpl. constructor; auto.
    intros C. apply in_map_iff in C as [q [Eq Hq]].
    apply (Hfree q (or_intror Hq) (Hr q Hq) Eq).
  - apply String.eqb_neq in E. simpl. constructor.
    + intros C. apply in_map_iff in C as [q [Eq Hq]].
      apply in_replaceById in Hq as [[-> _] | [Hq _]].
      * apply (Hfree x (or_introl eq_refl) E). auto.
      * apply Hxs. rewrite <- Eq. now apply in_map.
    + apply IH; auto. intros q Hq. apply Hfree. now right.
Qed.

Lemma same_slugs_replaceById p' post l :
  NoDup (map _id l) -> In post l -> _id p' = _id post -> slug p' = slug post ->
  map slug (replaceById p' l) = map slug l.
Proof.
  intros Hnd Hin Hid Hsl. unfold replaceById. rewrite map_map.
  apply map_ext_in. intros q Hq.
  destruct (_id q =? _id p') eqn:E; auto.
  apply String.eqb_eq in E. rewrite Hsl. f_equal.
  symmetry. eapply unique_id; eauto. congruence.
Qed.

(** X1.  In every state the posts collection can reach from the empty one by
    requests to the post controller, no two posts have the same [_id] and
    no two posts have the same slug. *)
Theorem reachable_unique_ids_and_slugs :
  forall coll,
    reachable coll ->
    NoDup (map _id coll) /\ NoDup (map slug coll).
Proof.
  intros coll H. induction H as [|coll coll' _ [IHi IHs] Hstep]; [ split; constructor | ].
  split; [ eapply step_unique_ids; eauto | ].
  destruct (step_cases _ _ Hstep)
    as [-> | [(post & p' & Hin & Hsucc & Hfree & ->)
             | [(p' & Hfresh & Hfree & _ & _ & _ & ->) | (f & ->)]]]; auto.
  - destruct Hsucc as (Hid & _). destruct Hfree as [Hsame | [Hfree _]].
    + erewrite same_slugs_replaceById; eauto.
    + apply unique_slugs_replaceById; auto.
      intros q Hq Hne. eapply slugTaken_false; eauto.
  - rewrite map_app. simpl. apply NoDup_app; auto.
    + constructor; [ intros [] | constructor ].
    + intros a Ha [<- | []]. apply in_map_iff in Ha as [q [E Hq]].
      exact (slugTaken_false _ _ _ Hfree Hq (Hfresh q Hq) E).
  - now apply NoDup_filter_map.
Qed.

(** X2.  In every reachable state each stored post satisfies the bounds of
    the schema (a title of 5 to 100 characters, a content of 10 to 5000, an
    excerpt of at most 200 if there is one, a status among draft, published
    and archived, comments of 1 to 500 characters), and a post whose status
    is published has a publication date. *)
Theorem reachable_posts_valid_and_dated :
  forall coll,
    reachable coll ->
    forall p, In p coll -> validPost p /\ datedIfPublished p.
Proof.
  intros coll H. induction H as [|coll coll' _ IH Hstep]; [ intros p [] | ].
  intros p Hp.
  destruct (step_cases _ _ Hstep)
    as [-> | [(post & p' & Hin & Hsucc & _ & ->)
             | [(p' & _ & _ & _ & Hv & Hd & ->) | (f & ->)]]]; auto.
  - apply in_replaceById in Hp as [[-> _] | [Hq _]]; auto.
    destruct Hsucc as (_ & _ & _ & _ & _ & _ & Hd & Hv).
    destruct (IH post Hin). auto.
  - apply in_app_or in Hp as [Hq | [<- | []]]; auto.
  - apply filter_In in Hp as [Hq _]. auto.
Qed.

(** X3.  One request to the post controller, on a collection with unique
    ids, leaves the author and the creation date of every post that is
    still stored as they were, never lowers its view counter, only appends
    to its comments, and keeps its publication date once it is set. *)
Theorem step_keeps_author_and_history :
  forall coll coll' p p',
    NoDup (map _id coll) ->
    step coll coll' ->
    In p coll ->
    In p' coll' ->
    _id p' = _id p ->
    author p' = author p
    /\ createdAt p' = createdAt p
    /\ (views p <= views p')%N
    /\ (exists more, comments p' = (comments p ++ more)%list)
    /\ (forall t, publishedAt p = Some t -> publishedAt p' = Some t).
Proof.
  intros coll coll' p p' Hnd Hstep Hp Hp' Hid.
  assert (Same : p' = p ->
                 author p' = author p /\ createdAt p' = createdAt p
                 /\ (views p <= views p')%N
                 /\ (exists more, comments p' = (comments p ++ more)%list)
                 /\ (forall t, publishedAt p = Some t -> publishedAt p' = Some t)).
  { intros ->. repeat split; auto; try lia. exists []. now rewrite app_nil_r. }
  destruct (step_cases _ _ Hstep)
    as [-> | [(post & new & Hin & Hsucc & _ & ->)
             | [(new & Hfresh & _ & _ & _ & _ & ->) | (f & ->)]]].
  - apply Same. eapply unique_id; eauto.
  - apply in_replaceById in Hp' as [[-> _] | [Hq _]].
    + destruct Hsucc as (Hi & Ha & Hc & Hv & Hm & Hpa & _).
      assert (post = p) by (eapply unique_id; eauto; congruence). subst post.
      repeat split; auto.
    + apply Same. eapply unique_id; eauto.
  - apply in_app_or in Hp' as [Hq | [<- | []]].
    + apply Same. eapply unique_id; eauto.
    + exfalso. apply (Hfresh p Hp). auto.
  - apply filter_In in Hp' as [Hq _]. apply Same. eapply unique_id; eauto.
Qed.

(** ** The guards *)

Lemma castObjectId_valid id :
  Validation.isValidObjectId id = true -> castObjectId id = Some (Js.toLowerCase id).
Proof.
  intros H. unfold castObjectId. rewrite H.
  unfold Validation.isValidObjectId in H. apply andb_true_iff in H as [H _].
  apply Nat.eqb_eq in H. rewrite H. reflexivity.
Qed.

Lemma find_user_by_id users id u :
  Auth.findUserById users id = inr (Some u) ->
  In u users /\ castObjectId id = Some (user_id u).
Proof.
  unfold Auth.findUserById.
  destruct (castObjectId id) as [oid|]; [ | discriminate ].
  intros H. inversion H as [Hf]. apply find_some in Hf as [Hin E].
  apply String.eqb_eq in E. subst. auto.
Qed.

Lemma find_user_by_valid_id users id u :
  Validation.isValidObjectId id = true ->
  Auth.findUserById users id = inr (Some u) ->
  In u users /\ user_id u = Js.toLowerCase id.
Proof.
  intros Hv H. apply find_user_by_id in H as [Hin E].
  rewrite (castObjectId_valid _ Hv) in E. inversion E. auto.
Qed.

Lemma authenticate_next verifyToken users authorization reqUser :
  Auth.authenticate verifyToken users authorization = Auth.Next reqUser ->
  exists token decoded u,
    Auth.extractTokenFromHeader authorization = Some token
    /\ token <> ""
    /\ verifyToken token = inr decoded
    /\ Auth.findUserById users (Auth.claim_id decoded) = inr (Some u)
    /\ isActive u = true
    /\ reqUser = Some u.
Proof.
  unfold Auth.authenticate, Auth.authenticateTry.
  destruct (Auth.extractTokenFromHeader authorization) as [token|] eqn:Et; simpl;
    [ | discriminate ].
  destruct (token =? "") eqn:Ee; simpl; [ discriminate | ].
  apply String.eqb_neq in Ee.
  assert (Hc : forall e r, Auth.authenticateCatch e <> Auth.Next r).
  { intros e r. unfold Auth.authenticateCatch.
    destruct (_ || _); [ discriminate | ]. destruct (_ =? _); discriminate. }
  destruct (verifyToken token) as [e|decoded] eqn:Ev; simpl.
  { intros H. now apply Hc in H. }
  destruct (Auth.findUserById users (Auth.claim_id decoded)) as [e|[u|]] eqn:Ef; simpl.
  - intros H. now apply Hc in H.
  - destruct (isActive u) eqn:Ea; simpl; [ | discriminate ].
    intros H. inversion H. subst. exists token, decoded, u. auto 10.
  - discriminate.
Qed.

(** X4.  When [authenticate] hands a request on, the identity it attached
    is a user of the collection who is active and whose id is the object
    id that Mongoose casts the id of the claims to, the claims being those
    that [verifyToken] decoded from the bearer token of the Authorization
    header: when that id is 24 hexadecimal digits, the user's id is these
    digits in lower case; when it is a text of 12 characters below 128,
    the user's id spells the 12 bytes in hexadecimal. *)
Theorem authenticate_attaches_active_user :
  forall verifyToken users authorization reqUser,
    Auth.authenticate verifyToken users authorization = Auth.Next reqUser ->
    exists token decoded u,
      reqUser = Some u
      /\ Auth.extractTokenFromHeader authorization = Some token
      /\ verifyToken token = inr decoded
      /\ In u users
      /\ isActive u = true
      /\ castObjectId (Auth.claim_id decoded) = Some (user_id u)
      /\ (Validation.isValidObjectId (Auth.claim_id decoded) = true ->
          user_id u = Js.toLowerCase (Auth.claim_id decoded))
      /\ (String.length (Auth.claim_id decoded) = 12 ->
          user_id u = Js.toHex (Auth.claim_id decoded)).
Proof.
  intros verifyToken users authorization reqUser H.
  apply authenticate_next in H as (token & decoded & u & Ht & _ & Hv & Hf & Ha & ->).
  apply find_user_by_id in Hf as (Hin & Hid).
  exists token, decoded, u.
  split; [ reflexivity | ]. split; [ exact Ht | ]. split; [ exact Hv | ].
  split; [ exact Hin | ]. split; [ exact Ha | ]. split; [ exact Hid | ]. split.
  - intros Hvalid. rewrite (castObjectId_valid _ Hvalid) in Hid. now inversion Hid.
  - intros Hlen. unfold castObjectId in Hid. apply Nat.eqb_eq in Hlen. rewrite Hlen in Hid.
    destruct (forallb _ _); [ now inversion Hid | discriminate ].
Qed.

(** X5.  [authenticate] attaches a user to a request exactly when
    [optionalAuth] attaches that user to it: on every header the two guards
    agree on who the requester is. *)
Theorem authenticate_agrees_with_optionalAuth :
  forall verifyToken users authorization u,
    Auth.authenticate verifyToken users authorization = Auth.Next (Some u)
    <-> Auth.optionalAuth verifyToken users authorization = Auth.Next (Some u).
Proof.
  intros verifyToken users authorization u.
  unfold Auth.authenticate, Auth.authenticateTry, Auth.optionalAuth, Auth.optionalAuthTry.
  assert (Hc : forall e r, Auth.authenticateCatch e <> Auth.Next r).
  { intros e r. unfold Auth.authenticateCatch.
    destruct (_ || _); [ discriminate | ]. destruct (_ =? _); discriminate. }
  destruct (Js.truthy (Auth.extractTokenFromHeader authorization)); simpl;
    [ | split; discriminate ].
  destruct (verifyToken _) as [e|decoded]; simpl.
  { split; [ intros H; now apply Hc in H | discriminate ]. }
  destruct (Auth.findUserById users (Auth.claim_id decoded)) as [e|[v|]]; simpl.
  - split; [ intros H; now apply Hc in H | discriminate ].
  - destruct (isActive v); simpl; split; (discriminate || auto).
  - split; discriminate.
Qed.

(** X6.  When [authenticate] answers a request itself, the status is 401 or
    500; it is 500 only when verifying the token or looking the user up
    threw an error that is neither an invalid-token nor a token-expired
    error. *)
Theorem authenticate_answers_401_or_500 :
  forall verifyToken users authorization status message,
    Auth.authenticate verifyToken users authorization = Auth.Respond status message ->
    status = 401
    \/ (status = 500
        /\ exists token error,
            Auth.extractTokenFromHeader authorization = Some token
            /\ (verifyToken token = inl error
                \/ exists decoded, verifyToken token = inr decoded
                                   /\ Auth.findUserById users (Auth.claim_id decoded) = inl error)
            /\ err_message error <> "Invalid token"
            /\ err_name error <> "JsonWebTokenError"
            /\ err_name error <> "TokenExpiredError").
Proof.
  intros verifyToken users authorization status message.
  unfold Auth.authenticate, Auth.authenticateTry.
  assert (Hc : forall e,
             Auth.authenticateCatch e = Auth.Respond status message ->
             status = 401
             \/ (status = 500 /\ err_message e <> "Invalid token"
                 /\ err_name e <> "JsonWebTokenError" /\ err_name e <> "TokenExpiredError")).
  { intros e. unfold Auth.authenticateCatch.
    destruct (err_message e =? "Invalid token") eqn:E1; simpl;
      [ intros H; inversion H; auto | ].
    destruct (err_name e =? "JsonWebTokenError") eqn:E2; simpl;
      [ intros H; inversion H; auto | ].
    destruct (err_name e =? "TokenExpiredError") eqn:E3;
      intros H; inversion H; auto.
    apply String.eqb_neq in E1, E2, E3. auto. }
  destruct (Auth.extractTokenFromHeader authorization) as [token|] eqn:Et; simpl;
    [ | intros H; inversion H; auto ].
  destruct (token =? ""); simpl; [ intros H; inversion H; auto | ].
  destruct (verifyToken token) as [e|decoded] eqn:Ev; simpl.
  { intros H. destruct (Hc e H) as [-> | (-> & H1 & H2 & H3)]; auto.
    right. split; auto. exists token, e. auto 10. }
  destruct (Auth.findUserById users (Auth.claim_id decoded)) as [e|[v|]] eqn:Ef; simpl.
  - intros H. destruct (Hc e H) as [-> | (-> & H1 & H2 & H3)]; auto.
    right. split; auto. exists token, e. split; auto. split; eauto.
  - destruct (isActive v); simpl; intros H; inversion H; auto.
  - intros H; inversion H; auto.
Qed.

Lemma guarded_admin_only :
  forall verifyToken users roles authorization reqUser,
    UserRoutes.guarded verifyToken users roles authorization = inr reqUser ->
    In reqUser users
    /\ isActive reqUser = true
    /\ Auth.authenticate verifyToken users authorization = Auth.Next (Some reqUser)
    /\ (roles = [] \/ In (role reqUser) roles).
Proof.
  intros verifyToken users roles authorization reqUser. unfold UserRoutes.guarded.
  destruct (Auth.authenticate verifyToken users authorization) as [r|s m] eqn:Ea;
    [ | discriminate ].
  apply authenticate_next in Ea as (token & decoded & u & _ & _ & _ & Hf & Hact & ->).
  apply find_user_by_id in Hf as (Hin & _).
  unfold Auth.authorize.
  destruct (negb (Nat.eqb (List.length roles) 0)) eqn:E1; simpl.
  - destruct (existsb (String.eqb (role u)) roles) eqn:E2; simpl; [ | discriminate ].
    intros H. inversion H. subst. repeat split; auto.
    right. apply existsb_exists in E2 as [x [Hx E]]. apply String.eqb_eq in E. now subst.
  - intros H. inversion H. subst. repeat split; auto.
    left. apply negb_false_iff, Nat.eqb_eq in E1. now destruct roles.
Qed.

(** ** routes/users.js *)

Lemma errorHandler_not_json {A} (e : JsError) code msg (x : A) :
  ErrorHandler.errorHandler e <> Json code msg x.
Proof.
  destruct (@errorHandler_failure A e) as (c & m & es & E). rewrite E. discriminate.
Qed.

Lemma deleteUser_cases :
  forall reqUser id users,
    match UserRoutes.deleteUser reqUser id users with
    | (Json _ _ _, users') =>
        id <> user_id reqUser
        /\ (exists u, In u users /\ user_id u = Js.toLowerCase id)
        /\ (forall u, In u users' <-> In u users /\ user_id u <> Js.toLowerCase id)
    | (Failure _ _ _, users') => users' = users
    end.
Proof.
  intros reqUser id users. unfold UserRoutes.deleteUser.
  destruct (Validation.isValidObjectId id) eqn:Hv; cbn [negb]; auto.
  destruct (id =? user_id reqUser) eqn:E; auto.
  apply String.eqb_neq in E.
  destruct (Auth.findUserById users id) as [e|[u|]] eqn:Ef; auto.
  - destruct (@errorHandler_failure unit e) as (c & m & es & Ee). rewrite Ee. reflexivity.
  - apply (find_user_by_valid_id _ _ _ Hv) in Ef as (Hin & Hid).
    split; auto. split; eauto.
    intros v. rewrite filter_In, negb_true_iff, String.eqb_neq. tauto.
Qed.

(** X7.  A [deleteUser] that succeeds was given an id other than the text
    of the requester's own, an account with that id existed, and afterwards
    the collection holds exactly the users it held except those with that
    id; a [deleteUser] that fails leaves the collection as it was. *)
Theorem deleteUser_removes_exactly_that_user :
  forall reqUser id users,
    match UserRoutes.deleteUser reqUser id users with
    | (Json _ _ _, users') =>
        id <> user_id reqUser
        /\ (exists u, In u users /\ user_id u = Js.toLowerCase id)
        /\ (forall u, In u users' <-> In u users /\ user_id u <> Js.toLowerCase id)
    | (Failure _ _ _, users') => users' = users
    end.
Proof.
  intros reqUser id users. unfold UserRoutes.deleteUser.
  destruct (Validation.isValidObjectId id) eqn:Hv; cbn [negb]; [ | reflexivity ].
  destruct (id =? user_id reqUser) eqn:E; [ reflexivity | ].
  apply String.eqb_neq in E.
  destruct (Auth.findUserById users id) as [e|[u|]] eqn:Ef; [ | | reflexivity ].
  - destruct (@errorHandler_failure unit e) as (c & m & es & Ee). rewrite Ee. reflexivity.
  - apply (find_user_by_valid_id _ _ _ Hv) in Ef as (Hin & Hid).
    split; [ exact E | ]. split; [ exists u; auto | ].
    intros v. rewrite filter_In, negb_true_iff, String.eqb_neq. tauto.
Qed.

(** X8.  [deleteUser] given the requester's own id as it is stored leaves
    the collection as it was; the guard compares texts, so given that id in
    another letter case (a valid object id that differs from the stored
    text) it succeeds, and the requester is no longer in the collection. *)
Theorem deleteUser_self_guard :
  forall reqUser id users,
    (id = user_id reqUser ->
     snd (UserRoutes.deleteUser reqUser id users) = users)
    /\ (id <> user_id reqUser ->
        Validation.isValidObjectId id = true ->
        Js.toLowerCase id = user_id reqUser ->
        In reqUser users ->
        exists users',
          UserRoutes.deleteUser reqUser id users
          = (Json 200 "User deleted successfully" tt, users')
          /\ ~ In reqUser users').
Proof.
  intros reqUser id users. split.
  - intros ->. unfold UserRoutes.deleteUser.
    destruct (negb (Validation.isValidObjectId (user_id reqUser))); auto.
    now rewrite String.eqb_refl.
  - intros Hne Hv Hl Hin. unfold UserRoutes.deleteUser.
    rewrite Hv. simpl. apply String.eqb_neq in Hne. rewrite Hne.
    unfold Auth.findUserById. rewrite (castObjectId_valid _ Hv).
    destruct (find (fun u => user_id u =? Js.toLowerCase id) users) as [u|] eqn:Ef.
    + eexists. split; [ reflexivity | ].
      rewrite filter_In, Hl, String.eqb_refl. simpl. intros [_ C]. discriminate.
    + exfalso. apply (find_none _ _ Ef) in Hin.
      rewrite Hl, String.eqb_refl in Hin. discriminate.
Qed.

(** X9.  A DELETE /api/users/:id that succeeds, behind [authenticate] and
    [authorize(['admin'])], was sent by an active user of the collection
    whose role is admin and whose id is not the text of :id, and it removes
    exactly the users with that id. *)
Theorem deleteUserRoute_needs_active_admin :
  forall verifyToken authorization id users code msg users',
    UserRoutes.deleteUserRoute verifyToken authorization id users
    = (Json code msg tt, users') ->
    exists reqUser,
      In reqUser users
      /\ isActive reqUser = true
      /\ role reqUser = "admin"
      /\ id <> user_id reqUser
      /\ (forall u, In u users' <-> In u users /\ user_id u <> Js.toLowerCase id).
Proof.
  intros verifyToken authorization id users code msg users'.
  unfold UserRoutes.deleteUserRoute.
  destruct (UserRoutes.guarded verifyToken users ["admin"] authorization)
    as [[s m]|reqUser] eqn:Eg; [ discriminate | ].
  apply guarded_admin_only in Eg as (Hin & Hact & _ & [C | [Hr | []]]);
    [ discriminate | ].
  intros H. pose proof (deleteUser_cases reqUser id users) as D.
  rewrite H in D. destruct D as (Hne & _ & Hiff).
  exists reqUser. auto 10.
Qed.
(** ** What [save] throws and what the caller is told *)

Lemma errorHandler_ValidationError {A} ms :
  @ErrorHandler.errorHandler A (ValidationError ms) = Failure 400 "Validation Error" ms.
Proof. reflexivity. Qed.

Lemma errorHandler_DuplicateKey {A} field :
  @ErrorHandler.errorHandler A (DuplicateKey field) = Failure 400 (field ++ " already exists") [].
Proof. reflexivity. Qed.

Lemma save_error now d coll e :
  save now d coll = inl e ->
  (exists m ms, validateSync d = m :: ms /\ e = ValidationError (m :: ms))
  \/ (validateSync d = [] /\ (e = DuplicateKey "_id" \/ e = DuplicateKey "slug")).
Proof.
  unfold save. destruct (validateSync d) as [|m ms].
  - cbv zeta. intros H. right. split; auto.
    repeat match type of H with
    | (if ?c then _ else _) = _ => destruct c
    | match ?c with [] => _ | _ :: _ => _ end = _ => destruct c
    end; inversion H; auto.
  - intros H. inversion H. left. eauto.
Qed.

Lemma save_error_400 {A} now d coll e :
  save now d coll = inl e ->
  exists msg errs, @ErrorHandler.errorHandler A e = Failure 400 msg errs.
Proof.
  intros H. apply save_error in H as [(m & ms & _ & ->) | (_ & [-> | ->])].
  - rewrite errorHandler_ValidationError. eauto.
  - rewrite errorHandler_DuplicateKey. eauto.
  - rewrite errorHandler_DuplicateKey. eauto.
Qed.

(** A loaded document that passes validation, with neither the title
    nor the status modified, is written as it is. *)
Lemma save_plain now post d coll :
  isNew d = false ->
  modifiedPaths d <> [] ->
  validateSync d = [] ->
  isModified P_title d = false ->
  isModified P_status d = false ->
  isModified P_slug d = false ->
  fields d = post ->
  save now d coll
  = inr (with_updatedAt now post, replaceById (with_updatedAt now post) coll).
Proof.
  intros Hn Hm Hv Ht Hs Hg Hf. unfold save. rewrite Hv.
  destruct d as [p n m]. simpl in *. subst.
  unfold timestamps. cbn [isNew modifiedPaths fields].
  destruct m as [|x m]; [ congruence | ].
  unfold preSave. unfold isModified in *. cbn [modifiedPaths] in *.
  rewrite Ht. cbn [andb]. unfold isModified. cbn [modifiedPaths]. rewrite Hs. cbn [andb].
  cbn [isNew modifiedPaths fields]. unfold isModified. cbn [modifiedPaths]. rewrite Hg.
  reflexivity.
Qed.

(** ** [deletePost] *)

(** X10.  A [deletePost] that succeeds (200) found a post by the id, the
    requester is its author or an admin, and afterwards the collection
    holds exactly the posts it held except those with that id; it fails
    with 400 only for a malformed id, with 404 only when no post has the
    id, with 403 only when the post exists and the requester is neither its
    author nor an admin, and a failure leaves the collection unchanged. *)
Theorem deletePost_removes_exactly_that_post :
  forall user id coll,
    match deletePost user id coll with
    | (Json code _ _, coll') =>
        code = 200
        /\ exists post,
            findById (Js.toLowerCase id) coll = Some post
            /\ (author post = user_id user \/ role user = "admin")
            /\ (forall q, In q coll' <-> In q coll /\ _id q <> _id post)
    | (Failure code _ _, coll') =>
        coll' = coll
        /\ ((code = 400 /\ Validation.isValidObjectId id = false)
            \/ (code = 404 /\ findById (Js.toLowerCase id) coll = None)
            \/ (code = 403
                /\ exists post,
                    findById (Js.toLowerCase id) coll = Some post
                    /\ author post <> user_id user /\ role user <> "admin"))
    end.
Proof.
  intros user id coll. unfold deletePost.
  destruct (Validation.isValidObjectId id) eqn:Hv; simpl; [ | auto ].
  destruct (findById (Js.toLowerCase id) coll) as [post|] eqn:Hf; [ | auto 10 ].
  destruct (author post =? user_id user) eqn:Ea; simpl.
  - apply String.eqb_eq in Ea. split; auto. exists post. split; auto. split; auto.
    apply findById_id in Hf as [Hid _]. rewrite Hid.
    intros q. rewrite filter_In, negb_true_iff, String.eqb_neq. tauto.
  - apply String.eqb_neq in Ea. destruct (role user =? "admin") eqn:Er; simpl.
    + apply String.eqb_eq in Er. split; auto. exists post. split; auto. split; auto.
      apply findById_id in Hf as [Hid _]. rewrite Hid.
      intros q. rewrite filter_In, negb_true_iff, String.eqb_neq. tauto.
    + apply String.eqb_neq in Er. split; auto. right. right. split; auto. exists post. auto.
Qed.

(** ** [addComment] *)

Lemma trim_text_empty content :
  negb (Js.truthy content) || (String.length (Js.trim (text content)) =? 0)%nat = true
  <-> Js.trim (text content) = "".
Proof.
  assert (L : forall s, (String.length s =? 0)%nat = true <-> s = "").
  { intros s. rewrite Nat.eqb_eq. destruct s; simpl; split; congruence. }
  destruct content as [s|]; simpl.
  - destruct (s =? "") eqn:E; simpl.
    + apply String.eqb_eq in E. subst. split; auto.
    + apply L.
  - split; auto.
Qed.

Lemma addComment_found now user id content coll post :
  Js.trim (text content) <> "" ->
  Validation.isValidObjectId id = true ->
  findById (Js.toLowerCase id) coll = Some post ->
  let comment := mkComment (user_id user) (Js.trim (text content)) now in
  let post' := with_updatedAt now (with_comments (comments post ++ [comment])%list post) in
  addComment now user id content coll
  = match validateSync (hydrate (with_comments (comments post ++ [comment])%list post)) with
    | [] => (Json 201 "Comment added successfully" (Some comment), replaceById post' coll)
    | m :: ms => (Failure 400 "Validation Error" (m :: ms), coll)
    end.
Proof.
  intros Ht Hv Hf comment post'. unfold addComment.
  destruct (negb (Js.truthy content) || _) eqn:E;
    [ apply trim_text_empty in E; contradiction | ].
  rewrite Hv, Hf. cbn [negb]. fold comment.
  destruct (validateSync (hydrate (with_comments (comments post ++ [comment])%list post)))
    as [|m ms] eqn:Ev.
  - rewrite (save_plain now (with_comments (comments post ++ [comment])%list post));
      [ | reflexivity | simpl; discriminate | exact Ev | reflexivity | reflexivity
        | reflexivity | reflexivity ].
    fold post'. f_equal. f_equal. subst post'. cbn [comments with_updatedAt with_comments].
    rewrite map_app. simpl. now rewrite last_last.
  - unfold save.
    change (validateSync (set_comments (comments post ++ [comment])%list (hydrate post)))
      with (validateSync (hydrate (with_comments (comments post ++ [comment])%list post))).
    rewrite Ev. reflexivity.
Qed.

(** X11.  A successful [addComment] (201) found the post by its id, the
    trimmed text has between 1 and 500 characters, the answer carries the
    comment made of the requester's id, the trimmed text and the current
    time, and the stored post is the old one with that comment appended and
    [updatedAt] set to the current time; a failure answers 400 or 404 and
    leaves the collection unchanged. *)
Theorem addComment_appends_the_trimmed_comment :
  forall now user id content coll,
    match addComment now user id content coll with
    | (Json code _ data, coll') =>
        code = 201
        /\ exists post,
            findById (Js.toLowerCase id) coll = Some post
            /\ data = Some (mkComment (user_id user) (Js.trim (text content)) now)
            /\ (1 <= String.length (Js.trim (text content)) <= 500)%nat
            /\ coll' = replaceById
                         (with_updatedAt now
                            (with_comments
                               (comments post
                                ++ [mkComment (user_id user) (Js.trim (text content)) now])%list
                               post))
                         coll
    | (Failure code _ _, coll') => coll' = coll /\ (code = 400 \/ code = 404)
    end.
Proof.
  intros now user id content coll.
  destruct (string_dec (Js.trim (text content)) "") as [Ht | Ht].
  { unfold addComment. apply trim_text_empty in Ht. rewrite Ht. auto. }
  destruct (Validation.isValidObjectId id) eqn:Hv.
  2:{ unfold addComment. rewrite Hv.
      destruct (negb (Js.truthy content) || _); simpl; auto. }
  destruct (findById (Js.toLowerCase id) coll) as [post|] eqn:Hf.
  2:{ unfold addComment. rewrite Hv, Hf.
      destruct (negb (Js.truthy content) || _); simpl; auto. }
  rewrite (addComment_found now user id content coll post Ht Hv Hf).
  destruct (validateSync _) as [|m ms] eqn:Ev; [ | auto ].
  split; auto. exists post. split; auto. split; auto. split; auto.
  apply validateSync_nil in Ev. destruct Ev as (_ & _ & _ & _ & Ev).
  apply (Ev (mkComment (user_id user) (Js.trim (text content)) now)).
  cbn [hydrate fields comments with_comments]. apply in_or_app. right. now left.
Qed.

(** X12.  [addComment] refuses a text that is missing, empty or white space
    only with 400 'Comment content is required', whatever the id; and a
    text of more than 500 characters after trimming, for a post that
    exists, with 400 'Validation Error' whose messages include 'Comment must
    be less than 500 characters', leaving the collection unchanged. *)
Theorem addComment_refuses_blank_and_long_text :
  forall now user id content coll,
    (Js.trim (text content) = "" ->
     addComment now user id content coll
     = (Failure 400 "Comment content is required" [], coll))
    /\ (forall post,
        (500 < String.length (Js.trim (text content)))%nat ->
        Validation.isValidObjectId id = true ->
        findById (Js.toLowerCase id) coll = Some post ->
        exists errs,
          addComment now user id content coll = (Failure 400 "Validation Error" errs, coll)
          /\ In "Comment must be less than 500 characters" errs).
Proof.
  intros now user id content coll. split.
  - intros Ht. unfold addComment. apply trim_text_empty in Ht. now rewrite Ht.
  - intros post Hl Hv Hf.
    assert (Ht : Js.trim (text content) <> "").
    { intros E. rewrite E in Hl. simpl in Hl. lia. }
    rewrite (addComment_found now user id content coll post Ht Hv Hf).
    set (c := mkComment (user_id user) (Js.trim (text content)) now).
    assert (Hin : In "Comment must be less than 500 characters"
                     (validateSync (hydrate (with_comments (comments post ++ [c])%list post)))).
    { unfold validateSync. cbv zeta. cbn [hydrate fields comments with_comments].
      do 4 (apply in_or_app; right).
      apply in_flat_map. exists c. split; [ apply in_or_app; right; now left | ].
      unfold commentError. subst c. cbn [comment_content].
      apply String.eqb_neq in Ht. rewrite Ht.
      apply Nat.ltb_lt in Hl. rewrite Hl. now left. }
    destruct (validateSync _) as [|m ms]; [ destruct Hin | ].
    eauto.
Qed.

(** ** [createPost] *)

Lemma createPost_category categories now newId user body coll code msg post' coll' :
  createPost categories now newId user body coll = (Json code msg post', coll') ->
  match b_category body with
  | Some c =>
      if c =? "" then True
      else Validation.isValidObjectId c = true
           /\ exists cat, In cat categories /\ category_id cat = Js.toLowerCase c
  | None => True
  end.
Proof.
  unfold createPost.
  destruct (negb (Js.truthy (b_title body)) || negb (Js.truthy (b_content body)));
    [ discriminate | ].
  destruct (b_category body) as [c|]; [ | auto ].
  simpl. destruct (c =? ""); [ auto | ]. simpl.
  destruct (Validation.isValidObjectId c) eqn:Hv; [ | discriminate ]. simpl.
  unfold findCategoryById. rewrite (castObjectId_valid _ Hv).
  destruct (find _ categories) as [cat|] eqn:Hf; [ | discriminate ].
  intros _. split; auto. apply find_some in Hf as [Hin E].
  apply String.eqb_eq in E. eauto.
Qed.

Lemma createPost_code categories now newId user body coll code msg errs coll' :
  createPost categories now newId user body coll = (Failure code msg errs, coll') ->
  code = 400.
Proof.
  unfold createPost.
  repeat match goal with
  | |- (if ?c then _ else _) = _ -> _ => destruct c; [ now inversion 1 | ]
  end.
  destruct (save _ _ _) as [e|[saved c]] eqn:Hs; [ | discriminate ].
  destruct (@save_error_400 Post _ _ _ _ Hs) as (m & es & ->). now inversion 1.
Qed.

(** X13.  A successful [createPost] (201) appends to the collection, and
    returns, the post with the generated id, the trimmed title, the
    content, the requester as author, the category (in lower case) or none,
    the tags trimmed and lower-cased, the slug derived from the trimmed
    title, the excerpt as given, the image as given or the empty text, the
    status as given or draft, the current time as publication date exactly
    when the status is published, no views, likes or comments, and both
    time stamps set to the current time; no stored post had that id or that
    slug, and the category, if any, exists. *)
Theorem createPost_stores_the_post_with_its_defaults :
  forall categories now newId user body coll code msg post' coll',
    createPost categories now newId user body coll = (Json code msg post', coll') ->
    code = 201
    /\ post' =
       mkPost newId (Js.trim (text (b_title body))) (text (b_content body)) (user_id user)
              (if Js.truthy (b_category body) then Some (Js.toLowerCase (text (b_category body)))
               else None)
              (map tagSetter (match b_tags body with Some t => t | None => [] end))
              (Some (slugify (Js.trim (text (b_title body)))))
              (b_excerpt body)
              (match b_featuredImage body with Some f => f | None => "" end)
              (if Js.truthy (b_status body) then text (b_status body) else "draft")
              (if (if Js.truthy (b_status body) then text (b_status body) else "draft")
                  =? "published"
               then Some now else None)
              0%N [] [] now now
    /\ coll' = (coll ++ [post'])%list
    /\ (forall q, In q coll -> _id q <> newId /\ slug q <> slug post')
    /\ (forall c, category post' = Some c ->
                  exists cat, In cat categories /\ category_id cat = c).
Proof.
  intros categories now newId user body coll code msg post' coll' H.
  pose proof (createPost_created _ _ _ _ _ _ _ _ _ _ H) as (Hrec & Hfree & _).
  pose proof (createPost_category _ _ _ _ _ _ _ _ _ _ H) as Hcat.
  apply createPost_json in H as (Hcode & Hcoll & Hfresh & _ & _).
  assert (Hc : (if Js.truthy (b_category body) then castObjectId (text (b_category body))
                else None)
               = (if Js.truthy (b_category body)
                  then Some (Js.toLowerCase (text (b_category body))) else None)).
  { destruct (b_category body) as [c|]; simpl in *; auto.
    destruct (c =? ""); simpl; auto. destruct Hcat as [Hv _].
    now rewrite castObjectId_valid. }
  rewrite Hc in Hrec.
  split; [ exact Hcode | ]. split; [ exact Hrec | ]. split; [ exact Hcoll | ]. split.
  - intros q Hq. assert (Hid : _id post' = newId) by (rewrite Hrec; reflexivity).
    rewrite <- Hid. split; [ now apply Hfresh | ].
    eapply slugTaken_false; eauto.
  - intros c. rewrite Hrec. cbn [category].
    destruct (b_category body) as [c0|]; simpl in *; [ | discriminate ].
    destruct (c0 =? ""); simpl; [ discriminate | ].
    intros E. inversion E. subst. now destruct Hcat.
Qed.

(** X14.  When a stored post already has the slug that the title of the
    request derives, [createPost] fails with status 400 and leaves the
    collection unchanged: two posts whose titles give the same slug cannot
    both be created. *)
Theorem createPost_refuses_a_taken_slug :
  forall categories now newId user body coll q,
    In q coll ->
    slug q = Some (slugify (Js.trim (text (b_title body)))) ->
    exists msg errs,
      createPost categories now newId user body coll = (Failure 400 msg errs, coll).
Proof.
  intros categories now newId user body coll q Hq Hslug.
  destruct (createPost categories now newId user body coll)
    as [[code msg post'|code msg errs] coll'] eqn:E.
  - exfalso.
    pose proof (createPost_created _ _ _ _ _ _ _ _ _ _ E) as (Hrec & Hfree & _).
    apply createPost_json in E as (_ & _ & Hfresh & _ & _).
    apply (slugTaken_false _ _ _ Hfree Hq (Hfresh q Hq)).
    rewrite Hslug, Hrec. reflexivity.
  - pose proof (createPost_code _ _ _ _ _ _ _ _ _ _ E) as ->.
    pose proof (createPost_failure _ _ _ _ _ _ _ _ _ _ E) as ->. eauto.
Qed.

(** ** [updatePost] *)

Lemma listEqb_eq a b : listEqb a b = true -> a = b.
Proof.
  revert b. induction a as [|x a IH]; destruct b as [|y b]; simpl; try congruence.
  intros H. apply andb_true_iff in H as [H1 H2]. apply String.eqb_eq in H1.
  f_equal; auto.
Qed.

Lemma assign_value {A} (proj : Post -> A) path differs f d v :
  (forall p, proj (f p) = v) ->
  (differs = false -> proj (fields d) = v) ->
  proj (fields (assign path differs f d)) = v.
Proof.
  intros Hf Hd. unfold assign. destruct (isNew d || differs) eqn:E; simpl; auto.
  apply orb_false_iff in E as [_ E]. auto.
Qed.

Lemma set_title_value v d : title (fields (set_title v d)) = Js.trim v.
Proof.
  unfold set_title. apply assign_value; [ reflexivity | ].
  intros E. apply negb_false_iff, String.eqb_eq in E. auto.
Qed.

Lemma set_content_value v d : content (fields (set_content v d)) = v.
Proof.
  unfold set_content. apply assign_value; [ reflexivity | ].
  intros E. apply negb_false_iff, String.eqb_eq in E. auto.
Qed.

Lemma set_category_value v d : category (fields (set_category v d)) = v.
Proof.
  unfold set_category. apply assign_value; [ reflexivity | ].
  intros E. apply negb_false_iff, optEqb_eq in E. auto.
Qed.

Lemma set_tags_value v d : tags (fields (set_tags v d)) = map tagSetter v.
Proof.
  unfold set_tags. apply assign_value; [ reflexivity | ].
  intros E. apply negb_false_iff, listEqb_eq in E. auto.
Qed.

Lemma set_excerpt_value v d : excerpt (fields (set_excerpt v d)) = Some v.
Proof.
  unfold set_excerpt. apply assign_value; [ reflexivity | ].
  intros E. apply negb_false_iff, optEqb_eq in E. auto.
Qed.

Lemma set_featuredImage_value v d : featuredImage (fields (set_featuredImage v d)) = v.
Proof.
  unfold set_featuredImage. apply assign_value; [ reflexivity | ].
  intros E. apply negb_false_iff, String.eqb_eq in E. auto.
Qed.

Lemma set_status_value v d : status (fields (set_status v d)) = v.
Proof.
  unfold set_status. apply assign_value; [ reflexivity | ].
  intros E. apply negb_false_iff, String.eqb_eq in E. auto.
Qed.

Lemma updateFields_values body d :
  title (fields (updateFields body d))
  = (if Js.truthy (b_title body) then Js.trim (text (b_title body)) else title (fields d))
  /\ content (fields (updateFields body d))
     = (if Js.truthy (b_content body) then text (b_content body) else content (fields d))
  /\ category (fields (updateFields body d))
     = match b_category body with
       | Some c => if c =? "" then None else castObjectId c
       | None => category (fields d)
       end
  /\ tags (fields (updateFields body d))
     = match b_tags body with Some t => map tagSetter t | None => tags (fields d) end
  /\ excerpt (fields (updateFields body d))
     = match b_excerpt body with Some e => Some e | None => excerpt (fields d) end
  /\ featuredImage (fields (updateFields body d))
     = match b_featuredImage body with Some f => f | None => featuredImage (fields d) end
  /\ status (fields (updateFields body d))
     = (if Js.truthy (b_status body) then text (b_status body) else status (fields d)).
Proof.
  assert (F : forall {A} (proj : Post -> A) path differs f x,
             (forall p, proj (f p) = proj p) ->
             proj (fields (assign path differs f x)) = proj (fields x)).
  { intros. now apply assign_frame. }
  split_update body; repeat split;
    repeat first
      [ rewrite set_title_value | rewrite set_content_value | rewrite set_category_value
      | rewrite set_tags_value | rewrite set_excerpt_value | rewrite set_featuredImage_value
      | rewrite set_status_value
      | (unfold set_status at 1; rewrite F by reflexivity)
      | (unfold set_featuredImage at 1; rewrite F by reflexivity)
      | (unfold set_excerpt at 1; rewrite F by reflexivity)
      | (unfold set_tags at 1; rewrite F by reflexivity)
      | (unfold set_category at 1; rewrite F by reflexivity)
      | (unfold set_content at 1; rewrite F by reflexivity)
      | (unfold set_title at 1; rewrite F by reflexivity) ];
    reflexivity.
Qed.

(** X15.  After a successful [updatePost] the post keeps its id, author,
    views, likes, comments and creation date; its title, content, category,
    tags, excerpt, image and status are those of the body where the body
    gives them (title, content and status only when not empty; the title
    trimmed, the tags trimmed and lower-cased, the category cast to an
    object id, an empty one clearing it) and the stored ones otherwise; and either nothing changed and
    nothing was written, or [updatedAt] is the current time and the post
    replaces the stored one. *)
Theorem updatePost_changes_what_the_body_names :
  forall categories now user id body coll code msg post' coll',
    updatePost categories now user id body coll = (Json code msg post', coll') ->
    exists post,
      findById (Js.toLowerCase id) coll = Some post
      /\ (author post = user_id user \/ role user = "admin")
      /\ _id post' = _id post
      /\ author post' = author post
      /\ views post' = views post
      /\ likes post' = likes post
      /\ comments post' = comments post
      /\ createdAt post' = createdAt post
      /\ title post'
         = (if Js.truthy (b_title body) then Js.trim (text (b_title body)) else title post)
      /\ content post'
         = (if Js.truthy (b_content body) then text (b_content body) else content post)
      /\ category post'
         = match b_category body with
           | Some c => if c =? "" then None else castObjectId c
           | None => category post
           end
      /\ tags post'
         = match b_tags body with Some t => map tagSetter t | None => tags post end
      /\ excerpt post'
         = match b_excerpt body with Some e => Some e | None => excerpt post end
      /\ featuredImage post'
         = match b_featuredImage body with Some f => f | None => featuredImage post end
      /\ status post'
         = (if Js.truthy (b_status body) then text (b_status body) else status post)
      /\ ((post' = post /\ coll' = coll)
          \/ (updatedAt post' = now /\ coll' = replaceById post' coll)).
Proof.
  intros categories now user id body coll code msg post' coll' H.
  apply updatePost_json in H as (post & _ & Hf & Hauth & Hs & _).
  exists post. split; [ exact Hf | ]. split; [ exact Hauth | ].
  pose proof (save_inr _ _ _ _ _ Hs) as [_ Hp].
  destruct (updateFields_values body (hydrate post)) as (V1 & V2 & V3 & V4 & V5 & V6 & V7).
  assert (Hn : isNew (updateFields body (hydrate post)) = false)
    by now rewrite updateFields_isNew.
  assert (K : forall {A} (proj : Post -> A),
             (forall v p, proj (with_slug v p) = proj p) ->
             (forall v p, proj (with_publishedAt v p) = proj p) ->
             (forall v p, proj (with_createdAt v p) = proj p) ->
             (forall v p, proj (with_updatedAt v p) = proj p) ->
             proj post' = proj (fields (updateFields body (hydrate post)))).
  { intros A proj H1 H2 H3 H4. rewrite Hp, preSave_frame, timestamps_frame; auto. }
  split; [ rewrite (K _ _id), (updateFields_frame _id) by reflexivity; reflexivity | ].
  split; [ rewrite (K _ author), (updateFields_frame author) by reflexivity; reflexivity | ].
  split; [ rewrite (K _ views), (updateFields_frame views) by reflexivity; reflexivity | ].
  split; [ rewrite (K _ likes), (updateFields_frame likes) by reflexivity; reflexivity | ].
  split; [ rewrite (K _ comments), (updateFields_frame comments) by reflexivity; reflexivity | ].
  split.
  { rewrite Hp, preSave_frame by reflexivity. unfold timestamps. rewrite Hn.
    destruct (modifiedPaths _); cbn [fields with_updatedAt createdAt];
      rewrite (updateFields_frame createdAt) by reflexivity; reflexivity. }
  split; [ rewrite (K _ title) by reflexivity; exact V1 | ].
  split; [ rewrite (K _ content) by reflexivity; exact V2 | ].
  split; [ rewrite (K _ category) by reflexivity; exact V3 | ].
  split; [ rewrite (K _ tags) by reflexivity; exact V4 | ].
  split; [ rewrite (K _ excerpt) by reflexivity; exact V5 | ].
  split; [ rewrite (K _ featuredImage) by reflexivity; exact V6 | ].
  split; [ rewrite (K _ status) by reflexivity; exact V7 | ].
  destruct (save_loaded _ _ _ _ _ Hn Hs) as [(Hm & Hq & Hc) | (Hm & Hc)].
  - left. split; [ | exact Hc ].
    destruct (updateFields_grows body (hydrate post)) as [E | E]; [ | contradiction ].
    rewrite Hq, E. reflexivity.
  - right. split; [ | exact Hc ].
    rewrite Hp, preSave_frame by reflexivity. unfold timestamps. rewrite Hn.
    destruct (modifiedPaths (updateFields body (hydrate post))); [ contradiction | ].
    reflexivity.
Qed.

(** ** [getPost], the identifier *)

(** X16.  [getPost] takes an identifier of 24 hexadecimal digits as an id
    and every other identifier as a slug, never both: the post it returns
    has that id (in lower case), respectively that slug (trimmed, in lower
    case); when it answers 404, no post the requester may see has that
    id, respectively that slug; and every other failure is a 400 for a
    stored post that has that id, respectively that slug, which the
    requester may see and which breaks the schema.  So a post whose slug
    has the shape of an id is not found by its slug. *)
Theorem getPost_looks_up_by_id_or_by_slug :
  forall now reqUser identifier coll,
    match getPost now reqUser identifier coll with
    | (Json _ _ post', _) =>
        if Validation.isValidObjectId identifier
        then _id post' = Js.toLowerCase identifier
        else slug post' = Some (slugSetter identifier)
    | (Failure code _ _, _) =>
        (code = 404
         /\ forall p,
             In p coll ->
             (notAdmin reqUser = true -> status p = "published") ->
             if Validation.isValidObjectId identifier
             then _id p <> Js.toLowerCase identifier
             else slug p <> Some (slugSetter identifier))
        \/ (code = 400
            /\ exists p,
                In p coll
                /\ (notAdmin reqUser = true -> status p = "published")
                /\ (if Validation.isValidObjectId identifier
                    then _id p = Js.toLowerCase identifier
                    else slug p = Some (slugSetter identifier))
                /\ ~ validPost p)
    end.
Proof.
  intros now reqUser identifier coll.
  destruct (find (getPostQuery reqUser identifier) coll) as [post|] eqn:E.
  - pose proof (find_some _ _ E) as [Hin Hq].
    unfold getPostQuery in Hq. apply andb_true_iff in Hq as [Hq Hst].
    assert (Hkey : if Validation.isValidObjectId identifier
                   then _id post = Js.toLowerCase identifier
                   else slug post = Some (slugSetter identifier)).
    { destruct (Validation.isValidObjectId identifier).
      - now apply String.eqb_eq.
      - now apply optEqb_eq. }
    destruct (getPost_cases_found now _ _ _ _ E)
      as [(m & ms & -> & Hbad) | (_ & v & t & H & _)].
    + right. split; [ reflexivity | ]. exists post.
      split; [ exact Hin | ]. split; [ | split; [ exact Hkey | exact Hbad ] ].
      intros Hna. rewrite Hna in Hst. now apply String.eqb_eq.
    + destruct (getPost now reqUser identifier coll) as [[c m p'|c m es] coll'];
        simpl in H; [ | discriminate ].
      inversion H. exact Hkey.
  - rewrite (getPost_missing _ _ _ _ E). left. split; [ reflexivity | ].
    intros p Hp Hst.
    apply (find_none _ _ E) in Hp. unfold getPostQuery in Hp.
    apply andb_false_iff in Hp as [Hp | Hp].
    + destruct (Validation.isValidObjectId identifier).
      * now apply String.eqb_neq.
      * intros C. apply optEqb_eq in C. congruence.
    + exfalso. destruct (notAdmin reqUser); [ | discriminate ].
      rewrite Hst in Hp by reflexivity. discriminate.
Qed.

(** ** Ids in either letter case *)

Lemma lowerChar_idempotent c : Js.lowerChar (Js.lowerChar c) = Js.lowerChar c.
Proof. destruct c as [[] [] [] [] [] [] [] []]; reflexivity. Qed.

Lemma isHexDigit_lowerChar c : Js.isHexDigit (Js.lowerChar c) = Js.isHexDigit c.
Proof. destruct c as [[] [] [] [] [] [] [] []]; reflexivity. Qed.

Lemma length_chars s : List.length (Js.chars s) = String.length s.
Proof. induction s; simpl; auto. Qed.

Lemma length_str l : String.length (Js.str l) = List.length l.
Proof. induction l; simpl; auto. Qed.

Lemma str_chars s : Js.str (Js.chars s) = s.
Proof. induction s; simpl; congruence. Qed.

Lemma toLowerCase_idempotent s : Js.toLowerCase (Js.toLowerCase s) = Js.toLowerCase s.
Proof.
  unfold Js.toLowerCase. rewrite chars_str, map_map. f_equal.
  apply map_ext. intros c. apply lowerChar_idempotent.
Qed.

Lemma isValidObjectId_toLowerCase s :
  Validation.isValidObjectId (Js.toLowerCase s) = Validation.isValidObjectId s.
Proof.
  unfold Validation.isValidObjectId, Js.toLowerCase.
  rewrite chars_str, length_str, length_map, length_chars. f_equal.
  induction (Js.chars s) as [|c r IH]; simpl; auto.
  now rewrite isHexDigit_lowerChar, IH.
Qed.

(** X17.  [getPost], [updatePost], [deletePost], [toggleLike] and
    [addComment] give the same answer and the same collection for an id and
    for the same text in lower case: the ids in the path are matched
    whatever the letter case of their digits. *)
Theorem post_ids_are_matched_in_either_letter_case :
  forall categories now reqUser user id body content coll,
    getPost now reqUser (Js.toLowerCase id) coll = getPost now reqUser id coll
    /\ updatePost categories now user (Js.toLowerCase id) body coll
       = updatePost categories now user id body coll
    /\ deletePost user (Js.toLowerCase id) coll = deletePost user id coll
    /\ toggleLike now user (Js.toLowerCase id) coll = toggleLike now user id coll
    /\ addComment now user (Js.toLowerCase id) content coll
       = addComment now user id content coll.
Proof.
  intros categories now reqUser user id body content coll.
  unfold getPost, getPostQuery, updatePost, deletePost, toggleLike, addComment, slugSetter.
  rewrite isValidObjectId_toLowerCase, toLowerCase_idempotent.
  repeat split; reflexivity.
Qed.

(** ** Status codes *)

Lemma updatePost_code categories now user id body coll :
  In (codeOf (fst (updatePost categories now user id body coll))) [200; 400; 403; 404].
Proof.
  unfold updatePost.
  repeat match goal with
  | |- context [if ?c then (Failure _ _ _, _) else _] => destruct c; [ simpl; auto 10 | ]
  | |- context [match findById ?i ?c with Some _ => _ | None => _ end] =>
      destruct (findById i c); [ | simpl; auto 10 ]
  end.
  destruct (save _ _ _) as [e|[saved c]] eqn:Hs; [ | simpl; auto 10 ].
  destruct (@save_error_400 Post _ _ _ _ Hs) as (m & es & ->). simpl. auto 10.
Qed.

Lemma toggleLike_code now user id coll :
  In (codeOf (fst (toggleLike now user id coll))) [200; 400; 404].
Proof.
  destruct (Validation.isValidObjectId id) eqn:Hv.
  - destruct (findById (Js.toLowerCase id) coll) as [post|] eqn:Hf.
    + rewrite (toggleLike_found _ _ _ _ _ Hv Hf).
      destruct (validateSync (hydrate post)); simpl; auto.
    + unfold toggleLike. rewrite Hv, Hf. simpl. auto.
  - unfold toggleLike. rewrite Hv. simpl. auto.
Qed.

Lemma addComment_code now user id content coll :
  In (codeOf (fst (addComment now user id content coll))) [201; 400; 404].
Proof.
  unfold addComment.
  repeat match goal with
  | |- context [if ?c then (Failure _ _ _, _) else _] => destruct c; [ simpl; auto 10 | ]
  | |- context [match findById ?i ?c with Some _ => _ | None => _ end] =>
      destruct (findById i c); [ | simpl; auto 10 ]
  end.
  destruct (save _ _ _) as [e|[saved c]] eqn:Hs; [ | simpl; auto 10 ].
  destruct (@save_error_400 (option Comment) _ _ _ _ Hs) as (m & es & ->). simpl. auto 10.
Qed.

(** X18.  The post controller answers with these status codes only:
    [getPost] 200, 400 or 404; [createPost] 201 or 400; [updatePost] and
    [deletePost] 200, 400, 403 or 404; [toggleLike] 200, 400 or 404;
    [addComment], for a content that is a text or is missing, 201, 400 or
    404.  A validation error or a duplicate key thrown by [save] is
    answered 400 by the error handler; [getPost] answers 400 only for a
    stored post that breaks the schema. *)
Theorem postController_status_codes :
  forall categories now newId reqUser user identifier id body content coll,
    In (codeOf (fst (getPost now reqUser identifier coll))) [200; 400; 404]
    /\ (codeOf (fst (getPost now reqUser identifier coll)) = 400 ->
        exists p, In p coll /\ ~ validPost p)
    /\ In (codeOf (fst (createPost categories now newId user body coll))) [201; 400]
    /\ In (codeOf (fst (updatePost categories now user id body coll))) [200; 400; 403; 404]
    /\ In (codeOf (fst (deletePost user id coll))) [200; 400; 403; 404]
    /\ In (codeOf (fst (toggleLike now user id coll))) [200; 400; 404]
    /\ In (codeOf (fst (addComment now user id content coll))) [201; 400; 404].
Proof.
  intros categories now newId reqUser user identifier id body content coll.
  split; [ | split; [ | split; [ | split; [ | split; [ | split ] ] ] ] ].
  - destruct (find (getPostQuery reqUser identifier) coll) as [post|] eqn:E.
    + destruct (getPost_cases_found now _ _ _ _ E)
        as [(m & ms & -> & _) | (_ & v & t & -> & _)]; simpl; auto.
    + rewrite (getPost_missing _ _ _ _ E). simpl. auto.
  - destruct (find (getPostQuery reqUser identifier) coll) as [post|] eqn:E.
    + destruct (getPost_cases_found now _ _ _ _ E)
        as [(m & ms & -> & Hbad) | (_ & v & t & -> & _)]; simpl.
      * intros _. exists post. split; [ now apply find_some in E | exact Hbad ].
      * discriminate.
    + rewrite (getPost_missing _ _ _ _ E). simpl. discriminate.
  - destruct (createPost categories now newId user body coll)
      as [[code msg post'|code msg errs] coll'] eqn:E.
    + apply createPost_json in E as (-> & _). simpl. auto.
    + apply createPost_code in E as ->. simpl. auto.
  - apply updatePost_code.
  - unfold deletePost.
    repeat match goal with
    | |- context [if ?c then (Failure _ _ _, _) else _] => destruct c; [ simpl; auto 10 | ]
    | |- context [match findById ?i ?c with Some _ => _ | None => _ end] =>
        destruct (findById i c); [ | simpl; auto 10 ]
    end.
    simpl. auto.
  - apply toggleLike_code.
  - apply addComment_code.
Qed.

(** ** [getPosts], a search text that is no pattern *)

(** X19.  When the search text of [getPosts] is not empty and does not
    compile as a regular expression ([new RegExp] throws a SyntaxError with
    a message that is not empty and does not contain 'Too many requests'),
    the request is answered by the error handler with status 500 and that
    message. *)
Theorem getPosts_answers_500_to_a_bad_search_pattern :
  forall compileRegExp reqUser q coll search message,
    q_search q = Some search ->
    search <> "" ->
    compileRegExp search = inl (plainError "SyntaxError" message) ->
    message <> "" ->
    Js.includes message "Too many requests" = false ->
    getPosts compileRegExp reqUser q coll = Some (Failure 500 message []).
Proof.
  intros compileRegExp reqUser q coll search message Hq Hne Hc Hm Hi.
  unfold getPosts, buildQuery. rewrite Hq. cbn [Js.truthy text].
  apply String.eqb_neq in Hne. rewrite Hne. cbn [negb]. rewrite Hc. cbn [andThen].
  unfold ErrorHandler.errorHandler, plainError, ErrorHandler.codeIs.
  cbn [err_name err_message err_status err_code err_keyValue err_errors].
  apply String.eqb_neq in Hm. rewrite Hm, Hi. reflexivity.
Qed.

(** ** Listing: order and page sizes *)

Lemma compareOptDate_antisym a b : compareOptDate b a = CompOpp (compareOptDate a b).
Proof. destruct a, b; simpl; auto. apply N.compare_antisym. Qed.

Lemma compareField_antisym sortBy a b :
  compareField sortBy b a = CompOpp (compareField sortBy a b).
Proof.
  unfold compareField.
  repeat match goal with |- context [if ?c then _ else _] => destruct c end;
    auto using N.compare_antisym, String.compare_antisym, compareOptDate_antisym.
Qed.

Lemma goesBefore_total sortBy direction a b :
  direction <> 0%Z ->
  goesBefore sortBy direction a b = false -> goesBefore sortBy direction b a = true.
Proof.
  intros Hd. unfold goesBefore. rewrite (compareField_antisym sortBy a b).
  destruct (compareField sortBy a b); simpl; try discriminate.
  - intros H. apply Z.ltb_ge in H. apply Z.ltb_lt. lia.
  - intros H. apply Z.ltb_ge in H. apply Z.ltb_lt. lia.
Qed.

Lemma insertBy_sorted (before : Post -> Post -> bool) x l :
  (forall a b, before a b = false -> before b a = true) ->
  Sorted (fun a b => before a b = true) l ->
  Sorted (fun a b => before a b = true) (insertBy before x l).
Proof.
  intros Ht. induction l as [|y r IH]; intros Hs; simpl.
  - constructor; constructor.
  - destruct (before x y) eqn:E.
    + constructor; auto.
    + inversion Hs as [|? ? Hr Hh]; subst. constructor; auto.
      destruct r as [|z r]; simpl.
      * constructor. auto.
      * destruct (before x z); constructor; auto.
        inversion Hh. assumption.
Qed.

Lemma sortDocs_sorted sortBy direction l :
  direction <> 0%Z ->
  Sorted (fun a b => goesBefore sortBy direction a b = true) (sortDocs sortBy direction l).
Proof.
  intros Hd. unfold sortDocs. induction l as [|x r IH]; simpl; [ constructor | ].
  apply insertBy_sorted; auto. intros a b. now apply goesBefore_total.
Qed.

Lemma Sorted_tail {A} (R : A -> A -> Prop) x l : Sorted R (x :: l) -> Sorted R l.
Proof. now inversion 1. Qed.

Lemma Sorted_skipn {A} (R : A -> A -> Prop) n l : Sorted R l -> Sorted R (skipn n l).
Proof.
  revert l. induction n as [|n IH]; intros l H; [ exact H | ].
  destruct l as [|x r]; [ constructor | ]. simpl. apply IH. eapply Sorted_tail; eauto.
Qed.

Lemma Sorted_firstn {A} (R : A -> A -> Prop) n l : Sorted R l -> Sorted R (firstn n l).
Proof.
  revert l. induction n as [|n IH]; intros l H; [ constructor | ].
  destruct l as [|x r]; [ constructor | ]. simpl.
  inversion H as [|? ? Hr Hh]; subst. constructor; auto.
  destruct r as [|y r]; destruct n; simpl; constructor. now inversion Hh.
Qed.

(** X20.  The posts of a page returned by [getPosts] are in the requested
    order: each goes before the next one by the sort field (createdAt when
    none is given), descending when the sort order is 'desc' or not given,
    ascending otherwise. *)
Theorem getPosts_page_is_in_the_requested_order :
  forall compileRegExp reqUser q coll code msg page,
    getPosts compileRegExp reqUser q coll = Some (Json code msg page) ->
    Sorted (fun a b =>
              goesBefore (match q_sortBy q with Some s => s | None => "createdAt" end)
                         (if match q_sortOrder q with Some s => s | None => "desc" end =? "desc"
                          then (-1)%Z else 1%Z)
                         a b = true)
           (posts page).
Proof.
  intros compileRegExp reqUser q coll code msg page H.
  apply getPosts_json in H as (query & pg & lim & _ & _ & _ & _ & _ & _ & ->).
  cbn [posts]. apply Sorted_firstn, Sorted_skipn, sortDocs_sorted.
  destruct (_ =? "desc"); discriminate.
Qed.

(** X21.  For a page returned by [getPosts] with a page number and a
    limit that are at least 1: the number of posts on it is the smaller
    of the limit and what is left of the total after the pages before
    it; [hasNextPage] holds exactly when currentPage * limit <
    totalPosts; totalPages is the least number of pages that hold
    totalPosts; and a page beyond totalPages is empty. *)
Theorem getPosts_page_sizes :
  forall compileRegExp reqUser q coll code msg page,
    getPosts compileRegExp reqUser q coll = Some (Json code msg page) ->
    (1 <= currentPage (pagination page))%Z ->
    (1 <= limit (pagination page))%Z ->
    let pg := pagination page in
    Z.of_nat (List.length (posts page))
    = Z.min (limit pg) (Z.max 0 (totalPosts pg - (currentPage pg - 1) * limit pg))
    /\ (hasNextPage pg = true <-> (currentPage pg * limit pg < totalPosts pg)%Z)
    /\ ((totalPages pg - 1) * limit pg < totalPosts pg <= totalPages pg * limit pg)%Z
    /\ ((totalPages pg < currentPage pg)%Z -> posts page = []).
Proof.
  intros compileRegExp reqUser q coll code msg page H.
  apply getPosts_json in H as (query & pg & lim & _ & _ & _ & _ & _ & _ & ->).
  cbn [pagination posts limit totalPosts currentPage hasNextPage totalPages].
  intros Hp Hl.
  set (found := filter (matches query) coll).
  set (sorted := sortDocs _ _ found).
  assert (Hlen : List.length sorted = List.length found)
    by (apply Permutation_length, sortDocs_perm).
  pose proof (ceilDiv_bounds (Z.of_nat (List.length found)) lim ltac:(lia)) as B.
  assert (Hsize : Z.of_nat (List.length (firstn (Z.to_nat lim)
                                                (skipn (Z.to_nat ((pg - 1) * lim)) sorted)))
                  = Z.min lim (Z.max 0 (Z.of_nat (List.length found) - (pg - 1) * lim))).
  { rewrite length_firstn, length_skipn, Hlen. nia. }
  split; [ exact Hsize | ]. split; [ | split; [ exact B | ] ].
  - rewrite Z.ltb_lt. nia.
  - intros Hlt. apply length_zero_iff_nil. nia.
Qed.

(** ** The static [findPublished] *)

(** X22.  [findPublished] returns exactly the posts of the collection whose
    status is published, as many as there are, each no older by its
    publication date than the next one. *)
Theorem findPublished_lists_the_published_posts_newest_first :
  forall coll,
    (forall p, In p (PostStatics.findPublished coll) <-> In p coll /\ status p = "published")
    /\ List.length (PostStatics.findPublished coll)
       = List.length (filter (fun p => status p =? "published") coll)
    /\ Sorted (fun a b => compareOptDate (publishedAt a) (publishedAt b) <> Lt)
              (PostStatics.findPublished coll).
Proof.
  intros coll. unfold PostStatics.findPublished.
  set (found := filter (fun p => status p =? "published") coll).
  pose proof (sortDocs_perm "publishedAt" (-1) found) as P.
  split; [ | split ].
  - intros p. split.
    + intros H. apply (Permutation_in _ P) in H. apply filter_In in H as [H1 H2].
      apply String.eqb_eq in H2. auto.
    + intros [H1 H2]. apply (Permutation_in _ (Permutation_sym P)).
      apply filter_In. split; auto. now apply String.eqb_eq.
  - now apply Permutation_length.
  - assert (S : Sorted (fun a b => goesBefore "publishedAt" (-1) a b = true)
                       (sortDocs "publishedAt" (-1) found))
      by (apply sortDocs_sorted; discriminate).
    revert S. generalize (sortDocs "publishedAt" (-1) found). intros l S.
    induction S as [|x l Hs IH Hh]; constructor; auto.
    destruct Hh as [|y l Hxy]; constructor.
    unfold goesBefore, compareField in Hxy. simpl in Hxy.
    destruct (compareOptDate (publishedAt x) (publishedAt y)); try discriminate.
Qed.

(** ** The shape of a slug *)

Lemma dropLeadingHyphen_cons c r :
  dropLeadingHyphen (c :: r) = if (c =? "-")%char then r else c :: r.
Proof. destruct c as [[] [] [] [] [] [] [] []]; reflexivity. Qed.

Lemma isSlugChar_hyphen c : Js.isSlugChar c = true -> c <> "-"%char.
Proof. intros H ->. discriminate H. Qed.

(** [hyphenate] never writes two hyphens in a row, and none in front
    when it starts within a run. *)
Lemma hyphenate_no_double inRun l a b :
  hyphenate inRun l <> (a ++ "-"%char :: "-"%char :: b)%list
  /\ (inRun = true -> forall r, hyphenate inRun l <> "-"%char :: r).
Proof.
  revert inRun a. induction l as [|c r IH]; intros inRun a; simpl.
  - split; [ destruct a; discriminate | discriminate ].
  - destruct (Js.isSlugChar c) eqn:E.
    + apply isSlugChar_hyphen in E. split.
      * destruct a as [|x a]; simpl; intros C; inversion C; subst; [ congruence | ].
        now apply (proj1 (IH false a)) in H1.
      * intros _ r' C. inversion C. congruence.
    + destruct inRun.
      * apply IH.
      * split; [ | discriminate ].
        destruct a as [|x a]; simpl; intros C; inversion C; subst.
        -- now apply (proj2 (IH true []) eq_refl) in H0.
        -- now apply (proj1 (IH true a)) in H1.
Qed.

Lemma dropLeadingHyphen_shape l :
  (forall a b, l <> (a ++ "-"%char :: "-"%char :: b)%list) ->
  (forall a b, dropLeadingHyphen l <> (a ++ "-"%char :: "-"%char :: b)%list)
  /\ (forall r, dropLeadingHyphen l <> "-"%char :: r)
  /\ ((forall r, l <> (r ++ ["-"%char])%list) ->
      forall r, dropLeadingHyphen l <> (r ++ ["-"%char])%list).
Proof.
  intros Hd. destruct l as [|c l]; [ simpl | rewrite dropLeadingHyphen_cons ].
  - split; [ exact Hd | ]. split; [ discriminate | auto ].
  - destruct (c =? "-")%char eqn:E.
    + apply Ascii.eqb_eq in E. subst c. split; [ | split ].
      * intros a b C. apply (Hd ("-"%char :: a) b). simpl. now rewrite C.
      * intros r C. apply (Hd [] r). simpl. now rewrite C.
      * intros Ht r C. apply (Ht ("-"%char :: r)). simpl. now rewrite C.
    + apply Ascii.eqb_neq in E. split; [ exact Hd | ]. split; [ | auto ].
      intros r C. inversion C. congruence.
Qed.

Lemma rev_shape (l : list ascii) :
  ((forall a b, l <> (a ++ "-"%char :: "-"%char :: b)%list) ->
   forall a b, rev l <> (a ++ "-"%char :: "-"%char :: b)%list)
  /\ ((forall r, l <> "-"%char :: r) -> forall r, rev l <> (r ++ ["-"%char])%list)
  /\ ((forall r, l <> (r ++ ["-"%char])%list) -> forall r, rev l <> "-"%char :: r).
Proof.
  split; [ | split ].
  - intros H a b C. apply (H (rev b) (rev a)).
    rewrite <- (rev_involutive l), C, rev_app_distr. simpl.
    now rewrite <- !app_assoc.
  - intros H r C. apply (H (rev r)).
    rewrite <- (rev_involutive l), C, rev_app_distr. reflexivity.
  - intros H r C. apply (H (rev r)).
    rewrite <- (rev_involutive l), C. reflexivity.
Qed.

Lemma stripHyphens_shape l :
  (forall a b, l <> (a ++ "-"%char :: "-"%char :: b)%list) ->
  (forall a b, stripHyphens l <> (a ++ "-"%char :: "-"%char :: b)%list)
  /\ (forall r, stripHyphens l <> "-"%char :: r)
  /\ (forall r, stripHyphens l <> (r ++ ["-"%char])%list).
Proof.
  intros Hd. unfold stripHyphens.
  destruct (dropLeadingHyphen_shape l Hd) as (D1 & L1 & _).
  destruct (rev_shape (dropLeadingHyphen l)) as (R1 & R2 & _).
  specialize (R1 D1). specialize (R2 L1).
  destruct (dropLeadingHyphen_shape _ R1) as (D2 & L2 & T2). specialize (T2 R2).
  destruct (rev_shape (dropLeadingHyphen (rev (dropLeadingHyphen l)))) as (R3 & R4 & R5).
  auto.
Qed.

Lemma hyphenate_fixed inRun l :
  Forall (fun c => slugOrHyphen c = true) l ->
  (forall a b, l <> (a ++ "-"%char :: "-"%char :: b)%list) ->
  (inRun = true -> forall r, l <> "-"%char :: r) ->
  hyphenate inRun l = l.
Proof.
  intros Hf. revert inRun. induction Hf as [|c r Hc Hr IH]; intros inRun Hd Hl; simpl; auto.
  assert (Hd' : forall a b, r <> (a ++ "-"%char :: "-"%char :: b)%list).
  { intros a b C. apply (Hd (c :: a) b). simpl. now rewrite C. }
  destruct (Js.isSlugChar c) eqn:E.
  - f_equal. apply IH; auto. discriminate.
  - assert (c = "-"%char).
    { unfold slugOrHyphen in Hc. rewrite E in Hc. simpl in Hc. now apply Ascii.eqb_eq. }
    subst c. destruct inRun.
    + exfalso. now apply (Hl eq_refl r).
    + f_equal. apply IH; auto. intros _ r' C. apply (Hd [] r'). simpl. now rewrite C.
Qed.

Lemma stripHyphens_fixed l :
  (forall r, l <> "-"%char :: r) ->
  (forall r, l <> (r ++ ["-"%char])%list) ->
  stripHyphens l = l.
Proof.
  intros Hl Ht.
  assert (D : forall m, (forall r, m <> "-"%char :: r) -> dropLeadingHyphen m = m).
  { intros m Hm. destruct m as [|c m]; auto. rewrite dropLeadingHyphen_cons.
    destruct (c =? "-")%char eqn:E; auto.
    apply Ascii.eqb_eq in E. subst. exfalso. now apply (Hm m). }
  unfold stripHyphens. rewrite (D l Hl).
  rewrite (D (rev l)) by (apply rev_shape; exact Ht).
  apply rev_involutive.
Qed.

Lemma slugify_shape_chars t :
  Forall (fun c => slugOrHyphen c = true) (Js.chars (slugify t))
  /\ (forall a b, Js.chars (slugify t) <> (a ++ "-"%char :: "-"%char :: b)%list)
  /\ (forall r, Js.chars (slugify t) <> "-"%char :: r)
  /\ (forall r, Js.chars (slugify t) <> (r ++ ["-"%char])%list).
Proof.
  split; [ apply slugify_chars | ].
  unfold slugify. rewrite chars_str. apply stripHyphens_shape.
  intros a b. apply hyphenate_no_double.
Qed.

(** X23.  The slug derived from any title consists of lower-case letters,
    digits and hyphens, has no two hyphens in a row, and neither starts nor
    ends with a hyphen. *)
Theorem slugify_gives_words_joined_by_single_hyphens :
  forall t,
    Forall (fun c => slugOrHyphen c = true) (Js.chars (slugify t))
    /\ (forall a b, Js.chars (slugify t) <> (a ++ "-"%char :: "-"%char :: b)%list)
    /\ (forall r, Js.chars (slugify t) <> "-"%char :: r)
    /\ (forall r, Js.chars (slugify t) <> (r ++ ["-"%char])%list).
Proof.
  intros t. split; [ apply slugify_chars | ].
  unfold slugify. rewrite chars_str.
  apply stripHyphens_shape.
  intros a b. apply hyphenate_no_double.
Qed.

Lemma map_lowerChar_fixed l :
  Forall (fun c => slugOrHyphen c = true) l -> map Js.lowerChar l = l.
Proof.
  induction 1 as [|c r Hc Hr IH]; simpl; auto.
  rewrite IH. f_equal. now apply slugOrHyphen_fixed.
Qed.

(** X24.  Deriving a slug from a derived slug gives the same slug. *)
Theorem slugify_idempotent :
  forall t, slugify (slugify t) = slugify t.
Proof.
  intros t. destruct (slugify_shape_chars t) as (Hf & Hd & Hl & Ht).
  unfold slugify at 1.
  assert (Hlow : Js.toLowerCase (slugify t) = slugify t).
  { unfold Js.toLowerCase.
    rewrite (map_lowerChar_fixed _ Hf). apply str_chars. }
  rewrite Hlow, (hyphenate_fixed false _ Hf Hd) by discriminate.
  rewrite (stripHyphens_fixed _ Hl Ht). apply str_chars.
Qed.

(** ** utils/validation.js *)

(** X25.  [validatePassword] accepts a password exactly when it is present,
    has between 6 and 128 characters and contains a lower-case letter, an
    upper-case letter and a digit; the verdict is valid exactly when it
    lists no error; and a missing or empty password gets the one message
    about the minimum length. *)
Theorem validatePassword_accepts_exactly_the_strong_passwords :
  forall password,
    (ValidationUtil.isValid (ValidationUtil.validatePassword password) = true
     <-> exists p,
          password = Some p
          /\ (6 <= String.length p <= 128)%nat
          /\ ValidationUtil.hasChar Js.isLowerAz p = true
          /\ ValidationUtil.hasChar Js.isUpperAz p = true
          /\ ValidationUtil.hasChar Js.isDigit p = true)
    /\ (ValidationUtil.isValid (ValidationUtil.validatePassword password) = true
        <-> ValidationUtil.errors (ValidationUtil.validatePassword password) = [])
    /\ (Js.truthy password = false ->
        ValidationUtil.errors (ValidationUtil.validatePassword password)
        = ["Password must be at least 6 characters long"]).
Proof.
  intros password. split; [ | split ].
  - unfold ValidationUtil.validatePassword, ValidationUtil.pushIf.
    destruct password as [p|]; cbn [Js.truthy].
    + destruct (p =? "") eqn:E0; cbn [negb orb andb].
      * apply String.eqb_eq in E0. subst p. simpl. split; [ discriminate | ].
        intros (p & E & H & _). inversion E. subst. simpl in H. lia.
      * destruct (String.length p <? 6)%nat eqn:E1;
          destruct (128 <? String.length p)%nat eqn:E2;
          destruct (ValidationUtil.hasChar Js.isLowerAz p) eqn:E3;
          destruct (ValidationUtil.hasChar Js.isUpperAz p) eqn:E4;
          destruct (ValidationUtil.hasChar Js.isDigit p) eqn:E5;
          cbn [negb app List.length Nat.eqb ValidationUtil.isValid];
          (split;
           [ try discriminate; intros _; exists p;
             apply Nat.ltb_ge in E1; apply Nat.ltb_ge in E2; auto 10
           | intros (p' & E & H & H3 & H4 & H5); inversion E; subst p';
             try reflexivity; try congruence;
             try (apply Nat.ltb_lt in E1; lia); try (apply Nat.ltb_lt in E2; lia) ]).
    + simpl. split; [ discriminate | ]. intros (p & E & _). discriminate.
  - unfold ValidationUtil.validatePassword. cbn [ValidationUtil.isValid ValidationUtil.errors].
    rewrite Nat.eqb_eq. apply length_zero_iff_nil.
  - intros H. unfold ValidationUtil.validatePassword, ValidationUtil.pushIf.
    rewrite H. reflexivity.
Qed.

Lemma forallb_true_Forall {A} (f : A -> bool) l :
  forallb f l = true <-> Forall (fun x => f x = true) l.
Proof.
  induction l as [|x r IH]; simpl.
  - split; auto.
  - rewrite andb_true_iff, IH. split.
    + intros [H1 H2]. now constructor.
    + intros H. inversion H. auto.
Qed.

(** X26.  [validateUsername] accepts a user name exactly when it is
    present, has between 3 and 30 characters and consists of letters,
    digits and underscores only. *)
Theorem validateUsername_accepts_exactly_the_word_names :
  forall username,
    ValidationUtil.isValid (ValidationUtil.validateUsername username) = true
    <-> exists u,
         username = Some u
         /\ (3 <= String.length u <= 30)%nat
         /\ Forall (fun c => ValidationUtil.isWordChar c = true) (Js.chars u).
Proof.
  intros username.
  unfold ValidationUtil.validateUsername, ValidationUtil.pushIf.
  destruct username as [u|]; cbn [Js.truthy].
  - destruct (u =? "") eqn:E0; cbn [negb orb andb].
    + apply String.eqb_eq in E0. subst u. simpl. split; [ discriminate | ].
      intros (u & E & H & _). inversion E. subst. simpl in H. lia.
    + destruct (String.length u <? 3)%nat eqn:E1;
        destruct (30 <? String.length u)%nat eqn:E2;
        destruct (forallb ValidationUtil.isWordChar (Js.chars u)) eqn:E3;
        cbn [negb app List.length Nat.eqb ValidationUtil.isValid];
        (split;
         [ first
             [ discriminate
             | intros _; exists u;
               apply Nat.ltb_ge in E1; apply Nat.ltb_ge in E2;
               split; [ reflexivity | split; [ lia | now apply forallb_true_Forall ] ] ]
         | intros (u' & E & H & H3); inversion E; subst u';
           first
             [ reflexivity
             | apply Nat.ltb_lt in E1; lia
             | apply Nat.ltb_lt in E2; lia
             | apply forallb_true_Forall in H3; congruence ] ]).
  - simpl. split; [ discriminate | ]. intros (u & E & _). discriminate.
Qed.

(** ** controllers/authController.js *)

(** X27.  [login] succeeds (200) only for an email and a password that are
    not empty, where an account with that email exists, is active and the
    password compares equal, and it returns that user with a token
    generated for it; every other request that has both fields gets the
    same answer, 401 'Invalid credentials', whether the account is unknown
    or deactivated or the password wrong; a missing or empty field gets
    400. *)
Theorem login_gives_one_answer_to_every_bad_credential :
  forall findOneByEmail comparePassword generateToken body,
    match AuthController.login findOneByEmail comparePassword generateToken body with
    | Json code _ (user, token) =>
        code = 200
        /\ exists e p,
            AuthController.l_email body = Some e /\ e <> ""
            /\ AuthController.l_password body = Some p /\ p <> ""
            /\ findOneByEmail e = Some user
            /\ isActive user = true
            /\ comparePassword user p = true
            /\ token = generateToken user
    | Failure code msg errs =>
        (code = 400 /\ msg = "Email and password are required" /\ errs = []
         /\ (Js.truthy (AuthController.l_email body) = false
             \/ Js.truthy (AuthController.l_password body) = false))
        \/ (code = 401 /\ msg = "Invalid credentials" /\ errs = []
            /\ Js.truthy (AuthController.l_email body) = true
            /\ Js.truthy (AuthController.l_password body) = true)
    end.
Proof.
  intros findOneByEmail comparePassword generateToken body.
  unfold AuthController.login.
  destruct (AuthController.l_email body) as [e|]; cbn [Js.truthy negb orb text];
    [ | left; auto 10 ].
  destruct (e =? "") eqn:Ee; cbn [negb orb]; [ left; auto 10 | ].
  destruct (AuthController.l_password body) as [p|]; cbn [Js.truthy negb orb text];
    [ | left; auto 10 ].
  destruct (p =? "") eqn:Ep; cbn [negb orb]; [ left; auto 10 | ].
  apply String.eqb_neq in Ee, Ep.
  destruct (findOneByEmail e) as [user|] eqn:Ef; [ | right; auto 10 ].
  destruct (isActive user) eqn:Ea; cbn [negb]; [ | right; auto 10 ].
  destruct (comparePassword user p) eqn:Ec; cbn [negb]; [ | right; auto 10 ].
  split; [ reflexivity | ]. exists e, p. auto 10.
Qed.

(** ** [getPosts], the filters *)

Lemma isValidObjectId_truthy s :
  Validation.isValidObjectId s = true -> Js.truthy (Some s) = true.
Proof.
  unfold Validation.isValidObjectId. intros H. apply andb_true_iff in H as [H _].
  apply Nat.eqb_eq in H. simpl. destruct s; [ discriminate | reflexivity ].
Qed.

Lemma buildQuery_filter compileRegExp reqUser q query :
  buildQuery compileRegExp reqUser q = inr query ->
  f_status query
  = (if Js.truthy (q_status q) then q_status q
     else if notAdmin reqUser then Some "published" else None)
  /\ f_category query
     = (if Js.truthy (q_category q) && Validation.isValidObjectId (text (q_category q))
        then castObjectId (text (q_category q)) else None)
  /\ f_author query
     = (if Js.truthy (q_author q) && Validation.isValidObjectId (text (q_author q))
        then castObjectId (text (q_author q)) else None).
Proof.
  unfold buildQuery. destruct (Js.truthy (q_search q)).
  - destruct (compileRegExp _); simpl; [ discriminate | ].
    intros H. inversion H. auto.
  - intros H. inversion H. auto.
Qed.

(** X28.  Every post on a page of [getPosts] is stored in the collection;
    it has the status of the request when one is given, and is published
    when none is given and the requester is not an admin; it has the author
    and the category of the request when these are valid object ids; and an
    author or a category that is not a valid object id is ignored, the
    answer being that of the request without it. *)
Theorem getPosts_filters_by_status_author_and_category :
  forall compileRegExp reqUser coll,
    (forall q code msg page p,
        getPosts compileRegExp reqUser q coll = Some (Json code msg page) ->
        In p (posts page) ->
        In p coll
        /\ (Js.truthy (q_status q) = true -> Some (status p) = q_status q)
        /\ (Js.truthy (q_status q) = false -> notAdmin reqUser = true ->
            status p = "published")
        /\ (forall a, q_author q = Some a -> Validation.isValidObjectId a = true ->
                      author p = Js.toLowerCase a)
        /\ (forall c, q_category q = Some c -> Validation.isValidObjectId c = true ->
                      category p = Some (Js.toLowerCase c)))
    /\ (forall pg lim st cat a se sb so,
        Validation.isValidObjectId a = false ->
        getPosts compileRegExp reqUser (mkQuery pg lim st cat (Some a) se sb so) coll
        = getPosts compileRegExp reqUser (mkQuery pg lim st cat None se sb so) coll)
    /\ (forall pg lim st c au se sb so,
        Validation.isValidObjectId c = false ->
        getPosts compileRegExp reqUser (mkQuery pg lim st (Some c) au se sb so) coll
        = getPosts compileRegExp reqUser (mkQuery pg lim st None au se sb so) coll).
Proof.
  intros compileRegExp reqUser coll. split; [ | split ].
  - intros q code msg page p H Hp.
    apply getPosts_json in H as (query & pg & lim & Hb & _ & _ & _ & _ & _ & ->).
    cbn [posts] in Hp. apply in_window in Hp.
    apply (Permutation_in _ (sortDocs_perm _ _ _)) in Hp.
    apply filter_In in Hp as [Hin Hm].
    apply buildQuery_filter in Hb as (Hs & Hc & Ha).
    unfold matches in Hm. rewrite Hs, Hc, Ha in Hm.
    apply andb_true_iff in Hm as [Hm _]. apply andb_true_iff in Hm as [Hm Hau].
    apply andb_true_iff in Hm as [Hst Hca].
    split; [ exact Hin | ]. split; [ | split; [ | split ] ].
    + intros Ht. rewrite Ht in Hst. destruct (q_status q) as [s|]; [ | discriminate ].
      apply String.eqb_eq in Hst. now rewrite Hst.
    + intros Ht Hn. rewrite Ht, Hn in Hst. now apply String.eqb_eq.
    + intros a Ea Hv. rewrite Ea in Hau. cbn [text] in Hau.
      rewrite (isValidObjectId_truthy _ Hv), Hv in Hau. cbn [andb] in Hau.
      rewrite (castObjectId_valid _ Hv) in Hau. now apply String.eqb_eq.
    + intros c Ec Hv. rewrite Ec in Hca. cbn [text] in Hca.
      rewrite (isValidObjectId_truthy _ Hv), Hv in Hca. cbn [andb] in Hca.
      rewrite (castObjectId_valid _ Hv) in Hca. now apply optEqb_eq.
  - intros pg lim st cat a se sb so Hv. unfold getPosts, buildQuery.
    cbn [q_author q_status q_category q_search q_page q_limit q_sortBy q_sortOrder text].
    rewrite Hv, andb_false_r. reflexivity.
  - intros pg lim st c au se sb so Hv. unfold getPosts, buildQuery.
    cbn [q_author q_status q_category q_search q_page q_limit q_sortBy q_sortOrder text].
    rewrite Hv, andb_false_r. reflexivity.
Qed.

(** ** Every stored slug was derived from a title *)

(** X29.  In every reachable state each stored post has a slug, and it is
    one that the [pre('save')] hook derived from a title. *)
Theorem reachable_posts_have_derived_slugs :
  forall coll,
    reachable coll ->
    forall p, In p coll -> exists t, slug p = Some (slugify t).
Proof.
  intros coll H. induction H as [|coll coll' _ IH Hstep]; [ intros p [] | ].
  intros p Hp.
  destruct (step_cases _ _ Hstep)
    as [-> | [(post & p' & Hin & _ & Hfree & ->)
             | [(p' & _ & _ & Hs & _ & _ & ->) | (f & ->)]]]; auto.
  - apply in_replaceById in Hp as [[-> _] | [Hq _]]; auto.
    destruct Hfree as [E | [_ E]]; [ rewrite E; auto | exact E ].
  - apply in_app_or in Hp as [Hq | [<- | []]]; eauto.
  - apply filter_In in Hp as [Hq _]. auto.
Qed.

(** ** Patterns and the matcher *)

Section EmailPatterns.

Import ValidationUtil.

Lemma CharClass_eqb_eq a b : CharClass_eqb a b = true <-> a = b.
Proof. destruct a, b; simpl; split; congruence. Qed.

Lemma Pattern_eqb_eq a b : Pattern_eqb a b = true <-> a = b.
Proof.
  revert b. induction a as [k| |a1 IH1 a2 IH2|a1 IH1 a2 IH2|a1 IH1]; intros [k'| |b1 b2|b1 b2|b1];
    simpl; try (split; congruence).
  - rewrite CharClass_eqb_eq. split; congruence.
  - rewrite andb_true_iff, IH1, IH2. split; [ intros [-> ->]; reflexivity | ].
    intros H. inversion H. auto.
  - rewrite andb_true_iff, IH1, IH2. split; [ intros [-> ->]; reflexivity | ].
    intros H. inversion H. auto.
  - rewrite IH1. split; congruence.
Qed.

Lemma nullable_Matches r : nullable r = true <-> Matches r [].
Proof.
  split.
  - induction r as [k| |a IHa b IHb|a IHa b IHb|a IHa]; simpl; intros H.
    + discriminate.
    + constructor.
    + apply andb_true_iff in H as [Ha Hb]. apply (MSeq a b [] []); auto.
    + apply orb_true_iff in H as [H | H]; [ apply MAltL | apply MAltR ]; auto.
    + constructor.
  - intros H. remember [] as l eqn:El. induction H; simpl; auto; try discriminate.
    + apply app_eq_nil in El as [-> ->]. rewrite IHMatches1, IHMatches2; auto.
    + rewrite IHMatches; auto.
    + rewrite IHMatches; auto. apply orb_true_r.
Qed.

Lemma pderive_sound c r :
  forall r' l, In r' (pderive c r) -> Matches r' l -> Matches r (c :: l).
Proof.
  induction r as [k| |a IHa b IHb|a IHa b IHb|a IHa]; simpl; intros r' l Hin Hm.
  - destruct (inClass k c) eqn:E; [ | destruct Hin ].
    destruct Hin as [<- | []]. inversion Hm. subst. now constructor.
  - destruct Hin.
  - apply in_app_or in Hin as [Hin | Hin].
    + apply in_map_iff in Hin as (a' & <- & Ha'). inversion Hm; subst.
      apply (MSeq a b (c :: _) _); eauto.
    + destruct (nullable a) eqn:E; [ | destruct Hin ].
      apply (MSeq a b [] (c :: l)); eauto. now apply nullable_Matches.
  - apply in_app_or in Hin as [Hin | Hin]; [ apply MAltL | apply MAltR ]; eauto.
  - apply in_map_iff in Hin as (a' & <- & Ha'). inversion Hm; subst.
    apply (MStarApp a (c :: _) _); eauto.
Qed.

Lemma pderive_complete c r l :
  Matches r (c :: l) -> exists r', In r' (pderive c r) /\ Matches r' l.
Proof.
  intros H. remember (c :: l) as m eqn:Em. revert l Em.
  induction H as [k x Hx| |a b l1 m1 Ha IHa Hb IHb|a b l1 Ha IHa|a b l1 Hb IHb
                 | |a l1 m1 Ha IHa Hs IHs]; intros l Em; simpl.
  - inversion Em. subst. rewrite Hx. exists Empty. split; [ now left | constructor ].
  - discriminate.
  - destruct l1 as [|x l1]; simpl in Em.
    + destruct (IHb l Em) as (r' & Hin & Hm). exists r'. split; auto.
      apply in_or_app. right. rewrite (proj2 (nullable_Matches a) Ha). exact Hin.
    + inversion Em. subst. destruct (IHa l1 eq_refl) as (a' & Hin & Hm).
      exists (Seq a' b). split; [ | now constructor ].
      apply in_or_app. left. apply in_map_iff. eauto.
  - destruct (IHa l Em) as (r' & Hin & Hm). exists r'. split; auto.
    apply in_or_app. now left.
  - destruct (IHb l Em) as (r' & Hin & Hm). exists r'. split; auto.
    apply in_or_app. now right.
  - discriminate.
  - destruct l1 as [|x l1]; simpl in Em.
    + apply (IHs l Em).
    + inversion Em. subst. destruct (IHa l1 eq_refl) as (a' & Hin & Hm).
      exists (Seq a' (Star a)). split; [ | now constructor ].
      apply in_map_iff. eauto.
Qed.

Lemma in_addNew x r l : In x (addNew r l) <-> x = r \/ In x l.
Proof.
  unfold addNew. destruct (existsb (Pattern_eqb r) l) eqn:E; simpl.
  - split; auto. intros [-> | H]; auto.
    apply existsb_exists in E as (y & Hy & Ey). apply Pattern_eqb_eq in Ey. now subst.
  - split; intros [H | H]; auto.
Qed.

Lemma in_advance x states c :
  In x (advance states c) <-> exists r, In r states /\ In x (pderive c r).
Proof.
  unfold advance. rewrite <- in_flat_map.
  induction (flat_map (pderive c) states) as [|y l IH]; simpl; [ tauto | ].
  rewrite in_addNew, IH. split; intros [H | H]; auto.
Qed.

Lemma run_Matches l : forall states,
  existsb nullable (fold_left advance l states) = true
  <-> exists r, In r states /\ Matches r l.
Proof.
  induction l as [|c l IH]; intros states; simpl.
  - rewrite existsb_exists. split; intros (r & Hin & H); exists r; split; auto;
      now apply nullable_Matches.
  - rewrite IH. split.
    + intros (r' & Hin & Hm). apply in_advance in Hin as (r & Hr & Hin).
      exists r. split; auto. eapply pderive_sound; eauto.
    + intros (r & Hr & Hm). apply pderive_complete in Hm as (r' & Hin & Hm).
      exists r'. split; auto. apply in_advance. eauto.
Qed.

Lemma test_Matches r s : test r s = true <-> Matches r (Js.chars s).
Proof.
  unfold test. rewrite run_Matches. split.
  - intros (r' & [<- | []] & H). exact H.
  - intros H. exists r. split; [ now left | exact H ].
Qed.

(** ** What the repetitions match *)

Lemma Matches_Star_Forall (P : ascii -> Prop) a l :
  (forall m, Matches a m -> Forall P m) -> Matches (Star a) l -> Forall P l.
Proof.
  intros Ha H. remember (Star a) as r eqn:Er.
  induction H; try discriminate; [ constructor | ].
  inversion Er. subst. apply Forall_app. auto.
Qed.

Lemma Matches_Star_last a l :
  Matches (Star a) l ->
  l = [] \/ exists pre y, l = (pre ++ y)%list /\ Matches (Star a) pre /\ Matches a y.
Proof.
  intros H. remember (Star a) as r eqn:Er.
  induction H as [| | | | |a0|a0 l1 m1 Ha _ Hs IHs]; try discriminate; [ now left | ].
  inversion Er. subst a0. right.
  destruct (IHs eq_refl) as [-> | (pre & y & -> & Hp & Hy)].
  - exists [], l1. rewrite app_nil_r. split; [ reflexivity | ].
    split; [ constructor | exact Ha ].
  - exists (l1 ++ pre)%list, y. rewrite app_assoc. split; [ reflexivity | ].
    split; [ now constructor | exact Hy ].
Qed.

Lemma Matches_plus_last a l :
  Matches (plus a) l ->
  exists pre y, l = (pre ++ y)%list /\ Matches (Star a) pre /\ Matches a y.
Proof.
  intros H. inversion H as [| |a0 b0 l1 m1 Ha Hs| | | |]; subst.
  destruct (Matches_Star_last _ _ Hs) as [-> | (pre & y & -> & Hp & Hy)].
  - exists [], l1. rewrite app_nil_r. split; [ reflexivity | ].
    split; [ constructor | exact Ha ].
  - exists (l1 ++ pre)%list, y. rewrite app_assoc. split; [ reflexivity | ].
    split; [ now constructor | exact Hy ].
Qed.

Lemma Matches_Class k l : Matches (Class k) l -> exists c, l = [c] /\ inClass k c = true.
Proof. inversion 1. eauto. Qed.

Lemma Matches_words l :
  Matches (plus (Class Word)) l -> l <> [] /\ Forall (fun c => isWordChar c = true) l.
Proof.
  intros H. inversion H as [| |a b l1 m1 Ha Hs| | | |]; subst.
  apply Matches_Class in Ha as (c & -> & Hc). split; [ discriminate | ].
  constructor; [ exact Hc | ].
  eapply Matches_Star_Forall; [ | exact Hs ].
  intros m Hm. apply Matches_Class in Hm as (x & -> & Hx). constructor; auto.
Qed.

Lemma words_Matches l :
  l <> [] -> Forall (fun c => isWordChar c = true) l -> Matches (plus (Class Word)) l.
Proof.
  intros Hne H. destruct H as [|c r Hc Hr]; [ congruence | ].
  apply (MSeq (Class Word) (Star (Class Word)) [c] r); [ now constructor | ].
  clear Hne. induction Hr as [|x r Hx Hr IH]; [ constructor | ].
  apply (MStarApp (Class Word) [x] r); [ now constructor | exact IH ].
Qed.

Lemma Matches_Seq a b l :
  Matches (Seq a b) l -> exists l1 l2, l = (l1 ++ l2)%list /\ Matches a l1 /\ Matches b l2.
Proof. inversion 1. eauto. Qed.

Lemma word_or_separator c :
  isWordChar c = true -> isWordChar c || inClass DotOrHyphen c = true.
Proof. intros ->. reflexivity. Qed.

Lemma Matches_separated_words m :
  Matches (Seq (opt (Class DotOrHyphen)) (plus (Class Word))) m ->
  Forall (fun c => isWordChar c || inClass DotOrHyphen c = true) m.
Proof.
  intros H. apply Matches_Seq in H as (l1 & l2 & -> & H1 & H2).
  apply Forall_app. split.
  - inversion H1 as [| | |a b l Hc|a b l He| |]; subst.
    + apply Matches_Class in Hc as (c & -> & Hc). constructor; [ | constructor ].
      rewrite Hc. apply orb_true_r.
    + inversion He. constructor.
  - apply Matches_words in H2 as [_ H2].
    eapply Forall_impl; [ | exact H2 ]. intros c. apply word_or_separator.
Qed.

Lemma Matches_label y :
  Matches (Seq (Class Dot) (Seq (Class Word) (Seq (Class Word) (opt (Class Word))))) y ->
  exists tld,
    y = "."%char :: tld
    /\ Forall (fun c => isWordChar c = true) tld
    /\ (2 <= List.length tld <= 3)%nat.
Proof.
  intros H. apply Matches_Seq in H as (l1 & r1 & -> & H1 & H).
  apply Matches_Seq in H as (l2 & r2 & -> & H2 & H).
  apply Matches_Seq in H as (l3 & r3 & -> & H3 & H4).
  apply Matches_Class in H1 as (c1 & -> & Hc1).
  apply Matches_Class in H2 as (c2 & -> & Hc2).
  apply Matches_Class in H3 as (c3 & -> & Hc3).
  simpl in Hc1. apply Ascii.eqb_eq in Hc1. subst c1.
  inversion H4 as [| | |a b l Hc|a b l He| |]; subst.
  - apply Matches_Class in Hc as (c4 & -> & Hc4).
    exists [c2; c3; c4]. split; [ reflexivity | ]. split; [ | simpl; lia ].
    repeat constructor; assumption.
  - inversion He. exists [c2; c3]. split; [ reflexivity | ]. split; [ | simpl; lia ].
    repeat constructor; assumption.
Qed.

Lemma label_or_separator y :
  Matches (Seq (Class Dot) (Seq (Class Word) (Seq (Class Word) (opt (Class Word))))) y ->
  Forall (fun c => isWordChar c || inClass DotOrHyphen c = true) y.
Proof.
  intros H. apply Matches_label in H as (tld & -> & Ht & _).
  constructor; [ reflexivity | ].
  eapply Forall_impl; [ | exact Ht ]. intros c. apply word_or_separator.
Qed.

Lemma isValidEmail_shape email :
  isValidEmail email = true ->
  exists local domain tld,
    Js.chars email = (local ++ "@"%char :: domain ++ "."%char :: tld)%list
    /\ local <> []
    /\ Forall (fun c => isWordChar c || inClass DotOrHyphen c = true) local
    /\ domain <> []
    /\ Forall (fun c => isWordChar c || inClass DotOrHyphen c = true) domain
    /\ Forall (fun c => isWordChar c = true) tld
    /\ (2 <= List.length tld <= 3)%nat.
Proof.
  intros H. apply test_Matches in H. unfold emailRegex in H. cbv zeta in H.
  apply Matches_Seq in H as (l1 & r1 & E1 & H1 & H).
  apply Matches_Seq in H as (l2 & r2 & E2 & H2 & H).
  apply Matches_Seq in H as (l3 & r3 & E3 & H3 & H).
  apply Matches_Seq in H as (l4 & r4 & E4 & H4 & H).
  apply Matches_Seq in H as (l5 & l6 & E5 & H5 & H6).
  apply Matches_words in H1 as [N1 W1]. apply Matches_words in H4 as [N4 W4].
  apply Matches_Class in H3 as (c3 & -> & Hc3). simpl in Hc3.
  apply Ascii.eqb_eq in Hc3. subst c3.
  apply (Matches_Star_Forall _ _ _ Matches_separated_words) in H2.
  apply (Matches_Star_Forall _ _ _ Matches_separated_words) in H5.
  apply Matches_plus_last in H6 as (pre & y & -> & Hpre & Hy).
  apply (Matches_Star_Forall _ _ _ label_or_separator) in Hpre.
  apply Matches_label in Hy as (tld & -> & Wt & Lt).
  exists (l1 ++ l2)%list, (l4 ++ l5 ++ pre)%list, tld.
  split; [ | split; [ | split; [ | split; [ | split; [ | split ] ] ] ] ].
  - rewrite E1, E2, E3, E4, E5. rewrite <- !app_assoc. reflexivity.
  - destruct l1; [ congruence | discriminate ].
  - apply Forall_app. split; [ | exact H2 ].
    eapply Forall_impl; [ | exact W1 ]. intros c. apply word_or_separator.
  - destruct l4; [ congruence | discriminate ].
  - apply Forall_app. split; [ | apply Forall_app; split; assumption ].
    eapply Forall_impl; [ | exact W4 ]. intros c. apply word_or_separator.
  - exact Wt.
  - exact Lt.
Qed.

Lemma label_Matches tld :
  Forall (fun c => isWordChar c = true) tld ->
  (2 <= List.length tld <= 3)%nat ->
  Matches (Seq (Class Dot) (Seq (Class Word) (Seq (Class Word) (opt (Class Word)))))
          ("."%char :: tld).
Proof.
  intros Hw Hl.
  destruct tld as [|c1 [|c2 [|c3 [|c4 r]]]]; simpl in Hl; try lia.
  - inversion Hw as [|? ? W1 Hw1]; subst. inversion Hw1 as [|? ? W2 _]; subst.
    apply (MSeq (Class Dot) _ ["."%char] [c1; c2]); [ now constructor | ].
    apply (MSeq (Class Word) _ [c1] [c2]); [ now constructor | ].
    apply (MSeq (Class Word) _ [c2] []); [ now constructor | ].
    apply MAltR. constructor.
  - inversion Hw as [|? ? W1 Hw1]; subst. inversion Hw1 as [|? ? W2 Hw2]; subst.
    inversion Hw2 as [|? ? W3 _]; subst.
    apply (MSeq (Class Dot) _ ["."%char] [c1; c2; c3]); [ now constructor | ].
    apply (MSeq (Class Word) _ [c1] [c2; c3]); [ now constructor | ].
    apply (MSeq (Class Word) _ [c2] [c3]); [ now constructor | ].
    apply MAltL. now constructor.
Qed.

Lemma isValidEmail_plain u d tld :
  u <> [] -> Forall (fun c => isWordChar c = true) u ->
  d <> [] -> Forall (fun c => isWordChar c = true) d ->
  Forall (fun c => isWordChar c = true) tld ->
  (2 <= List.length tld <= 3)%nat ->
  isValidEmail (Js.str (u ++ "@"%char :: d ++ "."%char :: tld)) = true.
Proof.
  intros Nu Wu Nd Wd Wt Lt. apply test_Matches. rewrite chars_str.
  unfold emailRegex. cbv zeta.
  apply (MSeq _ _ u ("@"%char :: d ++ "."%char :: tld)); [ now apply words_Matches | ].
  apply (MSeq _ _ [] ("@"%char :: d ++ "."%char :: tld)); [ constructor | ].
  apply (MSeq _ _ ["@"%char] (d ++ "."%char :: tld)); [ now constructor | ].
  apply (MSeq _ _ d ("."%char :: tld)); [ now apply words_Matches | ].
  apply (MSeq _ _ [] ("."%char :: tld)); [ constructor | ].
  rewrite <- (app_nil_r ("."%char :: tld)).
  apply (MSeq _ _ ("."%char :: tld) []); [ now apply label_Matches | constructor ].
Qed.

Lemma count_occ_none (P : ascii -> bool) x l :
  P x = false -> Forall (fun c => P c = true) l -> count_occ ascii_dec l x = 0.
Proof.
  intros Hx H. induction H as [|c r Hc Hr IH]; simpl; auto.
  destruct (ascii_dec c x) as [-> | _]; [ congruence | exact IH ].
Qed.

(** X30.  An address that [isValidEmail] accepts contains exactly one '@',
    with a local part before it and a domain after it that are not empty
    and consist of letters, digits, underscores, dots and hyphens, followed
    by a dot and a last label of 2 or 3 letters, digits or underscores (a
    last label of 4 characters is refused); and every address made of a
    word, '@', a word, a dot and such a last label is accepted. *)
Theorem isValidEmail_asks_for_one_at_and_a_short_last_label :
  (forall email,
      isValidEmail email = true ->
      count_occ ascii_dec (Js.chars email) "@"%char = 1
      /\ exists local domain tld,
          Js.chars email = (local ++ "@"%char :: domain ++ "."%char :: tld)%list
          /\ local <> []
          /\ Forall (fun c => isWordChar c || inClass DotOrHyphen c = true) local
          /\ domain <> []
          /\ Forall (fun c => isWordChar c || inClass DotOrHyphen c = true) domain
          /\ Forall (fun c => isWordChar c = true) tld
          /\ (2 <= List.length tld <= 3)%nat)
  /\ (forall u d tld,
      u <> [] -> Forall (fun c => isWordChar c = true) u ->
      d <> [] -> Forall (fun c => isWordChar c = true) d ->
      Forall (fun c => isWordChar c = true) tld ->
      (2 <= List.length tld <= 3)%nat ->
      isValidEmail (Js.str (u ++ "@"%char :: d ++ "."%char :: tld)) = true).
Proof.
  split; [ | exact isValidEmail_plain ].
  intros email H.
  destruct (isValidEmail_shape email H)
    as (local & domain & tld & E & N1 & F1 & N2 & F2 & F3 & L).
  split; [ | exists local, domain, tld; auto 10 ].
  rewrite E, count_occ_app. simpl. rewrite count_occ_app. simpl.
  rewrite (count_occ_none (fun c => isWordChar c || inClass DotOrHyphen c) _ local),
          (count_occ_none (fun c => isWordChar c || inClass DotOrHyphen c) _ domain),
          (count_occ_none isWordChar _ tld); auto.
Qed.

End EmailPatterns.

(* ================================================================== *)
(** ** The further properties on the sample data *)
(* ================================================================== *)

Import Cases.

Lemma twoPosts_reachable : reachable twoPosts.
Proof.
  unfold twoPosts.
  eapply reachable_step; [ eapply reachable_step; [ apply reachable_empty | ] | ].
  - apply (step_createPost [] [] 100%N id1 alice helloBody).
  - apply step_createPost.
Qed.

Lemma twoPosts_value : twoPosts = [draft1; fullPost].
Proof. reflexivity. Qed.

(** The two posts created one after the other have different ids and
    different slugs. *)
Lemma reachable_unique_ids_and_slugs_witness :
  reachable twoPosts
  /\ NoDup (map _id twoPosts)
  /\ NoDup (map slug twoPosts).
Proof.
  split; [ exact twoPosts_reachable | ].
  apply (reachable_unique_ids_and_slugs twoPosts). exact twoPosts_reachable.
Defined.

Lemma reachable_posts_valid_and_dated_witness :
  reachable twoPosts
  /\ In fullPost twoPosts
  /\ validPost fullPost
  /\ datedIfPublished fullPost.
Proof.
  assert (Hin : In fullPost twoPosts)
    by (rewrite twoPosts_value; right; left; reflexivity).
  split; [ exact twoPosts_reachable | ]. split; [ exact Hin | ].
  apply (reachable_posts_valid_and_dated twoPosts twoPosts_reachable fullPost Hin).
Defined.

Lemma reachable_posts_have_derived_slugs_witness :
  reachable twoPosts
  /\ In draft1 twoPosts
  /\ exists t, slug draft1 = Some (slugify t).
Proof.
  assert (Hin : In draft1 twoPosts)
    by (rewrite twoPosts_value; left; reflexivity).
  split; [ exact twoPosts_reachable | ]. split; [ exact Hin | ].
  apply (reachable_posts_have_derived_slugs twoPosts twoPosts_reachable draft1 Hin).
Defined.

(** Bob's comment leaves the author, the creation date, the views and
    the publication date of the post as they were. *)
Lemma step_keeps_author_and_history_witness :
  NoDup (map _id [published1])
  /\ step [published1] [commented1]
  /\ author commented1 = author published1
  /\ createdAt commented1 = createdAt published1
  /\ (views published1 <= views commented1)%N
  /\ (exists more, comments commented1 = (comments published1 ++ more)%list)
  /\ (forall t, publishedAt published1 = Some t -> publishedAt commented1 = Some t).
Proof.
  assert (Hnd : NoDup (map _id [published1]))
    by (constructor; [ simpl; tauto | constructor ]).
  assert (Hstep : step [published1] [commented1])
    by exact (step_addComment [published1] 500%N bob id1 (Some "  Nice post ")).
  split; [ exact Hnd | ]. split; [ exact Hstep | ].
  apply (step_keeps_author_and_history [published1] [commented1] published1 commented1
           Hnd Hstep);
    [ left; reflexivity | left; reflexivity | reflexivity ].
Defined.

(** The claims of erin's token carry 12 characters, and the user found is
    the one whose id spells them in hexadecimal. *)
Lemma authenticate_attaches_active_user_witness :
  Auth.authenticate tokens accounts (Some "Bearer token-erin") = Auth.Next (Some erin)
  /\ exists token decoded u,
      Some erin = Some u
      /\ Auth.extractTokenFromHeader (Some "Bearer token-erin") = Some token
      /\ tokens token = inr decoded
      /\ In u accounts
      /\ isActive u = true
      /\ castObjectId (Auth.claim_id decoded) = Some (user_id u)
      /\ (Validation.isValidObjectId (Auth.claim_id decoded) = true ->
          user_id u = Js.toLowerCase (Auth.claim_id decoded))
      /\ (String.length (Auth.claim_id decoded) = 12 ->
          user_id u = Js.toHex (Auth.claim_id decoded)).
Proof.
  split; [ reflexivity | ].
  apply (authenticate_attaches_active_user tokens accounts (Some "Bearer token-erin")
           (Some erin)).
  reflexivity.
Defined.

Lemma authenticate_agrees_with_optionalAuth_witness :
  Auth.authenticate tokens users (Some "Bearer token-alice") = Auth.Next (Some alice)
  /\ Auth.optionalAuth tokens users (Some "Bearer token-alice") = Auth.Next (Some alice).
Proof.
  split; [ reflexivity | ].
  apply (proj1 (authenticate_agrees_with_optionalAuth tokens users
                  (Some "Bearer token-alice") alice)).
  reflexivity.
Defined.

(** A token whose claims carry an id that is no object id: the cast
    fails and the answer is 500. *)
Lemma authenticate_answers_401_or_500_witness :
  Auth.authenticate tokens users (Some "Bearer token-odd")
  = Auth.Respond 500 "Internal server error during authentication"
  /\ (500 = 401
      \/ (500 = 500
          /\ exists token error,
              Auth.extractTokenFromHeader (Some "Bearer token-odd") = Some token
              /\ (tokens token = inl error
                  \/ exists decoded,
                      tokens token = inr decoded
                      /\ Auth.findUserById users (Auth.claim_id decoded) = inl error)
              /\ err_message error <> "Invalid token"
              /\ err_name error <> "JsonWebTokenError"
              /\ err_name error <> "TokenExpiredError")).
Proof.
  split; [ reflexivity | ].
  apply (authenticate_answers_401_or_500 tokens users (Some "Bearer token-odd") 500
           "Internal server error during authentication").
  reflexivity.
Defined.

Lemma deleteUser_removes_exactly_that_user_witness :
  UserRoutes.deleteUser carol (user_id bob) users
  = (Json 200 "User deleted successfully" tt, [alice; carol; dave])
  /\ (forall u, In u [alice; carol; dave]
                <-> In u users /\ user_id u <> Js.toLowerCase (user_id bob)).
Proof.
  pose proof (deleteUser_removes_exactly_that_user carol (user_id bob) users) as H.
  change (UserRoutes.deleteUser carol (user_id bob) users)
    with (Json (A := unit) 200 "User deleted successfully" tt, [alice; carol; dave]) in H.
  destruct H as (_ & _ & H).
  split; [ reflexivity | exact H ].
Defined.

(** Carol cannot delete the account with her id as stored, and deletes
    herself with the same id in capitals. *)
Lemma deleteUser_self_guard_witness :
  snd (UserRoutes.deleteUser carol (user_id carol) users) = users
  /\ carolUpper <> user_id carol
  /\ Js.toLowerCase carolUpper = user_id carol
  /\ exists users',
      UserRoutes.deleteUser carol carolUpper users
      = (Json 200 "User deleted successfully" tt, users')
      /\ ~ In carol users'.
Proof.
  destruct (deleteUser_self_guard carol (user_id carol) users) as (A & _).
  destruct (deleteUser_self_guard carol carolUpper users) as (_ & B).
  split; [ apply A; reflexivity | ].
  split; [ discriminate | ]. split; [ reflexivity | ].
  apply B; [ discriminate | reflexivity | reflexivity | ].
  right. right. left. reflexivity.
Defined.

Lemma deleteUserRoute_needs_active_admin_witness :
  UserRoutes.deleteUserRoute tokens (Some "Bearer token-carol") (user_id bob) users
  = (Json 200 "User deleted successfully" tt, [alice; carol; dave])
  /\ exists reqUser,
      In reqUser users
      /\ isActive reqUser = true
      /\ role reqUser = "admin"
      /\ user_id bob <> user_id reqUser
      /\ (forall u, In u [alice; carol; dave]
                    <-> In u users /\ user_id u <> Js.toLowerCase (user_id bob)).
Proof.
  split; [ reflexivity | ].
  apply (deleteUserRoute_needs_active_admin tokens (Some "Bearer token-carol") (user_id bob)
           users 200 "User deleted successfully" [alice; carol; dave]).
  reflexivity.
Defined.

Lemma deletePost_removes_exactly_that_post_witness :
  deletePost carol id1 [published1; published2]
  = (Json 200 "Post deleted successfully" tt, [published2])
  /\ exists post,
      findById (Js.toLowerCase id1) [published1; published2] = Some post
      /\ (author post = user_id carol \/ role carol = "admin")
      /\ (forall q, In q [published2]
                    <-> In q [published1; published2] /\ _id q <> _id post).
Proof.
  pose proof (deletePost_removes_exactly_that_post carol id1 [published1; published2]) as H.
  change (deletePost carol id1 [published1; published2])
    with (Json (A := unit) 200 "Post deleted successfully" tt, [published2]) in H.
  destruct H as (_ & H).
  split; [ reflexivity | exact H ].
Defined.

Lemma addComment_appends_the_trimmed_comment_witness :
  addComment 500%N bob id1 (Some "  Nice post ") [published1]
  = (Json 201 "Comment added successfully"
          (Some (mkComment (user_id bob) "Nice post" 500%N)),
     [commented1])
  /\ exists post,
      findById (Js.toLowerCase id1) [published1] = Some post
      /\ (1 <= String.length (Js.trim "  Nice post ") <= 500)%nat
      /\ [commented1]
         = replaceById
             (with_updatedAt 500%N
                (with_comments
                   (comments post
                    ++ [mkComment (user_id bob) (Js.trim "  Nice post ") 500%N])%list
                   post))
             [published1].
Proof.
  pose proof (addComment_appends_the_trimmed_comment 500%N bob id1 (Some "  Nice post ")
                [published1]) as H.
  change (addComment 500%N bob id1 (Some "  Nice post ") [published1])
    with (Json (A := option Comment) 201 "Comment added successfully"
               (Some (mkComment (user_id bob) "Nice post" 500%N)),
          [commented1]) in H.
  destruct H as (_ & post & Hf & _ & Hl & Hc).
  split; [ reflexivity | ]. exists post.
  split; [ exact Hf | ]. split; [ exact Hl | exact Hc ].
Defined.

Lemma addComment_refuses_blank_and_long_text_witness :
  addComment 500%N bob id1 (Some "   ") [published1]
  = (Failure 400 "Comment content is required" [], [published1])
  /\ (500 < String.length (Js.trim (text (Some longText))))%nat
  /\ exists errs,
      addComment 500%N bob id1 (Some longText) [published1]
      = (Failure 400 "Validation Error" errs, [published1])
      /\ In "Comment must be less than 500 characters" errs.
Proof.
  assert (Hl : (500 < String.length (Js.trim (text (Some longText))))%nat)
    by (apply Nat.ltb_lt; vm_compute; reflexivity).
  destruct (addComment_refuses_blank_and_long_text 500%N bob id1 (Some "   ") [published1])
    as (A & _).
  destruct (addComment_refuses_blank_and_long_text 500%N bob id1 (Some longText) [published1])
    as (_ & B).
  split; [ apply A; reflexivity | ]. split; [ exact Hl | ].
  apply (B published1 Hl); reflexivity.
Defined.

Lemma createPost_stores_the_post_with_its_defaults_witness :
  createPost [] 200%N id2 bob fullBody [published1]
  = (Json 201 "Post created successfully" fullPost, [published1; fullPost])
  /\ [published1; fullPost] = ([published1] ++ [fullPost])%list
  /\ (forall q, In q [published1] -> _id q <> id2 /\ slug q <> slug fullPost).
Proof.
  assert (E : createPost [] 200%N id2 bob fullBody [published1]
              = (Json 201 "Post created successfully" fullPost, [published1; fullPost]))
    by reflexivity.
  destruct (createPost_stores_the_post_with_its_defaults _ _ _ _ _ _ _ _ _ _ E)
    as (_ & _ & Hc & Hq & _).
  split; [ exact E | ]. split; [ exact Hc | exact Hq ].
Defined.

(** Bob cannot create a second post titled "Hello World". *)
Lemma createPost_refuses_a_taken_slug_witness :
  In published1 [published1]
  /\ slug published1 = Some (slugify (Js.trim (text (b_title helloBody))))
  /\ exists msg errs,
      createPost [] 200%N id2 bob helloBody [published1]
      = (Failure 400 msg errs, [published1]).
Proof.
  assert (Hin : In published1 [published1]) by (left; reflexivity).
  split; [ exact Hin | ]. split; [ reflexivity | ].
  apply (createPost_refuses_a_taken_slug [] 200%N id2 bob helloBody [published1] published1
           Hin).
  reflexivity.
Defined.

Lemma updatePost_changes_what_the_body_names_witness :
  updatePost [] 700%N alice id1 editBody [published1]
  = (Json 200 "Post updated successfully" edited1, [edited1])
  /\ exists post,
      findById (Js.toLowerCase id1) [published1] = Some post
      /\ title edited1 = title post
      /\ content edited1 = "A new content"
      /\ tags edited1 = ["news"]
      /\ status edited1 = status post
      /\ views edited1 = views post
      /\ updatedAt edited1 = 700%N.
Proof.
  assert (E : updatePost [] 700%N alice id1 editBody [published1]
              = (Json 200 "Post updated successfully" edited1, [edited1]))
    by reflexivity.
  destruct (updatePost_changes_what_the_body_names _ _ _ _ _ _ _ _ _ _ E)
    as (post & Hf & _ & _ & _ & Hv & _ & _ & _ & Ht & Hc & _ & Hg & _ & _ & Hs & _).
  split; [ exact E | ]. exists post.
  split; [ exact Hf | ]. split; [ exact Ht | ]. split; [ exact Hc | ].
  split; [ exact Hg | ]. split; [ exact Hs | ]. split; [ exact Hv | reflexivity ].
Defined.

(** A post whose slug has the shape of an id is not found by its slug. *)
Lemma getPost_looks_up_by_id_or_by_slug_witness :
  slug hexTitled = Some "deadbeefdeadbeefdeadbeef"
  /\ status hexTitled = "published"
  /\ getPost 500%N None "deadbeefdeadbeefdeadbeef" [hexTitled]
     = (Failure 404 "Post not found" [], [hexTitled])
  /\ _id hexTitled <> Js.toLowerCase "deadbeefdeadbeefdeadbeef".
Proof.
  pose proof (getPost_looks_up_by_id_or_by_slug 500%N None "deadbeefdeadbeefdeadbeef"
                [hexTitled]) as H.
  change (getPost 500%N None "deadbeefdeadbeefdeadbeef" [hexTitled])
    with (Failure (A := Post) 404 "Post not found" [], [hexTitled]) in H.
  split; [ reflexivity | ]. split; [ reflexivity | ]. split; [ reflexivity | ].
  destruct H as [[_ H] | [C _]]; [ | discriminate C ].
  apply (H hexTitled); [ left; reflexivity | reflexivity ].
Defined.

Lemma post_ids_are_matched_in_either_letter_case_witness :
  Js.toLowerCase id1Upper = idA
  /\ getPost 500%N None (Js.toLowerCase id1Upper) [hexTitled]
     = getPost 500%N None id1Upper [hexTitled]
  /\ deletePost alice (Js.toLowerCase id1Upper) [hexTitled]
     = deletePost alice id1Upper [hexTitled].
Proof.
  destruct (post_ids_are_matched_in_either_letter_case [] 500%N None alice id1Upper editBody
              (Some "Nice post") [hexTitled]) as (A & _ & C & _).
  split; [ reflexivity | ]. split; [ exact A | exact C ].
Defined.

(** A view of a post that is not there, a view of a stored post whose
    title is too short for the schema, a second "Hello World", and an
    update by somebody else. *)
Lemma postController_status_codes_witness :
  In (codeOf (fst (getPost 500%N None id2 [published1]))) [200; 400; 404]
  /\ codeOf (fst (getPost 500%N None "hey" [shortTitled])) = 400
  /\ (exists p, In p [shortTitled] /\ ~ validPost p)
  /\ In (codeOf (fst (createPost [] 200%N id2 bob helloBody [published1]))) [201; 400]
  /\ In (codeOf (fst (updatePost [] 700%N bob id1 editBody [published1]))) [200; 400; 403; 404].
Proof.
  destruct (postController_status_codes [] 500%N id2 None bob id2 id1 editBody None
              [published1]) as (A & _).
  destruct (postController_status_codes [] 500%N id2 None bob "hey" id1 editBody None
              [shortTitled]) as (_ & A' & _).
  destruct (postController_status_codes [] 200%N id2 None bob id2 id1 helloBody None
              [published1]) as (_ & _ & B & _).
  destruct (postController_status_codes [] 700%N id2 None bob id2 id1 editBody None
              [published1]) as (_ & _ & _ & C & _).
  split; [ exact A | ]. split; [ reflexivity | ]. split; [ apply A'; reflexivity | ].
  split; [ exact B | exact C ].
Defined.

Lemma getPosts_answers_500_to_a_bad_search_pattern_witness :
  literalRegExp "("
  = inl (plainError "SyntaxError" "Invalid regular expression: Unterminated group")
  /\ getPosts literalRegExp None (mkQuery None None None None None (Some "(") None None)
              [published1]
     = Some (Failure 500 "Invalid regular expression: Unterminated group" []).
Proof.
  split; [ reflexivity | ].
  apply (getPosts_answers_500_to_a_bad_search_pattern literalRegExp None
           (mkQuery None None None None None (Some "(") None None) [published1] "("
           "Invalid regular expression: Unterminated group");
    [ reflexivity | discriminate | reflexivity | discriminate | reflexivity ].
Defined.

Lemma getPosts_page_is_in_the_requested_order_witness :
  getPosts noRegExp None emptyQuery [published1; published2]
  = Some (Json 200 "" (mkPage [published2; published1] (mkPagination 1 1 2 false false 10)))
  /\ Sorted (fun a b => goesBefore "createdAt" (-1) a b = true) [published2; published1].
Proof.
  assert (E : getPosts noRegExp None emptyQuery [published1; published2]
              = Some (Json 200 "" (mkPage [published2; published1]
                                          (mkPagination 1 1 2 false false 10))))
    by reflexivity.
  split; [ exact E | ].
  exact (getPosts_page_is_in_the_requested_order noRegExp None emptyQuery
           [published1; published2] 200 ""
           (mkPage [published2; published1] (mkPagination 1 1 2 false false 10)) E).
Defined.

(** Three posts, two to a page: the first page is full and has a next
    one, and two pages hold them all. *)
Lemma getPosts_page_sizes_witness :
  getPosts noRegExp None (mkQuery None (Some "2") None None None None None None)
           [published1; published2; published3]
  = Some (Json 200 "" (mkPage [published3; published2] (mkPagination 1 2 3 true false 2)))
  /\ (1 <= 1)%Z
  /\ (1 <= 2)%Z
  /\ Z.of_nat (List.length [published3; published2]) = Z.min 2 (Z.max 0 (3 - (1 - 1) * 2))
  /\ (true = true <-> (1 * 2 < 3)%Z)
  /\ ((2 - 1) * 2 < 3 <= 2 * 2)%Z.
Proof.
  assert (E : getPosts noRegExp None (mkQuery None (Some "2") None None None None None None)
                       [published1; published2; published3]
              = Some (Json 200 "" (mkPage [published3; published2]
                                          (mkPagination 1 2 3 true false 2))))
    by reflexivity.
  assert (H1 : (1 <= 1)%Z) by discriminate.
  assert (H2 : (1 <= 2)%Z) by discriminate.
  destruct (getPosts_page_sizes _ _ _ _ _ _ _ E H1 H2) as (A & B & C & _).
  split; [ exact E | ]. split; [ exact H1 | ]. split; [ exact H2 | ].
  split; [ exact A | ]. split; [ exact B | exact C ].
Defined.

Lemma getPosts_filters_by_status_author_and_category_witness :
  getPosts noRegExp None (mkQuery None None None None (Some (user_id bob)) None None None)
           [published1; published2]
  = Some (Json 200 "" (mkPage [published2] (mkPagination 1 1 1 false false 10)))
  /\ author published2 = Js.toLowerCase (user_id bob)
  /\ getPosts noRegExp None (mkQuery None None None None (Some "bob") None None None)
              [published1; published2]
     = getPosts noRegExp None (mkQuery None None None None None None None None)
                [published1; published2].
Proof.
  assert (E : getPosts noRegExp None
                       (mkQuery None None None None (Some (user_id bob)) None None None)
                       [published1; published2]
              = Some (Json 200 "" (mkPage [published2] (mkPagination 1 1 1 false false 10))))
    by reflexivity.
  destruct (getPosts_filters_by_status_author_and_category noRegExp None
              [published1; published2]) as (A & B & _).
  destruct (A _ _ _ _ published2 E (or_introl eq_refl)) as (_ & _ & _ & Ha & _).
  split; [ exact E | ].
  split; [ apply (Ha (user_id bob)); reflexivity | ].
  apply B. reflexivity.
Defined.

Lemma findPublished_lists_the_published_posts_newest_first_witness :
  PostStatics.findPublished [draft1; published1; published2] = [published2; published1]
  /\ (In published2 (PostStatics.findPublished [draft1; published1; published2])
      <-> In published2 [draft1; published1; published2] /\ status published2 = "published")
  /\ Sorted (fun a b => compareOptDate (publishedAt a) (publishedAt b) <> Lt)
            (PostStatics.findPublished [draft1; published1; published2]).
Proof.
  destruct (findPublished_lists_the_published_posts_newest_first
              [draft1; published1; published2]) as (A & _ & C).
  split; [ reflexivity | ]. split; [ exact (A published2) | exact C ].
Defined.

Lemma slugify_gives_words_joined_by_single_hyphens_witness :
  slugify "  --Hello,   World!--  " = "hello-world"
  /\ Forall (fun c => slugOrHyphen c = true) (Js.chars (slugify "  --Hello,   World!--  "))
  /\ (forall r, Js.chars (slugify "  --Hello,   World!--  ") <> "-"%char :: r).
Proof.
  destruct (slugify_gives_words_joined_by_single_hyphens "  --Hello,   World!--  ")
    as (A & _ & C & _).
  split; [ reflexivity | ]. split; [ exact A | exact C ].
Defined.

Lemma slugify_idempotent_witness :
  slugify "  --Hello,   World!--  " = "hello-world"
  /\ slugify (slugify "  --Hello,   World!--  ") = slugify "  --Hello,   World!--  ".
Proof.
  split; [ reflexivity | ].
  exact (slugify_idempotent "  --Hello,   World!--  ").
Defined.

Lemma validatePassword_accepts_exactly_the_strong_passwords_witness :
  ValidationUtil.isValid (ValidationUtil.validatePassword (Some "Secret1")) = true
  /\ (exists p,
        Some "Secret1" = Some p
        /\ (6 <= String.length p <= 128)%nat
        /\ ValidationUtil.hasChar Js.isLowerAz p = true
        /\ ValidationUtil.hasChar Js.isUpperAz p = true
        /\ ValidationUtil.hasChar Js.isDigit p = true)
  /\ ValidationUtil.errors (ValidationUtil.validatePassword (Some ""))
     = ["Password must be at least 6 characters long"].
Proof.
  destruct (validatePassword_accepts_exactly_the_strong_passwords (Some "Secret1"))
    as (A & _).
  destruct (validatePassword_accepts_exactly_the_strong_passwords (Some ""))
    as (_ & _ & C).
  split; [ reflexivity | ]. split; [ apply (proj1 A); reflexivity | ].
  apply C. reflexivity.
Defined.

Lemma validateUsername_accepts_exactly_the_word_names_witness :
  ValidationUtil.isValid (ValidationUtil.validateUsername (Some "alice_01")) = true
  /\ exists u,
      Some "alice_01" = Some u
      /\ (3 <= String.length u <= 30)%nat
      /\ Forall (fun c => ValidationUtil.isWordChar c = true) (Js.chars u).
Proof.
  split; [ reflexivity | ].
  apply (proj1 (validateUsername_accepts_exactly_the_word_names (Some "alice_01"))).
  reflexivity.
Defined.

(** Alice logs in; the deactivated dave gets the answer of a wrong
    password. *)
Lemma login_gives_one_answer_to_every_bad_credential_witness :
  AuthController.login findOneByEmail comparePassword generateToken
    (AuthController.mkLogin (Some "alice@example.com") (Some "alice-Secret1"))
  = Json 200 "Login successful" (alice, "token-alice")
  /\ (exists e p,
        Some "alice@example.com" = Some e /\ e <> ""
        /\ Some "alice-Secret1" = Some p /\ p <> ""
        /\ findOneByEmail e = Some alice
        /\ isActive alice = true
        /\ comparePassword alice p = true
        /\ "token-alice" = generateToken alice)
  /\ AuthController.login findOneByEmail comparePassword generateToken
       (AuthController.mkLogin (Some "dave@example.com") (Some "dave-Secret1"))
     = Failure 401 "Invalid credentials" [].
Proof.
  pose proof (login_gives_one_answer_to_every_bad_credential findOneByEmail comparePassword
                generateToken
                (AuthController.mkLogin (Some "alice@example.com") (Some "alice-Secret1")))
    as H.
  change (AuthController.login findOneByEmail comparePassword generateToken
            (AuthController.mkLogin (Some "alice@example.com") (Some "alice-Secret1")))
    with (Json 200 "Login successful" (alice, "token-alice")) in H.
  destruct H as (_ & H).
  split; [ reflexivity | ]. split; [ exact H | reflexivity ].
Defined.

(** An address with a last label of three letters is accepted, one with
    a last label of four is not. *)
Lemma isValidEmail_asks_for_one_at_and_a_short_last_label_witness :
  ValidationUtil.isValidEmail "alice@example.com" = true
  /\ ValidationUtil.isValidEmail "alice@example.info" = false
  /\ count_occ ascii_dec (Js.chars "alice@example.com") "@"%char = 1
  /\ ValidationUtil.isValidEmail
       (Js.str (Js.chars "bob" ++ "@"%char :: Js.chars "mail" ++ "."%char :: Js.chars "org"))
     = true.
Proof.
  destruct isValidEmail_asks_for_one_at_and_a_short_last_label as (A & B).
  split; [ reflexivity | ]. split; [ reflexivity | ].
  split; [ apply (A "alice@example.com"); reflexivity | ].
  apply (B (Js.chars "bob") (Js.chars "mail") (Js.chars "org"));
    [ discriminate | repeat constructor | discriminate | repeat constructor
    | repeat constructor | simpl; lia ].
Defined.
